(** * The CWC server of aiy-cwc-server (server.py), and the message loop of
      its client (client.py)

    The server accepts one [run] message on a WebSocket, writes the files of
    the message into a fresh temporary directory, starts the child process
    there, forwards the child's output as [stdout]/[stderr] messages, applies
    the client's [signal] and [stdin] messages to the child and finally sends
    one [exit] message.

    Conventions of the embedding.
    - A Python [str] is represented by its UTF-8 encoding, a [string];
      [encode('utf-8')] is then the change of type [encode_utf8].  Strings
      with lone surrogates, on which [encode] raises, have no representation.
    - A parsed JSON value is a [json]; a Python [dict] keeps its items in
      insertion order, so it is a list of pairs read by [dict_get].
    - A function that can raise returns a [result].
    - The coroutines of one session advance on [event]s chosen by the
      event loop and by the outside world; a session is the run of a list of
      events. *)

From Stdlib Require Import ZArith Lia Floats.PrimFloat Strings.Byte Strings.Ascii Strings.String.
From coqutil Require Import Z.prove_Zeq_bitwise.
From stdpp Require Import gmap strings list.

Set Default Proof Using "Type".
Set Warnings "-register-all,-clear-no-such-hyp".

(** ** Python values *)

Abbreviation bytes := (list Byte.byte).

Definition encode_utf8 (s : string) : bytes := String.list_byte_of_string s.
Definition decode_utf8 (b : bytes) : string := String.string_of_list_byte b.

Inductive json :=
  | JNull
  | JBool (b : bool)
  | JInt (n : Z)
  | JFloat (f : float)
  | JStr (s : string)
  | JList (l : list json)
  | JDict (d : list (string * json)).

Abbreviation dict := (list (string * json)).

(** [d.get(key)]: the value of the first item named [key]. *)
Fixpoint dict_get (d : dict) (key : string) : option json :=
  match d with
  | [] => None
  | (k, v) :: d' => if String.eqb k key then Some v else dict_get d' key
  end.

Inductive exn :=
  | AttributeError
  | KeyError (key : json)
  | TypeError
  | ValueError
  | ValidationError
  | binascii_Error
  | FileNotFoundError
  | FileExistsError
  | NotADirectoryError
  | IsADirectoryError
  | OSError
  | CancelledError.

Inductive result (A : Type) :=
  | Ok (a : A)
  | Raise (e : exn).
Arguments Ok {A} a.
Arguments Raise {A} e.

#[global] Instance result_ret : MRet result := @Ok.
#[global] Instance result_bind : MBind result := λ A B k m,
  match m with
  | Ok a => k a
  | Raise e => Raise e
  end.

(** [v.get(key)] and [v.get(key, default)] on a parsed value: only a dict
    has the method. *)
Definition py_get (v : json) (key : string) : result (option json) :=
  match v with
  | JDict d => Ok (dict_get d key)
  | _ => Raise AttributeError
  end.

Definition py_get_default (v : json) (key : string) (default : json) : result json :=
  o ← py_get v key; Ok (from_option id default o).

(** [v[key]] with a string key. *)
Definition py_getitem (v : json) (key : string) : result json :=
  match v with
  | JDict d =>
      match dict_get d key with
      | Some x => Ok x
      | None => Raise (KeyError (JStr key))
      end
  | _ => Raise TypeError
  end.

(** [o != s] for the result [o] of a [get] ([None] when absent) and a
    string literal [s]. *)
Definition py_ne_str (o : option json) (s : string) : bool :=
  match o with
  | Some (JStr t) => negb (String.eqb t s)
  | _ => true
  end.

(** ** base64.b64encode (RFC 4648, with padding) *)

Definition b64_alphabet : list ascii :=
  list_ascii_of_string
    "ABCDEFGHIJKLMNOPQRSTUVWXYZabcdefghijklmnopqrstuvwxyz0123456789+/".

Definition b64_char (n : N) : ascii :=
  nth (N.to_nat n) b64_alphabet "="%char.

Definition b64_quad (n : N) (pad : nat) : string :=
  let c k := b64_char (N.land (N.shiftr n k) 63) in
  match pad with
  | 0 => String (c 18%N) (String (c 12%N) (String (c 6%N) (String (c 0%N) EmptyString)))
  | 1 => String (c 18%N) (String (c 12%N) (String (c 6%N) "="))
  | _ => String (c 18%N) (String (c 12%N) "==")
  end.

Fixpoint b64encode (data : bytes) : string :=
  match data with
  | [] => EmptyString
  | [a] => b64_quad (N.shiftl (Byte.to_N a) 16) 2
  | [a; b] => b64_quad (N.lor (N.shiftl (Byte.to_N a) 16) (N.shiftl (Byte.to_N b) 8)) 1
  | a :: b :: c :: rest =>
      b64_quad (N.lor (N.lor (N.shiftl (Byte.to_N a) 16) (N.shiftl (Byte.to_N b) 8))
                      (Byte.to_N c)) 0
      +:+ b64encode rest
  end.

(** A decoder for the canonical texts of RFC 4648 (those [b64encode]
    produces).  The server is parametric in its decoder (see [Context] of
    the section below); this one instantiates it in the examples. *)
Fixpoint index_of (c : ascii) (l : list ascii) (i : N) : option N :=
  match l with
  | [] => None
  | x :: l' => if Ascii.eqb x c then Some i else index_of c l' (N.succ i)
  end.

Definition b64_value (c : ascii) : option N := index_of c b64_alphabet 0%N.

Definition byte_of (n : N) : byte :=
  from_option id Byte.x00 (Byte.of_N (N.land n 255)).

Fixpoint b64decode_canonical (s : list ascii) : result bytes :=
  match s with
  | [] => Ok []
  | a :: b :: c :: d :: rest =>
      match b64_value a, b64_value b with
      | Some x, Some y =>
          let hi := N.lor (N.shiftl x 18) (N.shiftl y 12) in
          match b64_value c, b64_value d, rest with
          | Some z, Some w, _ =>
              let n := N.lor hi (N.lor (N.shiftl z 6) w) in
              tl ← b64decode_canonical rest;
              Ok (byte_of (N.shiftr n 16) :: byte_of (N.shiftr n 8) :: byte_of n :: tl)
          | Some z, None, [] =>
              if Ascii.eqb d "=" then
                let n := N.lor hi (N.shiftl z 6) in
                Ok [byte_of (N.shiftr n 16); byte_of (N.shiftr n 8)]
              else Raise binascii_Error
          | None, None, [] =>
              if Ascii.eqb c "=" && Ascii.eqb d "=" then Ok [byte_of (N.shiftr hi 16)]
              else Raise binascii_Error
          | _, _, _ => Raise binascii_Error
          end
      | _, _ => Raise binascii_Error
      end
  | _ => Raise binascii_Error
  end.

Definition b64decode_rfc4648 (data : bytes) : result bytes :=
  b64decode_canonical (list_ascii_of_string (decode_utf8 data)).

(** ** Messages (server.py, lines 125-154) *)

(** def stream_msg(data, kind) *)
Definition stream_msg (data : bytes) (kind : string) : json :=
  JDict [("type", JStr kind); ("data", JStr (b64encode data))].

(** def exit_msg(code) *)
Definition exit_msg (code : Z) : json :=
  JDict [("type", JStr "exit"); ("code", JInt code)].

(** The six values [parse_run_msg] returns:
    args, chunk_size, stdout, stderr, env, files. *)
Abbreviation run_tuple := (json * json * json * json * json * json)%type.

Section Parsing.
(** [validate_msg] is a global the server replaces at start-up
    ([enable_validation]): [valid] tells which messages the installed
    validator lets through; the default lets every message through. *)
Context (valid : json → bool).
(** [base64.b64decode], of the standard library. *)
Context (b64decode : bytes → result bytes).

Definition validate_msg (msg : json) : result json :=
  if valid msg then Ok msg else Raise ValidationError.

(** def parse_run_msg(msg) *)
Definition parse_run_msg (msg : json) : result (option run_tuple) :=
  m ← validate_msg msg;
  t ← py_get m "type";
  if py_ne_str t "run" then Ok None
  else
    args ← py_getitem msg "args";
    chunk_size ← py_get_default msg "chunk_size" (JInt 1024);
    stdout ← py_get_default msg "stdout" (JStr "pipe");
    stderr ← py_get_default msg "stderr" (JStr "pipe");
    env ← py_get_default msg "env" (JDict []);
    files ← py_get_default msg "files" (JDict []);
    Ok (Some (args, chunk_size, stdout, stderr, env, files)).

(** def parse_signal_msg(msg) *)
Definition parse_signal_msg (msg : json) : result (option json) :=
  m ← validate_msg msg;
  t ← py_get m "type";
  if py_ne_str t "signal" then Ok None
  else
    signum ← py_getitem msg "signum";
    Ok (Some signum).

(** [s.encode('utf-8')] where [s] came out of a message. *)
Definition py_encode (v : json) : result bytes :=
  match v with
  | JStr s => Ok (encode_utf8 s)
  | _ => Raise AttributeError
  end.

(** def parse_stdin_msg(msg) *)
Definition parse_stdin_msg (msg : json) : result (option bytes) :=
  m ← validate_msg msg;
  t ← py_get m "type";
  if py_ne_str t "stdin" then Ok None
  else
    data ← py_getitem msg "data";
    raw ← py_encode data;
    payload ← b64decode raw;
    Ok (Some payload).
End Parsing.

(** The validator installed by default: [return msg]. *)
Definition no_validation (msg : json) : bool := true.

(** ** The file system

    A file system is a finite map from absolute, normalised paths (the list
    of components below the root) to nodes; the root itself is a directory
    and is not stored.  There are no symbolic links, permissions or length
    limits. *)

Inductive node :=
  | Dir
  | File (data : bytes).

Abbreviation path := (list string).
Abbreviation filesystem := (gmap (list string) node).

(** [s.split('/')] *)
Fixpoint split_sep (s : string) : list string :=
  match s with
  | EmptyString => [EmptyString]
  | String c s' =>
      if Ascii.eqb c "/" then EmptyString :: split_sep s'
      else match split_sep s' with
           | [] => [String c EmptyString]
           | x :: xs => String c x :: xs
           end
  end.

Definition startswith_sep (s : string) : bool :=
  match s with
  | String c _ => Ascii.eqb c "/"
  | EmptyString => false
  end.

Fixpoint endswith_sep (s : string) : bool :=
  match s with
  | EmptyString => false
  | String c EmptyString => Ascii.eqb c "/"
  | String _ s' => endswith_sep s'
  end.

(** posixpath.join(a, b) *)
Definition os_path_join (a b : string) : string :=
  if startswith_sep b then b
  else if String.eqb a EmptyString || endswith_sep a then a +:+ b
  else a +:+ "/" +:+ b.

(** The name of a normalised absolute path: "/" for the root, else
    "/c1/c2/.../cn". *)
Fixpoint path_tail (p : path) : string :=
  match p with
  | [] => EmptyString
  | c :: p' => "/" +:+ c +:+ path_tail p'
  end.

Definition path_str (p : path) : string :=
  match p with
  | [] => "/"
  | _ => path_tail p
  end.

(** Path resolution (path_resolution(7), without links): follow the
    components [comps] as directories, starting in directory [cur]. *)
Fixpoint walk (fs : filesystem) (cur : path) (comps : list string) : result path :=
  match comps with
  | [] => Ok cur
  | c :: cs =>
      if String.eqb c EmptyString || String.eqb c "." then walk fs cur cs
      else if String.eqb c ".." then walk fs (removelast cur) cs
      else match fs !! (cur ++ [c]) with
           | Some Dir => walk fs (cur ++ [c]) cs
           | Some (File _) => Raise NotADirectoryError
           | None => Raise FileNotFoundError
           end
  end.

(** The directory holding the last component of the path named [p], and
    that component.  Every path the server hands to the system is absolute
    (it is an absolute key or starts with the name of the temporary
    directory), so resolution starts at the root. *)
Definition resolve_parent (fs : filesystem) (p : string) : result (path * string) :=
  if String.eqb p EmptyString then Raise FileNotFoundError
  else
    let comps := split_sep p in
    dir ← walk fs [] (removelast comps);
    Ok (dir, List.last comps EmptyString).

Definition special_name (c : string) : bool :=
  String.eqb c EmptyString || String.eqb c "." || String.eqb c "..".

(** [open(p, 'wb')]: the file is created, or truncated when it exists;
    the result is the new file system and the place of the file. *)
Definition open_wb (fs : filesystem) (p : string) : result (filesystem * path) :=
  r ← resolve_parent fs p;
  let f := r.1 ++ [r.2] in
  if special_name r.2 then Raise IsADirectoryError
  else match fs !! f with
       | Some Dir => Raise IsADirectoryError
       | _ => Ok (<[f := File []]> fs, f)
       end.

(** [os.mkdir(p)] *)
Definition os_mkdir (fs : filesystem) (p : string) : result filesystem :=
  r ← resolve_parent fs p;
  let f := r.1 ++ [r.2] in
  if special_name r.2 then Raise FileExistsError
  else match fs !! f with
       | Some _ => Raise FileExistsError
       | None => Ok (<[f := Dir]> fs)
       end.

(** The names [tempfile] draws: eight characters of this alphabet each;
    a draw is the list of the indices the random generator returned. *)
Definition name_characters : list ascii :=
  list_ascii_of_string "abcdefghijklmnopqrstuvwxyz0123456789_".

Definition random_name (draw : list nat) : string :=
  string_of_list_ascii
    (map (λ i, nth (i mod 37) name_characters "_"%char) draw).

(** [tempfile.mkdtemp(prefix='aiy-')] in directory [dir]: the first
    candidate that [os.mkdir] accepts. *)
Fixpoint mkdtemp (fs : filesystem) (dir : string) (names : list string)
    : result (filesystem * string) :=
  match names with
  | [] => Raise FileExistsError
  | name :: names' =>
      let file := os_path_join dir ("aiy-" +:+ name) in
      match os_mkdir fs file with
      | Ok fs' => Ok (fs', file)
      | Raise FileExistsError => mkdtemp fs dir names'
      | Raise e => Raise e
      end
  end.

(** [shutil.rmtree(d)], as [TemporaryDirectory] runs it when the [with]
    block is left: the directory and all below it go. *)
Definition rmtree (fs : filesystem) (d : string) : filesystem :=
  match walk fs [] (split_sep d) with
  | Ok p => filter (λ kv, ¬ p `prefix_of` kv.1) fs
  | Raise _ => fs
  end.

(** The loop of [TempDirectory]:
<<
    for name, code in files.items():
        with open(os.path.join(d, name), 'wb') as f:
            f.write(code.encode('utf-8'))
            f.flush()
>>
    What was written before an exception stays written. *)
Fixpoint write_files (fs : filesystem) (d : string) (items : dict)
    : filesystem * option exn :=
  match items with
  | [] => (fs, None)
  | (name, code) :: items' =>
      match open_wb fs (os_path_join d name) with
      | Raise e => (fs, Some e)
      | Ok (fs1, f) =>
          match py_encode code with
          | Raise e => (fs1, Some e)
          | Ok data => write_files (<[f := File data]> fs1) d items'
          end
      end
  end.

(** def TempDirectory(files), up to its [yield d]: the file system
    afterwards, and the directory or the exception.  An exception leaves
    the [with tempfile.TemporaryDirectory] block, which removes the
    directory. *)
Definition TempDirectory (fs : filesystem) (tmp : path) (draws : list (list nat))
    (files : json) : filesystem * result string :=
  match mkdtemp fs (path_str tmp) (map random_name draws) with
  | Raise e => (fs, Raise e)
  | Ok (fs1, d) =>
      match files with
      | JDict items =>
          match write_files fs1 d items with
          | (fs2, None) => (fs2, Ok d)
          | (fs2, Some e) => (rmtree fs2 d, Raise e)
          end
      | _ => (rmtree fs1 d, Raise AttributeError)
      end
  end.

(** Leaving [with TempDirectory(files) as cwd]. *)
Definition TempDirectory_exit (fs : filesystem) (d : string) : filesystem :=
  rmtree fs d.

(** ** The child process and its pipes *)

(** asyncio.subprocess.PIPE, STDOUT, DEVNULL *)
Inductive disposition :=
  | PIPE
  | STDOUT
  | DEVNULL.

(** CONVERT[name] *)
Definition CONVERT (name : json) : result disposition :=
  match name with
  | JStr "pipe" => Ok PIPE
  | JStr "stdout" => Ok STDOUT
  | JStr "null" => Ok DEVNULL
  | JList _ | JDict _ => Raise TypeError
  | _ => Raise (KeyError name)
  end.

(** collections.ChainMap: a lookup takes the first map that has the key. *)
Record ChainMap := { maps : list dict }.

Fixpoint chain_get (ms : list dict) (key : string) : option json :=
  match ms with
  | [] => None
  | m :: ms' =>
      match dict_get m key with
      | Some v => Some v
      | None => chain_get ms' key
      end
  end.

Definition ChainMap_getitem (c : ChainMap) (key : string) : option json :=
  chain_get (maps c) key.

(** The keys in the order of [ChainMap.__iter__]
    ([d.update(dict.fromkeys(mapping))] for the maps in reverse). *)
Fixpoint add_keys (acc ks : list string) : list string :=
  match ks with
  | [] => acc
  | k :: ks' => add_keys (if decide (k ∈ acc) then acc else acc ++ [k]) ks'
  end.

Definition ChainMap_iter (c : ChainMap) : list string :=
  foldr (λ m acc, add_keys acc m.*1) [] (maps c).

(** [c.items()], which is what the process is given as its environment. *)
Definition ChainMap_items (c : ChainMap) : dict :=
  omap (λ k, pair k <$> ChainMap_getitem c k) (ChainMap_iter c).

(** [os.environ] as a dict *)
Definition environ_dict (environ : list (string * string)) : dict :=
  prod_map id JStr <$> environ.

(** What arrives in a pipe, in the pieces in which it arrives. *)
Abbreviation stream := (list bytes).

Inductive fd :=
  | fd_stdout
  | fd_stderr.

#[global] Instance fd_eq_dec : EqDecision fd.
Proof. solve_decision. Defined.

(** What the pipe read by the server as [process.stdout] carries:
    what the child writes to its standard output, and also what it writes to
    its standard error when that was redirected to STDOUT. *)
Definition stdout_pipe (stderr : disposition) (writes : list (fd * bytes)) : stream :=
  omap (λ w, match w.1, stderr with
             | fd_stdout, _ => Some w.2
             | fd_stderr, STDOUT => Some w.2
             | fd_stderr, _ => None
             end) writes.

Definition stderr_pipe (writes : list (fd * bytes)) : stream :=
  omap (λ w, match w.1 with fd_stderr => Some w.2 | fd_stdout => None end) writes.

(** The handle [create_subprocess_exec] returns: [stdout] and [stderr] are
    streams only where a pipe was asked for, else [None]. *)
Record process := {
  p_args : json;
  p_stdout : option stream;
  p_stderr : option stream;
  p_env : ChainMap;
  p_cwd : string;
}.

(** A frame from the client: a text frame is given by what [json.loads]
    makes of it ([None] when it raises); [WsClose] stands for the frames
    that end the iteration over the socket. *)
Inductive ws_message :=
  | WsText (loads : option json)
  | WsBinary
  | WsClose.

Definition json_loads (loads : option json) : result json :=
  match loads with
  | Some v => Ok v
  | None => Raise ValueError
  end.

(** What one session meets: the file system, [tempfile]'s directory and
    random draws, [os.environ], the frames the client sends, whether the
    executable can be started, and what the child then writes. *)
Record world := {
  w_fs : filesystem;
  w_tmp : path;
  w_draws : list (list nat);
  w_environ : list (string * string);
  w_inbox : list ws_message;
  w_exec : option exn;
  w_writes : list (fd * bytes);
}.

(** def start_process(args, stdout, stderr, env, cwd) *)
Definition start_process (w : world) (args stdout stderr env : json) (cwd : string)
    : result process :=
  out ← CONVERT stdout;
  err ← CONVERT stderr;
  overlay ← match env with JDict d => Ok d | _ => Raise TypeError end;
  match w_exec w with
  | Some e => Raise e
  | None =>
      Ok {| p_args := args;
            p_stdout := match out with
                        | PIPE => Some (stdout_pipe err (w_writes w))
                        | _ => None
                        end;
            p_stderr := match err with
                        | PIPE => Some (stderr_pipe (w_writes w))
                        | _ => None
                        end;
            p_env := {| maps := [overlay; environ_dict (w_environ w)] |};
            p_cwd := cwd |}
  end.

(** ** StreamReader.read *)

(** [n] as the integer Python takes it for ([bool] is an [int]). *)
Definition as_int (n : json) : option Z :=
  match n with
  | JInt z => Some z
  | JBool b => Some (if b then 1 else 0)%Z
  | _ => None
  end.

(** A read of at most [n > 0] bytes once data is there or the pipe is at
    its end: the bytes, and what is left in the pipe. *)
Fixpoint read_some (n : nat) (s : stream) : bytes * stream :=
  match s with
  | [] => ([], [])
  | [] :: rest => read_some n rest
  | piece :: rest =>
      (take n piece,
       match drop n piece with
       | [] => rest
       | more => more :: rest
       end)
  end.

(** [await stream.read(n)]: nothing for [n == 0], all up to the end of the
    stream for [n < 0], else at most [n] bytes, none only at the end. *)
Definition stream_read (n : json) (s : stream) : result (bytes * stream) :=
  match as_int n, n with
  | Some z, _ =>
      if (z =? 0)%Z then Ok ([], s)
      else if (z <? 0)%Z then Ok (concat s, [])
      else Ok (read_some (Z.to_nat z) s)
  | None, JFloat f =>
      if PrimFloat.eqb f 0 then Ok ([], s)
      else if PrimFloat.ltb f 0 then Ok (concat s, [])
      else Raise TypeError
  | None, _ => Raise TypeError
  end.

(** ** One session *)

(** The calls made on the child's handle. *)
Inductive call :=
  | send_signal (signum : json)
  | stdin_write (data : bytes)
  | stdin_close
  | kill.

(** A [ReadOp] task: still in its loop with the stream as it is, out of
    the loop (with what was left unread), or ended by an exception. *)
Inductive task :=
  | Running (s : stream)
  | Finished (s : stream)
  | Failed (e : exn).

Inductive phase :=
  | Joining     (* communicate waits in [asyncio.wait(operations)] *)
  | Reaping     (* cancelled: [wait_process] killed the child and awaits it *)
  | Closed.     (* communicate is over *)

Record session := {
  s_phase : phase;
  s_process : option process;        (* the child, once started *)
  s_cwd : option string;             (* the directory of TempDirectory *)
  s_chunk_size : json;
  s_wait : option Z;                 (* the result of wait_op, once done *)
  s_out : option task;               (* ReadOp(process.stdout, 'stdout', ..) *)
  s_err : option task;               (* ReadOp(process.stderr, 'stderr', ..) *)
  s_receiving : bool;                (* ReceiveOp is iterating *)
  s_inbox : list ws_message;         (* frames not yet received *)
  s_sent : list json;                (* ws.send_json, in order *)
  s_calls : list call;               (* calls on the child, in order *)
  s_log : list exn;                  (* logger.warning of LogWarning *)
  s_raised : option exn;             (* what communicate raised *)
  s_fs : filesystem;
}.

(** [await ws.send_json(m)]; the socket takes every message as long as
    communicate runs. *)
Definition send_json (m : json) (s : session) : session :=
  {| s_phase := s_phase s; s_process := s_process s; s_cwd := s_cwd s;
     s_chunk_size := s_chunk_size s; s_wait := s_wait s; s_out := s_out s;
     s_err := s_err s; s_receiving := s_receiving s; s_inbox := s_inbox s;
     s_sent := s_sent s ++ [m]; s_calls := s_calls s; s_log := s_log s;
     s_raised := s_raised s; s_fs := s_fs s |}.

Definition call_process (c : call) (s : session) : session :=
  {| s_phase := s_phase s; s_process := s_process s; s_cwd := s_cwd s;
     s_chunk_size := s_chunk_size s; s_wait := s_wait s; s_out := s_out s;
     s_err := s_err s; s_receiving := s_receiving s; s_inbox := s_inbox s;
     s_sent := s_sent s; s_calls := s_calls s ++ [c]; s_log := s_log s;
     s_raised := s_raised s; s_fs := s_fs s |}.

Definition log_warning (e : exn) (s : session) : session :=
  {| s_phase := s_phase s; s_process := s_process s; s_cwd := s_cwd s;
     s_chunk_size := s_chunk_size s; s_wait := s_wait s; s_out := s_out s;
     s_err := s_err s; s_receiving := s_receiving s; s_inbox := s_inbox s;
     s_sent := s_sent s; s_calls := s_calls s; s_log := s_log s ++ [e];
     s_raised := s_raised s; s_fs := s_fs s |}.

Definition set_phase (p : phase) (s : session) : session :=
  {| s_phase := p; s_process := s_process s; s_cwd := s_cwd s;
     s_chunk_size := s_chunk_size s; s_wait := s_wait s; s_out := s_out s;
     s_err := s_err s; s_receiving := s_receiving s; s_inbox := s_inbox s;
     s_sent := s_sent s; s_calls := s_calls s; s_log := s_log s;
     s_raised := s_raised s; s_fs := s_fs s |}.

Definition set_wait (code : Z) (s : session) : session :=
  {| s_phase := s_phase s; s_process := s_process s; s_cwd := s_cwd s;
     s_chunk_size := s_chunk_size s; s_wait := Some code; s_out := s_out s;
     s_err := s_err s; s_receiving := s_receiving s; s_inbox := s_inbox s;
     s_sent := s_sent s; s_calls := s_calls s; s_log := s_log s;
     s_raised := s_raised s; s_fs := s_fs s |}.

Definition set_reader (r : fd) (t : option task) (s : session) : session :=
  {| s_phase := s_phase s; s_process := s_process s; s_cwd := s_cwd s;
     s_chunk_size := s_chunk_size s; s_wait := s_wait s;
     s_out := match r with fd_stdout => t | fd_stderr => s_out s end;
     s_err := match r with fd_stderr => t | fd_stdout => s_err s end;
     s_receiving := s_receiving s; s_inbox := s_inbox s;
     s_sent := s_sent s; s_calls := s_calls s; s_log := s_log s;
     s_raised := s_raised s; s_fs := s_fs s |}.

Definition set_receive (on : bool) (inbox : list ws_message) (s : session) : session :=
  {| s_phase := s_phase s; s_process := s_process s; s_cwd := s_cwd s;
     s_chunk_size := s_chunk_size s; s_wait := s_wait s; s_out := s_out s;
     s_err := s_err s; s_receiving := on; s_inbox := inbox;
     s_sent := s_sent s; s_calls := s_calls s; s_log := s_log s;
     s_raised := s_raised s; s_fs := s_fs s |}.

(** The [with TempDirectory(files) as cwd] block is left, by its end or by
    the exception [e]: the directory is removed and communicate is over. *)
Definition leave (e : option exn) (s : session) : session :=
  {| s_phase := Closed; s_process := s_process s; s_cwd := s_cwd s;
     s_chunk_size := s_chunk_size s; s_wait := s_wait s; s_out := s_out s;
     s_err := s_err s; s_receiving := false; s_inbox := s_inbox s;
     s_sent := s_sent s; s_calls := s_calls s; s_log := s_log s;
     s_raised := e;
     s_fs := match s_cwd s with
             | Some d => TempDirectory_exit (s_fs s) d
             | None => s_fs s
             end |}.

Definition reader (r : fd) (s : session) : option task :=
  match r with
  | fd_stdout => s_out s
  | fd_stderr => s_err s
  end.

Definition kind (r : fd) : string :=
  match r with
  | fd_stdout => "stdout"
  | fd_stderr => "stderr"
  end.

Definition running (t : option task) : bool :=
  match t with
  | Some (Running _) => true
  | _ => false
  end.

Inductive event :=
  | Exit (code : Z)     (* the child ends: process.wait() returns [code] *)
  | Read (r : fd)       (* the ReadOp of this pipe runs one round of its loop *)
  | Receive             (* ReceiveOp is given the next frame of the client *)
  | Cancel.             (* the task that runs communicate is cancelled *)

Section Server.
Context (valid : json → bool).
Context (b64decode : bytes → result bytes).

(** def signal_process(process, signum) *)
Definition signal_process (signum : json) (s : session) : session :=
  call_process (send_signal signum) s.

(** One round of the loop of [ReadOp(stream, kind, chunk_size, ws)]:
<<
  data = await stream.read(chunk_size)
  if not data:
      break
  await ws.send_json(stream_msg(data, kind))
>>
*)
Definition ReadOp (r : fd) (s : session) : session :=
  match reader r s with
  | Some (Running pipe) =>
      match stream_read (s_chunk_size s) pipe with
      | Raise e => set_reader r (Some (Failed e)) s
      | Ok ([], rest) => set_reader r (Some (Finished rest)) s
      | Ok (data, rest) =>
          send_json (stream_msg data (kind r)) (set_reader r (Some (Running rest)) s)
      end
  | _ => s
  end.

(** The body of the loop of [ReceiveOp(process, ws)] for one frame,
    inside its [with LogWarning()]. *)
Definition ReceiveOp_body (msg : ws_message) (s : session) : session :=
  match msg with
  | WsText data =>
      match json_loads data with
      | Raise e => log_warning e s
      | Ok parsed =>
          match parse_signal_msg valid parsed with
          | Raise e => log_warning e s
          | Ok signal_msg =>
              let s1 := match signal_msg with
                        | Some signum => signal_process signum s
                        | None => s
                        end in
              match parse_stdin_msg valid b64decode parsed with
              | Raise e => log_warning e s1
              | Ok (Some []) => call_process stdin_close s1
              | Ok (Some data) => call_process (stdin_write data) s1
              | Ok None => s1
              end
          end
      end
  | _ => s
  end.

(** One turn of [async for msg in ws] in ReceiveOp: the iteration ends
    with the socket. *)
Definition ReceiveOp (s : session) : session :=
  if s_receiving s then
    match s_inbox s with
    | [] => set_receive false [] s
    | WsClose :: inbox => set_receive false inbox s
    | msg :: inbox => ReceiveOp_body msg (set_receive true inbox s)
    end
  else s.

(** def wait_process(process, wait_op), up to the point where it has the
    code or awaits [wait_op] after [process.kill()]. *)
Definition wait_process (s : session) : option Z * session :=
  match s_wait s with
  | Some code => (Some code, s)
  | None => (None, call_process kill s)
  end.

(** communicate from the end of its [try] block on:
<<
  receive_op.cancel()
  code = await wait_process(process, wait_op)
  await ws.send_json(exit_msg(code))
>>
*)
Definition conclude (s : session) : session :=
  match wait_process (set_receive false (s_inbox s) s) with
  | (Some code, s') => leave None (send_json (exit_msg code) s')
  | (None, s') => set_phase Reaping s'
  end.

(** [await asyncio.wait(operations)] returns when the wait for the child
    and the read loops that were started are all done. *)
Definition operations_done (s : session) : bool :=
  match s_wait s with
  | Some _ => negb (running (s_out s)) && negb (running (s_err s))
  | None => false
  end.

Definition join (s : session) : session :=
  if operations_done s then conclude s else s.

Definition step (ev : event) (s : session) : session :=
  match s_phase s with
  | Closed => s
  | Joining =>
      match ev with
      | Exit code =>
          join (match s_wait s with
                | None => set_wait code s
                | Some _ => s
                end)
      | Read r => join (ReadOp r s)
      | Receive => ReceiveOp s
      | Cancel => conclude s     (* except CancelledError: pass *)
      end
  | Reaping =>
      match ev with
      | Exit code => leave None (send_json (exit_msg code) (set_wait code s))
      | Read r => ReadOp r s
      | Receive => s
      | Cancel => leave (Some CancelledError) s
      end
  end.

Definition run (evs : list event) (s : session) : session :=
  foldl (λ s ev, step ev s) s evs.

(** [await ws.receive_json()] *)
Definition receive_json (inbox : list ws_message) : result json * list ws_message :=
  match inbox with
  | WsText loads :: rest => (json_loads loads, rest)
  | _ :: rest => (Raise TypeError, rest)
  | [] => (Raise TypeError, [])
  end.

(** communicate is over before a child was started. *)
Definition over (fs : filesystem) (inbox : list ws_message) (e : option exn) : session :=
  {| s_phase := Closed; s_process := None; s_cwd := None;
     s_chunk_size := JNull; s_wait := None; s_out := None; s_err := None;
     s_receiving := false; s_inbox := inbox; s_sent := []; s_calls := [];
     s_log := []; s_raised := e; s_fs := fs |}.

(** communicate at [await asyncio.wait(operations)], the child started. *)
Definition started (fs : filesystem) (inbox : list ws_message) (cwd : string)
    (chunk_size : json) (p : process) : session :=
  {| s_phase := Joining; s_process := Some p; s_cwd := Some cwd;
     s_chunk_size := chunk_size; s_wait := None;
     s_out := Running <$> p_stdout p; s_err := Running <$> p_stderr p;
     s_receiving := true; s_inbox := inbox; s_sent := []; s_calls := [];
     s_log := []; s_raised := None; s_fs := fs |}.

(** async def communicate(ws), in world [w] and under the events [evs] *)
Definition communicate (w : world) (evs : list event) : session :=
  let (first, inbox) := receive_json (w_inbox w) in
  match first ≫= parse_run_msg valid with
  | Raise e => over (w_fs w) inbox (Some e)
  | Ok None => over (w_fs w) inbox None
  | Ok (Some (args, chunk_size, stdout, stderr, env, files)) =>
      match TempDirectory (w_fs w) (w_tmp w) (w_draws w) files with
      | (fs, Raise e) => over fs inbox (Some e)
      | (fs, Ok cwd) =>
          match start_process w args stdout stderr env cwd with
          | Raise e => over (TempDirectory_exit fs cwd) inbox (Some e)
          | Ok p => run evs (started fs inbox cwd chunk_size p)
          end
      end
  end.

(** async def spawn(request): communicate inside [with LogWarning(..)] *)
Definition spawn (w : world) (evs : list event) : session :=
  let s := communicate w evs in
  match s_raised s with
  | Some e => log_warning e s
  | None => s
  end.

(** client.py, the loop of [run] over the frames of the server (the
    writes to the terminal are left out): the code it returns. *)
Fixpoint client_run (received : list json) : result json :=
  match received with
  | [] => Ok (JInt 127)   (* WebSocket was closed without sending 'exit' message. *)
  | params :: rest =>
      kind ← py_getitem params "type";
      if negb (py_ne_str (Some kind) "exit") then py_getitem params "code"
      else if negb (py_ne_str (Some kind) "stdout") || negb (py_ne_str (Some kind) "stderr")
      then
        data ← py_getitem params "data";
        raw ← py_encode data;
        _ ← b64decode raw;
        client_run rest
      else client_run rest
  end.
End Server.

(** ** Notions used in the statements *)

(** [x] is what [msg.get(key, default)] returns on the dict [d]. *)
Definition got_or_default (d : dict) (key : string) (default x : json) : Prop :=
  match dict_get d key with
  | Some v => x = v
  | None => x = default
  end.

(** [os.environ[name]] *)
Fixpoint environ_get (environ : list (string * string)) (name : string) : option string :=
  match environ with
  | [] => None
  | (k, v) :: environ' => if String.eqb k name then Some v else environ_get environ' name
  end.

(** The messages of the server: a piece of a stream, or the exit code. *)
Definition is_stream_msg (tag : string) (m : json) : Prop :=
  ∃ data, m = stream_msg data tag.

Definition is_exit_msg (m : json) : Prop :=
  ∃ code, m = exit_msg code.

(** The read loop of a pipe has seen the end of the pipe, if it was started. *)
Definition drained (t : option task) : Prop :=
  match t with
  | None => True
  | Some (Finished []) => True
  | Some _ => False
  end.

(** The code of the first [Exit] among the events: the code the child
    ended with. *)
Definition first_exit (evs : list event) : option Z :=
  head (omap (λ ev, match ev with Exit code => Some code | _ => None end) evs).

Definition is_read (ev : event) : Prop :=
  match ev with
  | Read _ => True
  | _ => False
  end.

(** A read loop that is over stopped at the end of its pipe. *)
Definition reader_sound (t : option task) : Prop :=
  match t with
  | Some (Finished (_ :: _)) | Some (Failed _) => False
  | _ => True
  end.

Definition no_exit_msg (sent : list json) : Prop :=
  Forall (λ m, ¬ is_exit_msg m) sent.

(** The states of a session that is not cancelled: while communicate
    waits, some operation is not done and no exit message was sent; when
    it is over, the exit message carries the code of the child, closes
    what was sent, and both read loops are over. *)
Definition orderly (s : session) : Prop :=
  reader_sound (s_out s) ∧ reader_sound (s_err s) ∧
  match s_phase s with
  | Joining => operations_done s = false ∧ no_exit_msg (s_sent s)
  | Closed =>
      ∃ code pre,
        s_wait s = Some code
        ∧ s_sent s = pre ++ [exit_msg code]
        ∧ no_exit_msg pre
        ∧ running (s_out s) = false
        ∧ running (s_err s) = false
  | Reaping => False
  end.

(** The bytes a read loop has still to read. *)
Definition backlog (t : option task) : nat :=
  match t with
  | Some (Running pipe) => S (length (concat pipe))
  | _ => 0
  end.

(** A component that names an entry: not empty, not "." or "..", and
    without a separator. *)
Definition proper_name (c : string) : bool :=
  negb (special_name c)
  && forallb (λ a, negb (Ascii.eqb a "/")) (list_ascii_of_string c).

(** Every entry below the root lies in a directory. *)
Definition fs_wf (fs : filesystem) : Prop :=
  ∀ p c, is_Some (fs !! (p ++ [c])) → p = [] ∨ fs !! p = Some Dir.

Definition is_dir (fs : filesystem) (p : path) : Prop :=
  p = [] ∨ fs !! p = Some Dir.

(** Below the directory [d] there are only files, directly in it. *)
Definition flat_below (fs : filesystem) (d : path) : Prop :=
  ∀ q x, q ≠ [] → fs !! (d ++ q) = Some x → ∃ c data, q = [c] ∧ x = File data.

(** ** The client's side of the messages (client.py, lines 46-67) *)

(** def encode(data) *)
Definition client_encode (data : bytes) : string := b64encode data.

(** def decode(data), with the decoder [b64decode] *)
Definition client_decode (b64decode : bytes → result bytes) (data : string)
    : result bytes :=
  b64decode (encode_utf8 data).

(** def make_run_msg(args, stdout, stderr, chunk_size, env, files) *)
Definition make_run_msg (args stdout stderr chunk_size env files : json) : json :=
  JDict [("type", JStr "run"); ("args", args); ("stdout", stdout);
         ("stderr", stderr); ("chunk_size", chunk_size); ("env", env);
         ("files", files)].

(** client.py, the loop of [run] with what it writes: the bytes written to
    [sys.stdout.buffer] and to [sys.stderr.buffer] so far, then what the
    loop returns or raises. *)
Fixpoint client_loop (b64decode : bytes → result bytes) (received : list json)
    (out err : bytes) : bytes * bytes * result json :=
  match received with
  | [] => (out, err, Ok (JInt 127))
  | params :: rest =>
      match py_getitem params "type" with
      | Raise e => (out, err, Raise e)
      | Ok kind =>
          if negb (py_ne_str (Some kind) "exit")
          then (out, err, py_getitem params "code")
          else if negb (py_ne_str (Some kind) "stdout")
          then
            match data ← py_getitem params "data"; raw ← py_encode data; b64decode raw with
            | Ok written => client_loop b64decode rest (out ++ written) err
            | Raise e => (out, err, Raise e)
            end
          else if negb (py_ne_str (Some kind) "stderr")
          then
            match data ← py_getitem params "data"; raw ← py_encode data; b64decode raw with
            | Ok written => client_loop b64decode rest out (err ++ written)
            | Raise e => (out, err, Raise e)
            end
          else client_loop b64decode rest out err
      end
  end.

(** The pipe the child was given for a descriptor, if any. *)
Definition process_pipe (r : fd) (p : process) : option stream :=
  match r with
  | fd_stdout => p_stdout p
  | fd_stderr => p_stderr p
  end.

(** The bytes of the pieces a session sent under the tag of a pipe, in
    the order sent. *)
Definition piece (tag : string) (m : json) : bytes :=
  match m with
  | JDict [("type", JStr t); ("data", JStr text)] =>
      if String.eqb t tag
      then match b64decode_rfc4648 (encode_utf8 text) with
           | Ok data => data
           | Raise _ => []
           end
      else []
  | _ => []
  end.

Definition forwarded (tag : string) (sent : list json) : bytes :=
  concat (piece tag <$> sent).

(** What every state of a session keeps: an exit message is sent at most
    once, as the last message, when communicate is over, and with the code
    the wait for the child returned. *)
Definition exit_last (s : session) : Prop :=
  match s_phase s with
  | Closed =>
      no_exit_msg (s_sent s)
      ∨ ∃ code pre,
          s_sent s = pre ++ [exit_msg code] ∧ no_exit_msg pre ∧ s_wait s = Some code
  | _ => no_exit_msg (s_sent s)
  end.

Definition is_kill (c : call) : bool :=
  match c with
  | kill => true
  | _ => false
  end.

(** How often [process.kill()] was called. *)
Definition kills (s : session) : nat := length (List.filter is_kill (s_calls s)).



(** The child is never left behind: it is killed at most once, only by
    [wait_process] after a cancellation, and when communicate is over it
    has ended or has been killed. *)
Definition child_accounted (s : session) : Prop :=
  match s_phase s with
  | Joining => kills s = 0
  | Reaping => kills s = 1 ∧ s_wait s = None
  | Closed => kills s ≤ 1 ∧ (s_process s = None ∨ is_Some (s_wait s) ∨ kills s = 1)
  end.

(** Nothing of a pipe is lost, repeated or reordered: what was sent under
    its tag, followed by what is still unread, is what the pipe carries.
    Of a read loop that failed, what was sent is the beginning of it. *)
Definition conserved (r : fd) (pipe : stream) (s : session) : Prop :=
  match reader r s with
  | Some (Running rest) | Some (Finished rest) =>
      forwarded (kind r) (s_sent s) ++ concat rest = concat pipe
  | Some (Failed _) =>
      ∃ rest, forwarded (kind r) (s_sent s) ++ rest = concat pipe
  | None => False
  end.

(** No read loop for the pipe, and nothing sent under its tag. *)
Definition absent (r : fd) (s : session) : Prop :=
  reader r s = None ∧ forwarded (kind r) (s_sent s) = [].

(** A message of the server as the client's loop takes it: a piece of a
    pipe or the exit message. *)
Definition piece_or_exit (m : json) : Prop :=
  is_exit_msg m ∨ ∃ data r, m = stream_msg data (kind r).

(** The commands a client sends after its run message (client.py:
    [make_stdin_msg], [make_signal_msg]) and the call on the child each
    one stands for. *)
Inductive command :=
  | Stdin (data : bytes)
  | Signal (signum : Z).

(** Every message is the exit message or a piece of at least one and at
    most [n] bytes. *)
Definition sized (n : Z) (m : json) : Prop :=
  is_exit_msg m
  ∨ ∃ data r, m = stream_msg data (kind r)
      ∧ 0 < length data ∧ (Z.of_nat (length data) ≤ n)%Z.

(** ** schema.py, and the validator of [enable_validation]

    A JSON schema with the keywords schema.py uses.  A
    [{'$ref': '#/definitions/name'}] is given by the schema of that name
    itself; the keys 'definitions' and 'description' do not take part in a
    validation. *)
Inductive schema :=
  | Schema (type : option string) (enum : option (list string))
      (properties : list (string * schema)) (required : list string)
      (items : option schema) (minimum maximum : option Z)
      (allOf : list schema) (anyOf : option (list schema)).

(** jsonschema's type check, for the type names of JSON Schema other than
    'integer', which schema.py does not use; a [bool] is not a number. *)
Definition is_type (v : json) (t : string) : bool :=
  match v with
  | JDict _ => String.eqb t "object"
  | JList _ => String.eqb t "array"
  | JStr _ => String.eqb t "string"
  | JInt _ | JFloat _ => String.eqb t "number"
  | JBool _ => String.eqb t "boolean"
  | JNull => String.eqb t "null"
  end.

(** [instance in enum], for the enumerations of strings of schema.py *)
Definition in_enum (v : json) (values : list string) : bool :=
  match v with
  | JStr s => existsb (String.eqb s) values
  | _ => false
  end.

(** [instance < bound] and [instance > bound] for the keywords 'minimum'
    and 'maximum', which look at numbers only; the bounds of schema.py are
    0, 1 and 32. *)
Definition float_of_bound (bound : Z) : float :=
  Z.iter bound (λ f, PrimFloat.add f 1) 0%float.

Definition below (v : json) (bound : Z) : bool :=
  match v with
  | JInt n => (n <? bound)%Z
  | JFloat f => PrimFloat.ltb f (float_of_bound bound)
  | _ => false
  end.

Definition above (v : json) (bound : Z) : bool :=
  match v with
  | JInt n => (bound <? n)%Z
  | JFloat f => PrimFloat.ltb (float_of_bound bound) f
  | _ => false
  end.

(** [jsonschema.validate(instance, schema)] does not raise. *)
Fixpoint is_valid (s : schema) (v : json) {struct s} : bool :=
  match s with
  | Schema type enum properties required items minimum maximum allOf anyOf =>
      match type with Some t => is_type v t | None => true end
      && match enum with Some values => in_enum v values | None => true end
      && match v with
         | JDict d =>
             forallb (λ kv, let '(name, sub) := kv in
                            match dict_get d name with
                            | Some x => is_valid sub x
                            | None => true
                            end) properties
             && forallb (λ name, match dict_get d name with
                                 | Some _ => true
                                 | None => false
                                 end) required
         | _ => true
         end
      && match items, v with
         | Some sub, JList l => forallb (is_valid sub) l
         | _, _ => true
         end
      && match minimum with Some bound => negb (below v bound) | None => true end
      && match maximum with Some bound => negb (above v bound) | None => true end
      && forallb (λ sub, is_valid sub v) allOf
      && match anyOf with
         | Some subs => existsb (λ sub, is_valid sub v) subs
         | None => true
         end
  end.

(** The schemas of schema.py are written with these. *)
Definition plain : schema := Schema None None [] [] None None None [] None.

Definition typed (t : string) : schema :=
  Schema (Some t) None [] [] None None None [] None.

Definition one_of (values : list string) : schema :=
  Schema (Some "string") (Some values) [] [] None None None [] None.

Definition object (properties : list (string * schema)) (required : list string)
    : schema :=
  Schema (Some "object") None properties required None None None [] None.

Definition number (minimum maximum : option Z) : schema :=
  Schema (Some "number") None [] [] None minimum maximum [] None.

(** CLIENT_MESSAGES['definitions'] *)
Definition stdout_message : schema :=
  object [("type", one_of ["stdout"]); ("data", typed "string")] ["type"; "data"].

Definition stderr_message : schema :=
  object [("type", one_of ["stderr"]); ("data", typed "string")] ["type"; "data"].

Definition exit_message : schema :=
  object [("type", one_of ["exit"]); ("code", typed "number")] ["type"; "code"].

Definition CLIENT_MESSAGES : schema :=
  Schema None None [] [] None None None
    [Schema None None [("type", one_of ["stdout"; "stderr"; "exit"])] ["type"]
       None None None [] None;
     Schema None None [] [] None None None []
       (Some [stdout_message; stderr_message; exit_message])]
    None.

(** SERVER_COMMANDS['definitions'] *)
Definition run_command : schema :=
  object [("type", one_of ["run"]);
          ("args", Schema (Some "array") None [] [] (Some (typed "string"))
                     None None [] None);
          ("chunk_size", number (Some 0%Z) None);
          ("stdout", one_of ["null"; "pipe"]);
          ("stderr", one_of ["null"; "pipe"; "stdout"]);
          ("files", typed "object");
          ("env", typed "object")]
    ["type"].

Definition signal_command : schema :=
  object [("type", one_of ["signal"]);
          ("signum", number (Some 1%Z) (Some 32%Z))]
    ["type"; "signum"].

Definition stdin_command : schema :=
  object [("type", one_of ["stdin"]); ("data", typed "string")] ["type"; "data"].

Definition SERVER_COMMANDS : schema :=
  Schema None None [] [] None None None
    [Schema None None [("type", one_of ["run"; "signal"; "stdin"])] ["type"]
       None None None [] None;
     Schema None None [] [] None None None []
       (Some [run_command; signal_command; stdin_command])]
    None.

(** The [validate_msg] that [enable_validation] installs:
    [jsonschema.validate(msg, schema.SERVER_COMMANDS)]. *)
Definition enabled_validation (msg : json) : bool := is_valid SERVER_COMMANDS msg.

(** ** Worlds and messages of the examples *)

Definition example_fs : filesystem :=
  <[ ["tmp"] := Dir ]> (<[ ["etc"] := Dir ]> ∅).

Definition example_run : json :=
  JDict [("type", JStr "run");
         ("args", JList [JStr "/usr/bin/env"; JStr "python3"; JStr "main.py"]);
         ("stdout", JStr "pipe"); ("stderr", JStr "pipe");
         ("chunk_size", JInt 2);
         ("env", JDict [("PYTHONUNBUFFERED", JStr "1")]);
         ("files", JDict [("main.py", JStr "print(1)")])].

Definition minimal_run : json :=
  JDict [("type", JStr "run"); ("args", JList [JStr "/bin/true"])].

Definition merged_run : json :=
  JDict [("type", JStr "run"); ("args", JList [JStr "/bin/sh"]);
         ("stderr", JStr "stdout")].

(** client.py: make_stdin_msg, make_signal_msg *)
Definition make_stdin_msg (data : bytes) : json :=
  JDict [("type", JStr "stdin"); ("data", JStr (b64encode data))].

Definition make_signal_msg (signum : Z) : json :=
  JDict [("type", JStr "signal"); ("signum", JInt signum)].

Definition command_msg (c : command) : json :=
  match c with
  | Stdin data => make_stdin_msg data
  | Signal signum => make_signal_msg signum
  end.


Definition frames (cmds : list command) : list ws_message :=
  (λ c, WsText (Some (command_msg c))) <$> cmds.

Definition example_world (inbox : list ws_message) (exec : option exn) : world :=
  {| w_fs := example_fs;
     w_tmp := ["tmp"];
     w_draws := [[1; 2; 3; 4; 5; 6; 7; 8]];
     w_environ := [("PATH", "/usr/bin:/bin"); ("PYTHONUNBUFFERED", "0")];
     w_inbox := inbox;
     w_exec := exec;
     w_writes := [(fd_stdout, encode_utf8 "abc"); (fd_stderr, encode_utf8 "E")] |}.

Definition example_draws : list (list nat) := [[1; 2; 3; 4; 5; 6; 7; 8]].

(** The session of the reference client, the child started. *)
Definition running_world : world :=
  example_world [WsText (Some example_run)] None.

(** The executable is missing. *)
Definition missing_world : world :=
  example_world [WsText (Some example_run)] (Some FileNotFoundError).

Definition merged_world : world :=
  example_world [WsText (Some merged_run)] None.

(** The client writes to stdin before it sends its run message. *)
Definition stdin_first_world : world :=
  example_world [WsText (Some (make_stdin_msg (encode_utf8 "hi")));
                 WsText (Some example_run)] None.

(** The client writes to the child's stdin, interrupts it and closes its
    stdin. *)
Definition example_commands : list command :=
  [Stdin (encode_utf8 "hi"); Signal 2; Stdin []].

Definition command_world : world :=
  example_world (WsText (Some example_run) :: frames example_commands) None.

(** The standard output of the child is not wanted. *)
Definition null_world : world :=
  example_world
    [WsText (Some (JDict [("type", JStr "run"); ("args", JList [JStr "/bin/ls"]);
                          ("stdout", JStr "null")]))] None.


Definition negative_chunk_world : world :=
  example_world
    [WsText (Some (JDict [("type", JStr "run"); ("args", JList [JStr "/bin/ls"]);
                          ("chunk_size", JInt (-1))]))] None.

Definition zero_chunk_world : world :=
  example_world
    [WsText (Some (JDict [("type", JStr "run"); ("args", JList [JStr "/bin/ls"]);
                          ("chunk_size", JInt 0)]))] None.

(** A session in which a second run message and a stdin message wait to
    be received. *)
Definition example_session : session :=
  communicate no_validation b64decode_rfc4648
    (example_world [WsText (Some example_run); WsText (Some minimal_run);
                    WsText (Some (make_stdin_msg (encode_utf8 "hi")))] None) [].

Definition example_session_2 : session :=
  step no_validation b64decode_rfc4648 Receive example_session.

Definition example_staged : filesystem :=
  <[ ["tmp"; "aiy-bcdefghi"] := Dir ]> example_fs.

(** * Properties *)

(** ** Parsing *)

Section ParsingFacts.
Context (valid : json → bool) (b64decode : bytes → result bytes).

Lemma py_get_default_dict d key default :
  py_get_default (JDict d) key default = Ok (from_option id default (dict_get d key)).
Proof. reflexivity. Qed.

Lemma got_or_default_intro d key default :
  got_or_default d key default (from_option id default (dict_get d key)).
Proof. unfold got_or_default. by destruct (dict_get d key). Qed.

Lemma parse_run_msg_run d args :
  valid (JDict d) = true →
  dict_get d "type" = Some (JStr "run") →
  dict_get d "args" = Some args →
  parse_run_msg valid (JDict d) =
    Ok (Some (args,
              from_option id (JInt 1024) (dict_get d "chunk_size"),
              from_option id (JStr "pipe") (dict_get d "stdout"),
              from_option id (JStr "pipe") (dict_get d "stderr"),
              from_option id (JDict []) (dict_get d "env"),
              from_option id (JDict []) (dict_get d "files"))).
Proof.
  intros Hv Ht Ha. unfold parse_run_msg, validate_msg. rewrite Hv. simpl.
  rewrite Ht. simpl. by rewrite Ha.
Qed.

(** A message of another type is no [run] message. *)
Lemma parse_run_msg_other d t :
  valid (JDict d) = true →
  dict_get d "type" = Some (JStr t) → t ≠ "run" →
  parse_run_msg valid (JDict d) = Ok None.
Proof.
  intros Hv Ht Hne. unfold parse_run_msg, validate_msg. rewrite Hv. simpl.
  rewrite Ht. simpl. by apply String.eqb_neq in Hne as ->.
Qed.

Lemma parse_signal_msg_other d t :
  dict_get d "type" = Some (JStr t) → t ≠ "signal" →
  parse_signal_msg valid (JDict d) =
    if valid (JDict d) then Ok None else Raise ValidationError.
Proof.
  intros Ht Hne. unfold parse_signal_msg, validate_msg.
  destruct (valid _); [|done]. simpl.
  rewrite Ht. simpl. by apply String.eqb_neq in Hne as ->.
Qed.

Lemma parse_stdin_msg_other d t :
  dict_get d "type" = Some (JStr t) → t ≠ "stdin" →
  parse_stdin_msg valid b64decode (JDict d) =
    if valid (JDict d) then Ok None else Raise ValidationError.
Proof.
  intros Ht Hne. unfold parse_stdin_msg, validate_msg.
  destruct (valid _); [|done]. simpl.
  rewrite Ht. simpl. by apply String.eqb_neq in Hne as ->.
Qed.

Lemma parse_stdin_msg_stdin d text payload :
  valid (JDict d) = true →
  dict_get d "type" = Some (JStr "stdin") →
  dict_get d "data" = Some (JStr text) →
  b64decode (encode_utf8 text) = Ok payload →
  parse_stdin_msg valid b64decode (JDict d) = Ok (Some payload).
Proof.
  intros Hv Ht Hd Hp. unfold parse_stdin_msg, validate_msg. rewrite Hv. simpl.
  rewrite Ht. simpl. rewrite Hd. simpl. by rewrite Hp.
Qed.

(** C9: for a run message, [parse_run_msg] returns its [args] and, for
    each of [chunk_size], [stdout], [stderr], [env] and [files], the value
    of the field when the message has it and else the default: 1024,
    "pipe", "pipe", the empty dict, the empty dict. *)
Theorem parse_run_msg_defaults d args :
  valid (JDict d) = true →
  dict_get d "type" = Some (JStr "run") →
  dict_get d "args" = Some args →
  ∃ chunk_size stdout stderr env files,
    parse_run_msg valid (JDict d)
      = Ok (Some (args, chunk_size, stdout, stderr, env, files))
    ∧ got_or_default d "chunk_size" (JInt 1024) chunk_size
    ∧ got_or_default d "stdout" (JStr "pipe") stdout
    ∧ got_or_default d "stderr" (JStr "pipe") stderr
    ∧ got_or_default d "env" (JDict []) env
    ∧ got_or_default d "files" (JDict []) files.
Proof.
  intros Hv Ht Ha. do 5 eexists.
  split; [by apply parse_run_msg_run|].
  repeat split; apply got_or_default_intro.
Qed.
End ParsingFacts.

Example parse_run_msg_minimal :
  parse_run_msg no_validation minimal_run
  = Ok (Some (JList [JStr "/bin/true"], JInt 1024, JStr "pipe", JStr "pipe",
              JDict [], JDict [])).
Proof. reflexivity. Qed.

Example parse_run_msg_given :
  parse_run_msg no_validation example_run
  = Ok (Some (JList [JStr "/usr/bin/env"; JStr "python3"; JStr "main.py"],
              JInt 2, JStr "pipe", JStr "pipe",
              JDict [("PYTHONUNBUFFERED", JStr "1")],
              JDict [("main.py", JStr "print(1)")])).
Proof. reflexivity. Qed.

(** ** The environment of the child *)

Lemma add_keys_elem k acc ks : k ∈ add_keys acc ks ↔ k ∈ acc ∨ k ∈ ks.
Proof.
  revert acc. induction ks as [|k' ks IH]; intros acc; simpl.
  - set_solver.
  - rewrite IH. case_decide; set_solver.
Qed.

Lemma dict_get_keys (m : dict) key v : dict_get m key = Some v → key ∈ m.*1.
Proof.
  induction m as [|[k x] m IH]; simpl; [done|].
  destruct (String.eqb_spec k key) as [->|]; set_solver.
Qed.

Lemma chain_get_iter ms key v :
  chain_get ms key = Some v → key ∈ ChainMap_iter {| maps := ms |}.
Proof.
  unfold ChainMap_iter. simpl.
  induction ms as [|m ms IH]; simpl; [done|].
  rewrite add_keys_elem.
  destruct (dict_get m key) eqn:Hm; eauto using dict_get_keys.
Qed.

Lemma dict_get_tabulate (f : string → option json) ks key :
  dict_get (omap (λ k, pair k <$> f k) ks) key
  = if decide (key ∈ ks) then f key else None.
Proof.
  induction ks as [|k ks IH]; [done|].
  change (omap _ (k :: ks))
    with (match pair k <$> f k with
          | Some y => y :: omap (λ k, pair k <$> f k) ks
          | None => omap (λ k, pair k <$> f k) ks
          end).
  destruct (decide (k = key)) as [->|Hne].
  - rewrite (decide_True (P := key ∈ key :: ks)) by set_solver.
    destruct (f key) as [v|] eqn:Hf; simpl.
    + by rewrite String.eqb_refl.
    + rewrite IH. by case_decide.
  - destruct (f k) as [v|]; simpl.
    + apply String.eqb_neq in Hne as Hb. rewrite Hb, IH.
      repeat case_decide; set_solver.
    + rewrite IH. repeat case_decide; set_solver.
Qed.

(** Iterating over the chain gives, for every name, what a lookup gives. *)
Lemma ChainMap_items_getitem c name :
  dict_get (ChainMap_items c) name = ChainMap_getitem c name.
Proof.
  unfold ChainMap_items. rewrite dict_get_tabulate.
  case_decide as Hin; [done|].
  destruct c as [ms]. unfold ChainMap_getitem; simpl.
  destruct (chain_get ms name) eqn:Hget; [|done].
  by apply chain_get_iter in Hget.
Qed.

Lemma environ_dict_get environ name :
  dict_get (environ_dict environ) name = JStr <$> environ_get environ name.
Proof.
  induction environ as [|[k v] environ IH]; simpl; [done|].
  by destruct (String.eqb k name).
Qed.

Lemma start_process_env w args stdout stderr env cwd p :
  start_process w args stdout stderr env cwd = Ok p →
  ∃ overlay, env = JDict overlay
    ∧ p_env p = {| maps := [overlay; environ_dict (w_environ w)] |}.
Proof.
  unfold start_process. intros H.
  destruct (CONVERT stdout); [|done].
  destruct (CONVERT stderr); [|done]. simpl in H.
  destruct env; try done. simpl in H.
  destruct (w_exec w); [done|]. injection H as <-. eauto.
Qed.

(** ** Sessions *)

Section SessionFacts.
Context (valid : json → bool) (b64decode : bytes → result bytes).

Local Abbreviation step := (step valid b64decode).
Local Abbreviation run := (run valid b64decode).
Local Abbreviation communicate := (communicate valid b64decode).
Local Abbreviation spawn := (spawn valid b64decode).
Local Abbreviation ReceiveOp := (ReceiveOp valid b64decode).
Local Abbreviation ReceiveOp_body := (ReceiveOp_body valid b64decode).

Lemma run_nil s : run [] s = s.
Proof. reflexivity. Qed.

Lemma run_cons ev evs s : run (ev :: evs) s = run evs (step ev s).
Proof. reflexivity. Qed.

Lemma run_app evs1 evs2 s : run (evs1 ++ evs2) s = run evs2 (run evs1 s).
Proof. apply foldl_app. Qed.


(** A session with a child: the first frame was a run message, the files
    were written and the process was started. *)
Lemma parse_run_msg_dict msg tuple :
  parse_run_msg valid msg = Ok (Some tuple) →
  ∃ d args, msg = JDict d
    ∧ valid msg = true
    ∧ dict_get d "type" = Some (JStr "run")
    ∧ dict_get d "args" = Some args
    ∧ tuple = (args,
               from_option id (JInt 1024) (dict_get d "chunk_size"),
               from_option id (JStr "pipe") (dict_get d "stdout"),
               from_option id (JStr "pipe") (dict_get d "stderr"),
               from_option id (JDict []) (dict_get d "env"),
               from_option id (JDict []) (dict_get d "files")).
Proof.
  unfold parse_run_msg, validate_msg. intros H.
  destruct (valid msg) eqn:Hv; [|done]. simpl in H.
  destruct msg as [| | | | | |d]; try done. simpl in H.
  destruct (dict_get d "type") as [[| | | |t| |]|] eqn:Ht; try done.
  simpl in H. destruct (String.eqb_spec t "run") as [->|]; [|done].
  simpl in H. destruct (dict_get d "args") as [args|] eqn:Ha; [|done].
  simpl in H. injection H as <-. eauto 10.
Qed.

Lemma ReadOp_process r s : s_process (ReadOp r s) = s_process s.
Proof.
  unfold ReadOp. destruct (reader r s) as [[pipe| |]|]; try done.
  destruct (stream_read _ _) as [[[|] ?]|]; done.
Qed.

Lemma ReceiveOp_process s : s_process (ReceiveOp s) = s_process s.
Proof.
  unfold ReceiveOp, ReceiveOp_body.
  destruct (s_receiving s); [|done].
  destruct (s_inbox s) as [|[[parsed|]| |] inbox]; try done. simpl.
  destruct (parse_signal_msg _ _) as [[signum|]|]; try done;
    destruct (parse_stdin_msg _ _ _) as [[[|]|]|]; done.
Qed.

Lemma conclude_process s : s_process (conclude s) = s_process s.
Proof. unfold conclude, wait_process. simpl. by destruct (s_wait s). Qed.

Lemma join_process s : s_process (join s) = s_process s.
Proof. unfold join. destruct (operations_done s); [apply conclude_process|done]. Qed.

Lemma step_process ev s : s_process (step ev s) = s_process s.
Proof.
  unfold step. destruct (s_phase s), ev; try done;
    rewrite ?join_process, ?ReadOp_process, ?ReceiveOp_process, ?conclude_process;
    try done.
  by destruct (s_wait s).
Qed.

Lemma run_process evs s : s_process (run evs s) = s_process s.
Proof.
  revert s. induction evs as [|ev evs IH]; intros s; [done|].
  by rewrite run_cons, IH, step_process.
Qed.

Lemma communicate_started w evs p :
  s_process (communicate w evs) = Some p →
  ∃ d rest args fs cwd,
    w_inbox w = WsText (Some (JDict d)) :: rest
    ∧ parse_run_msg valid (JDict d)
        = Ok (Some (args,
               from_option id (JInt 1024) (dict_get d "chunk_size"),
               from_option id (JStr "pipe") (dict_get d "stdout"),
               from_option id (JStr "pipe") (dict_get d "stderr"),
               from_option id (JDict []) (dict_get d "env"),
               from_option id (JDict []) (dict_get d "files")))
    ∧ TempDirectory (w_fs w) (w_tmp w) (w_draws w)
        (from_option id (JDict []) (dict_get d "files")) = (fs, Ok cwd)
    ∧ start_process w args
        (from_option id (JStr "pipe") (dict_get d "stdout"))
        (from_option id (JStr "pipe") (dict_get d "stderr"))
        (from_option id (JDict []) (dict_get d "env")) cwd = Ok p
    ∧ communicate w evs
      = run evs (started fs rest cwd
                   (from_option id (JInt 1024) (dict_get d "chunk_size")) p).
Proof.
  unfold communicate, receive_json.
  destruct (w_inbox w) as [|[[msg|]| |] rest]; try done. simpl.
  destruct (parse_run_msg valid msg) as [[tuple|]|] eqn:Hparse; try done.
  apply parse_run_msg_dict in Hparse as Hd.
  destruct Hd as (d & args & -> & _ & _ & _ & ->).
  destruct (TempDirectory _ _ _ _) as [fs [cwd|]] eqn:Htmp; [|done].
  destruct (start_process _ _ _ _ _ _) as [p'|] eqn:Hstart; [|done].
  rewrite run_process. simpl. intros [= ->]. eauto 10.
Qed.

(** C6: the environment the child is started with gives, for every name of
    the [env] field of the run message, the value of that field, and for
    every other name the value of the server's own [os.environ]; this holds
    for the lookup in the chain and for the items the chain is iterated
    into. *)
Theorem child_environment w evs d rest p :
  w_inbox w = WsText (Some (JDict d)) :: rest →
  s_process (communicate w evs) = Some p →
  ∃ overlay,
    got_or_default d "env" (JDict []) (JDict overlay)
    ∧ ∀ name,
        ChainMap_getitem (p_env p) name
        = match dict_get overlay name with
          | Some v => Some v
          | None => JStr <$> environ_get (w_environ w) name
          end
        ∧ dict_get (ChainMap_items (p_env p)) name
          = ChainMap_getitem (p_env p) name.
Proof.
  intros Hin Hp.
  apply communicate_started in Hp as (d' & rest' & args & fs & cwd & Hin' & _ & _ & Hstart & _).
  rewrite Hin in Hin'. injection Hin' as <- <-.
  apply start_process_env in Hstart as (overlay & Henv & Hchain).
  exists overlay. split.
  - rewrite <- Henv. apply got_or_default_intro.
  - intros name. split; [|apply ChainMap_items_getitem].
    rewrite Hchain. unfold ChainMap_getitem. simpl.
    rewrite environ_dict_get.
    destruct (dict_get overlay name); [done|].
    by destruct (environ_get (w_environ w) name).
Qed.
(** *** The receive loop *)

Lemma ReceiveOp_body_run d s :
  dict_get d "type" = Some (JStr "run") →
  ReceiveOp_body (WsText (Some (JDict d))) s = s
  ∨ ReceiveOp_body (WsText (Some (JDict d))) s = log_warning ValidationError s.
Proof.
  intros Ht. unfold ReceiveOp_body. simpl.
  rewrite (parse_signal_msg_other _ _ "run"), (parse_stdin_msg_other _ _ _ "run")
    by done.
  destruct (valid (JDict d)); auto.
Qed.

(** C5: when the frame the receive loop is given is a message of type
    "run", the step of the session changes neither the child (no second
    process is started), nor the calls made on it (no signal, no write to
    its stdin, no close of its stdin), nor what was sent, nor the state of
    the wait and of the read loops. *)
Theorem later_run_ignored s d rest :
  s_inbox s = WsText (Some (JDict d)) :: rest →
  dict_get d "type" = Some (JStr "run") →
  s_process (step Receive s) = s_process s
  ∧ s_calls (step Receive s) = s_calls s
  ∧ s_sent (step Receive s) = s_sent s
  ∧ s_phase (step Receive s) = s_phase s
  ∧ s_wait (step Receive s) = s_wait s
  ∧ s_out (step Receive s) = s_out s
  ∧ s_err (step Receive s) = s_err s.
Proof.
  intros Hin Ht. unfold step, ReceiveOp.
  destruct (s_phase s) eqn:Hph; [|done|done].
  destruct (s_receiving s); [|by rewrite Hph].
  rewrite Hin.
  destruct (ReceiveOp_body_run d (set_receive true rest s) Ht) as [-> | ->];
    simpl; by rewrite Hph.
Qed.

(** C7: a stdin message given to the receive loop is parsed by decoding
    its [data] from base64; when the payload is not empty the one call made
    on the child is the write of the payload to its stdin, and when it is
    empty the one call is the close of its stdin. *)
Theorem stdin_msg_applied s d rest text payload :
  s_phase s = Joining →
  s_receiving s = true →
  s_inbox s = WsText (Some (JDict d)) :: rest →
  valid (JDict d) = true →
  dict_get d "type" = Some (JStr "stdin") →
  dict_get d "data" = Some (JStr text) →
  b64decode (encode_utf8 text) = Ok payload →
  parse_stdin_msg valid b64decode (JDict d) = Ok (Some payload)
  ∧ s_calls (step Receive s)
    = s_calls s ++ [match payload with
                    | [] => stdin_close
                    | _ => stdin_write payload
                    end].
Proof.
  intros Hph Hrc Hin Hv Ht Hd Hp.
  pose proof (parse_stdin_msg_stdin valid b64decode d text payload Hv Ht Hd Hp) as Hparse.
  split; [done|].
  unfold step, ReceiveOp. rewrite Hph, Hrc, Hin.
  unfold ReceiveOp_body. simpl.
  rewrite (parse_signal_msg_other _ _ "stdin"), Hv, Hparse by done.
  by destruct payload.
Qed.

(** *** What is sent *)

Lemma stream_msg_not_exit data tag : ¬ is_exit_msg (stream_msg data tag).
Proof. by intros [code H]. Qed.

Lemma ReadOp_sent r s :
  s_sent (ReadOp r s) = s_sent s
  ∨ running (reader r s) = true
    ∧ ∃ data, s_sent (ReadOp r s) = s_sent s ++ [stream_msg data (kind r)].
Proof.
  unfold ReadOp. destruct (reader r s) as [[pipe| |]|]; auto.
  destruct (stream_read _ _) as [[[|] ?]|]; simpl; eauto.
Qed.

Lemma ReceiveOp_sent s : s_sent (ReceiveOp s) = s_sent s.
Proof.
  unfold ReceiveOp, ReceiveOp_body.
  destruct (s_receiving s); [|done].
  destruct (s_inbox s) as [|[[parsed|]| |] inbox]; try done. simpl.
  destruct (parse_signal_msg _ _) as [[signum|]|]; try done;
    destruct (parse_stdin_msg _ _ _) as [[[|]|]|]; done.
Qed.

Lemma conclude_sent s :
  s_sent (conclude s)
  = s_sent s ++ match s_wait s with Some code => [exit_msg code] | None => [] end.
Proof.
  unfold conclude, wait_process. simpl.
  destruct (s_wait s); simpl; by rewrite ?app_nil_r.
Qed.

(** A step sends nothing, or a piece read by a running loop under the tag
    of its pipe, or the exit message. *)
Lemma step_sent ev s :
  ∃ new, s_sent (step ev s) = s_sent s ++ new
    ∧ Forall (λ m, is_exit_msg m
                   ∨ ∃ r, running (reader r s) = true ∧ is_stream_msg (kind r) m) new.
Proof.
  assert (Hnil : ∃ new, s_sent s = s_sent s ++ new
    ∧ Forall (λ m, is_exit_msg m
                   ∨ ∃ r, running (reader r s) = true ∧ is_stream_msg (kind r) m) new).
  { exists []. by rewrite app_nil_r. }
  assert (Hread : ∀ r, ∃ new, s_sent (ReadOp r s) = s_sent s ++ new
    ∧ Forall (λ m, is_exit_msg m
                   ∨ ∃ r, running (reader r s) = true ∧ is_stream_msg (kind r) m) new).
  { intros r. destruct (ReadOp_sent r s) as [->|[Hr [data ->]]]; [done|].
    eexists; split; [done|]. constructor; [|done].
    right. exists r. split; [done|]. by exists data. }
  assert (Hjoin : ∀ s', (∃ new, s_sent s' = s_sent s ++ new
    ∧ Forall (λ m, is_exit_msg m
                   ∨ ∃ r, running (reader r s) = true ∧ is_stream_msg (kind r) m) new) →
    ∃ new, s_sent (join s') = s_sent s ++ new
    ∧ Forall (λ m, is_exit_msg m
                   ∨ ∃ r, running (reader r s) = true ∧ is_stream_msg (kind r) m) new).
  { intros s' (new & Hs' & Hnew). unfold join.
    destruct (operations_done s'); [|eauto].
    rewrite conclude_sent, Hs', <- app_assoc. eexists; split; [done|].
    apply Forall_app; split; [done|].
    destruct (s_wait s'); constructor; [|done]. left. by eexists. }
  unfold step. destruct (s_phase s), ev; try done.
  - apply Hjoin. by destruct (s_wait s).
  - by apply Hjoin.
  - by rewrite ReceiveOp_sent.
  - rewrite conclude_sent. eexists; split; [done|].
    destruct (s_wait s); constructor; [|done]. left. by eexists.
  - simpl. eexists; split; [done|]. constructor; [|done]. left. by eexists.
Qed.

Lemma ReadOp_reader_none r r' s : reader r s = None → reader r (ReadOp r' s) = None.
Proof.
  unfold ReadOp. intros Hnone.
  destruct (reader r' s) as [[pipe| |]|] eqn:Hr'; try done.
  destruct r, r'; simpl in *; try congruence;
    destruct (stream_read _ _) as [[[|] ?]|]; done.
Qed.

Lemma ReceiveOp_reader r s : reader r (ReceiveOp s) = reader r s.
Proof.
  unfold ReceiveOp, ReceiveOp_body.
  destruct (s_receiving s); [|done].
  destruct (s_inbox s) as [|[[parsed|]| |] inbox]; try by destruct r. simpl.
  destruct (parse_signal_msg _ _) as [[signum|]|]; try (by destruct r);
    destruct (parse_stdin_msg _ _ _) as [[[|]|]|]; by destruct r.
Qed.

Lemma conclude_reader r s : reader r (conclude s) = reader r s.
Proof. unfold conclude, wait_process. simpl. destruct (s_wait s); by destruct r. Qed.

Lemma join_reader r s : reader r (join s) = reader r s.
Proof. unfold join. destruct (operations_done s); [apply conclude_reader|done]. Qed.

(** A read loop that was not started never is. *)
Lemma step_reader_none r ev s : reader r s = None → reader r (step ev s) = None.
Proof.
  intros Hnone. unfold step. destruct (s_phase s), ev; try done;
    rewrite ?join_reader, ?conclude_reader, ?ReceiveOp_reader;
    try (by apply ReadOp_reader_none); try (by destruct r).
  destruct (s_wait s); by destruct r.
Qed.

Lemma run_reader_none r evs s : reader r s = None → reader r (run evs s) = None.
Proof.
  revert s. induction evs as [|ev evs IH]; intros s Hnone; [done|].
  rewrite run_cons. by apply IH, step_reader_none.
Qed.

Lemma run_sent_merged evs s :
  s_err s = None →
  Forall (λ m, is_stream_msg "stdout" m ∨ is_exit_msg m) (s_sent s) →
  Forall (λ m, is_stream_msg "stdout" m ∨ is_exit_msg m) (s_sent (run evs s)).
Proof.
  revert s. induction evs as [|ev evs IH]; intros s Herr Hsent; [done|].
  rewrite run_cons. apply IH; [by apply (step_reader_none fd_stderr)|].
  destruct (step_sent ev s) as (new & -> & Hnew).
  apply Forall_app; split; [done|].
  eapply Forall_impl; [exact Hnew|]. simpl.
  intros m [Hexit|[[] [Hrun Hm]]]; auto.
  simpl in Hrun. by rewrite Herr in Hrun.
Qed.

(** *** Sessions without a child *)

Lemma communicate_cases w evs :
  (∃ fs inbox e, communicate w evs = over fs inbox e)
  ∨ (∃ p, s_process (communicate w evs) = Some p).
Proof.
  unfold communicate. destruct (receive_json (w_inbox w)) as [first inbox].
  destruct (first ≫= parse_run_msg valid) as [[[[[[[args chunk] out] err] env] files]|]|];
    eauto.
  destruct (TempDirectory _ _ _ _) as [fs [cwd|]]; eauto.
  destruct (start_process _ _ _ _ _ _) as [p|]; eauto.
  right. exists p. by rewrite run_process.
Qed.

Lemma stdout_pipe_merged writes : stdout_pipe STDOUT writes = writes.*2.
Proof.
  induction writes as [|[[] data] writes IH]; [done| |];
    change (stdout_pipe STDOUT (_ :: writes)) with (data :: stdout_pipe STDOUT writes);
    by rewrite IH.
Qed.

Lemma start_process_merged w args out env cwd p :
  start_process w args out (JStr "stdout") env cwd = Ok p →
  p_stderr p = None ∧ ∀ pipe, p_stdout p = Some pipe → pipe = (w_writes w).*2.
Proof.
  unfold start_process.
  destruct (CONVERT out) as [o|]; [|done].
  change (CONVERT (JStr "stdout")) with (Ok STDOUT).
  destruct env; try done. simpl.
  destruct (w_exec w); [done|]. intros [= <-]. split; [done|].
  simpl. intros pipe. destruct o; try done.
  intros [= <-]. apply stdout_pipe_merged.
Qed.

(** C8: when the run message asks for stderr "stdout", the read loop of
    stderr is never started (the child has no stderr pipe, so at most the
    loop of stdout runs), every message sent is a piece tagged "stdout" or
    the exit message, none has the type "stderr", and the pipe read under
    the tag "stdout" carries all the child writes, to either descriptor, in
    order. *)
Theorem stderr_merged_into_stdout w evs d rest :
  w_inbox w = WsText (Some (JDict d)) :: rest →
  dict_get d "stderr" = Some (JStr "stdout") →
  s_err (communicate w evs) = None
  ∧ Forall (λ m, is_stream_msg "stdout" m ∨ is_exit_msg m) (s_sent (communicate w evs))
  ∧ (∀ m, m ∈ s_sent (communicate w evs) → py_get m "type" ≠ Ok (Some (JStr "stderr")))
  ∧ (∀ p, s_process (communicate w evs) = Some p →
       p_stderr p = None
       ∧ ∀ pipe, p_stdout p = Some pipe → pipe = (w_writes w).*2).
Proof.
  intros Hin Herr.
  assert (Hmain : s_err (communicate w evs) = None
    ∧ Forall (λ m, is_stream_msg "stdout" m ∨ is_exit_msg m) (s_sent (communicate w evs))
    ∧ (∀ p, s_process (communicate w evs) = Some p →
         p_stderr p = None
         ∧ ∀ pipe, p_stdout p = Some pipe → pipe = (w_writes w).*2)).
  { destruct (communicate_cases w evs) as [(fs & inbox & e & ->)|[p Hp]].
    { repeat split; simpl; done. }
    pose proof Hp as Hp'.
    apply communicate_started in Hp' as (d' & rest' & args & fs & cwd & Hin' & _ & _ & Hstart & Hrun).
    rewrite Hin in Hin'. injection Hin' as <- <-.
    rewrite Herr in Hstart. simpl in Hstart.
    apply start_process_merged in Hstart as [Hperr Hpout].
    rewrite Hrun. split; [|split].
    - apply (run_reader_none fd_stderr). simpl. by rewrite Hperr.
    - apply run_sent_merged; simpl; [by rewrite Hperr|done].
    - rewrite <- Hrun, Hp. intros ? [= <-]. split; [done|].
      done. }
  destruct Hmain as (H1 & H2 & H3). repeat split; try done; try by apply H3.
  intros m Hm. rewrite Forall_forall in H2.
  destruct (H2 m Hm) as [[data ->]|[code ->]]; done.
Qed.

(** C1 (as the server has it): when starting the child raises, [spawn]
    logs the exception and the session is over with the temporary directory
    removed and no message sent, neither an exit message nor any other; the
    client's loop, given no message, returns 127 on its own. *)
Theorem spawn_failure_sends_nothing w evs msg rest args chunk_size out err env files fs cwd e :
  w_inbox w = WsText (Some msg) :: rest →
  parse_run_msg valid msg = Ok (Some (args, chunk_size, out, err, env, files)) →
  TempDirectory (w_fs w) (w_tmp w) (w_draws w) files = (fs, Ok cwd) →
  start_process w args out err env cwd = Raise e →
  spawn w evs = log_warning e (over (TempDirectory_exit fs cwd) rest (Some e))
  ∧ s_sent (spawn w evs) = []
  ∧ s_log (spawn w evs) = [e]
  ∧ client_run b64decode (s_sent (spawn w evs)) = Ok (JInt 127).
Proof.
  intros Hin Hparse Htmp Hstart.
  assert (Hs : spawn w evs = log_warning e (over (TempDirectory_exit fs cwd) rest (Some e))).
  { unfold spawn, communicate. rewrite Hin. simpl.
    rewrite Hparse, Htmp, Hstart. done. }
  rewrite Hs. done.
Qed.

(** C4 (as the server has it): when the first frame is a stdin or signal
    message, it is dropped without a trace and the session is over at once:
    no child, nothing sent, nothing logged, the file system untouched and
    the frames that follow never received. *)
Theorem first_message_not_run_ends_session w evs d rest t :
  w_inbox w = WsText (Some (JDict d)) :: rest →
  valid (JDict d) = true →
  dict_get d "type" = Some (JStr t) →
  t = "stdin" ∨ t = "signal" →
  spawn w evs = over (w_fs w) rest None.
Proof.
  intros Hin Hv Ht Hcase.
  unfold spawn, communicate. rewrite Hin. simpl.
  rewrite (parse_run_msg_other valid d t) by (destruct Hcase as [-> | ->]; done).
  done.
Qed.
End SessionFacts.

(** ** The order of the messages of a session that is not cancelled *)

Lemma read_some_nil n pipe rest :
  n ≠ 0 → read_some n pipe = ([], rest) → rest = [].
Proof.
  intros Hn. induction pipe as [|[|b piece] pipe IH]; simpl.
  - by intros [= <-].
  - done.
  - destruct n; done.
Qed.

Lemma read_some_shrinks n pipe b data rest :
  n ≠ 0 → read_some n pipe = (b :: data, rest) →
  length (concat rest) < length (concat pipe).
Proof.
  intros Hn. induction pipe as [|[|c piece] pipe IH]; simpl; [done|done|].
  destruct n as [|n]; [done|]. simpl. intros [= _ _ <-].
  destruct (drop n piece) as [|x more] eqn:Hdrop; simpl; rewrite !length_app.
  - lia.
  - assert (length (x :: more) ≤ length piece)
      by (rewrite <- Hdrop, length_drop; lia).
    simpl in *. lia.
Qed.

Lemma stream_read_positive n pipe :
  (0 < n)%Z → stream_read (JInt n) pipe = Ok (read_some (Z.to_nat n) pipe).
Proof.
  intros Hn. unfold stream_read. simpl.
  destruct (Z.eqb_spec n 0); [lia|]. destruct (Z.ltb_spec n 0); [lia|done].
Qed.

Section SessionOrder.
Context (valid : json → bool) (b64decode : bytes → result bytes).

Local Abbreviation step := (step valid b64decode).
Local Abbreviation run := (run valid b64decode).
Local Abbreviation communicate := (communicate valid b64decode).
Local Abbreviation ReceiveOp := (ReceiveOp valid b64decode).

Lemma ReceiveOp_frame s :
  s_phase (ReceiveOp s) = s_phase s
  ∧ s_wait (ReceiveOp s) = s_wait s
  ∧ s_out (ReceiveOp s) = s_out s
  ∧ s_err (ReceiveOp s) = s_err s
  ∧ s_sent (ReceiveOp s) = s_sent s
  ∧ s_chunk_size (ReceiveOp s) = s_chunk_size s.
Proof.
  unfold ReceiveOp, ReceiveOp_body.
  destruct (s_receiving s); [|done].
  destruct (s_inbox s) as [|[[parsed|]| |] inbox]; try done. simpl.
  destruct (parse_signal_msg _ _) as [[signum|]|]; try done;
    destruct (parse_stdin_msg _ _ _) as [[[|]|]|]; done.
Qed.

Lemma ReadOp_frame r s :
  s_phase (ReadOp r s) = s_phase s
  ∧ s_wait (ReadOp r s) = s_wait s
  ∧ s_chunk_size (ReadOp r s) = s_chunk_size s.
Proof.
  unfold ReadOp. destruct (reader r s) as [[pipe| |]|]; try done.
  destruct (stream_read _ _) as [[[|] ?]|]; done.
Qed.

Lemma conclude_frame s :
  s_wait (conclude s) = s_wait s ∧ s_chunk_size (conclude s) = s_chunk_size s.
Proof.
  unfold conclude, wait_process. simpl.
  destruct (s_wait s) eqn:Hw; simpl; by rewrite ?Hw.
Qed.

Lemma join_frame s :
  s_wait (join s) = s_wait s ∧ s_chunk_size (join s) = s_chunk_size s.
Proof. unfold join. destruct (operations_done s); [apply conclude_frame|done]. Qed.

Lemma step_chunk_size ev s : s_chunk_size (step ev s) = s_chunk_size s.
Proof.
  unfold step. destruct (s_phase s), ev; try done;
    rewrite ?(proj2 (join_frame _)), ?(proj2 (conclude_frame _)); try done.
  - by destruct (s_wait s).
  - apply ReadOp_frame.
  - apply ReceiveOp_frame.
  - apply ReadOp_frame.
Qed.

Lemma run_chunk_size evs s : s_chunk_size (run evs s) = s_chunk_size s.
Proof.
  revert s. induction evs as [|ev evs IH]; intros s; [done|].
  by rewrite run_cons, IH, step_chunk_size.
Qed.

Lemma no_exit_msg_snoc_stream sent data tag :
  no_exit_msg sent → no_exit_msg (sent ++ [stream_msg data tag]).
Proof.
  intros H. apply Forall_app; split; [done|].
  constructor; [apply stream_msg_not_exit|done].
Qed.

(** One round of a read loop with a positive chunk size. *)
Lemma ReadOp_positive r s n :
  s_chunk_size s = JInt n → (0 < n)%Z →
  match reader r s with
  | Some (Running pipe) =>
      (ReadOp r s = set_reader r (Some (Finished [])) s
       ∧ read_some (Z.to_nat n) pipe = ([], []))
      ∨ ∃ b data rest,
          read_some (Z.to_nat n) pipe = (b :: data, rest)
          ∧ ReadOp r s
            = send_json (stream_msg (b :: data) (kind r))
                (set_reader r (Some (Running rest)) s)
  | _ => ReadOp r s = s
  end.
Proof.
  intros Hcs Hn. unfold ReadOp.
  destruct (reader r s) as [[pipe| |]|]; try done.
  rewrite Hcs, stream_read_positive by done.
  destruct (read_some (Z.to_nat n) pipe) as [[|b data] rest] eqn:Hread.
  - left. apply read_some_nil in Hread as Hrest; [|lia]. by subst.
  - right. eauto.
Qed.

(** The join: communicate goes on exactly when all operations are done. *)
Lemma orderly_join s :
  s_phase s = Joining →
  reader_sound (s_out s) → reader_sound (s_err s) →
  no_exit_msg (s_sent s) →
  orderly (join s).
Proof.
  intros Hph Ho He Hsent. unfold join.
  destruct (operations_done s) eqn:Hdone.
  - unfold operations_done in Hdone.
    destruct (s_wait s) as [code|] eqn:Hw; [|done].
    apply andb_prop in Hdone as [Hro Hre].
    apply negb_true_iff in Hro, Hre.
    unfold conclude, wait_process. simpl. rewrite Hw.
    repeat split; simpl; try done.
    exists code, (s_sent s). by rewrite Hw.
  - repeat split; try done. by rewrite Hph.
Qed.

Lemma orderly_step ev s n :
  ev ≠ Cancel →
  s_chunk_size s = JInt n → (0 < n)%Z →
  orderly s → orderly (step ev s).
Proof.
  intros Hev Hcs Hn (Ho & He & Hph). unfold step.
  destruct (s_phase s) eqn:Hphase; [| done | by repeat split; rewrite ?Hphase].
  destruct Hph as [Hdone Hsent].
  destruct ev as [code|r| |]; [| | |done].
  - destruct (s_wait s) eqn:Hw; apply orderly_join; done.
  - pose proof (ReadOp_positive r s n Hcs Hn) as Hread.
    destruct (reader r s) as [[pipe| |]|] eqn:Hr;
      try (rewrite Hread; by apply orderly_join).
    destruct Hread as [[-> _]|(b & data & rest & _ & ->)].
    + apply orderly_join; try done; destruct r; simpl in *; done.
    + apply orderly_join; simpl; try done; try (destruct r; simpl in *; done).
      by apply no_exit_msg_snoc_stream.
  - destruct (ReceiveOp_frame s) as (H1 & H2 & H3 & H4 & H5 & _).
    unfold orderly, operations_done. rewrite H1, H2, H3, H4, H5, Hphase.
    done.
Qed.

Lemma orderly_run evs s n :
  Cancel ∉ evs →
  s_chunk_size s = JInt n → (0 < n)%Z →
  orderly s → orderly (run evs s).
Proof.
  revert s. induction evs as [|ev evs IH]; intros s Hevs Hcs Hn Hs; [done|].
  rewrite run_cons. apply not_elem_of_cons in Hevs as [Hev Hevs].
  apply IH; try done.
  - by rewrite step_chunk_size.
  - by eapply orderly_step.
Qed.

Lemma orderly_started fs inbox cwd chunk_size p :
  orderly (started fs inbox cwd chunk_size p).
Proof.
  repeat split; simpl; try by constructor.
  - by destruct (p_stdout p).
  - by destruct (p_stderr p).
Qed.

(** The wait for the child returns the code of the first [Exit]. *)
Lemma step_wait ev s :
  orderly s →
  s_wait (step ev s)
  = match s_wait s with
    | Some code => Some code
    | None => match ev with Exit code => Some code | _ => None end
    end.
Proof.
  intros (_ & _ & Hph). unfold step.
  destruct (s_phase s); [| done |].
  - destruct ev as [code|r| |];
      rewrite ?(proj1 (join_frame _)), ?(proj1 (conclude_frame _)).
    + destruct (s_wait s) eqn:Hw; simpl; by rewrite ?Hw.
    + rewrite (proj1 (proj2 (ReadOp_frame r s))). by destruct (s_wait s).
    + rewrite (proj1 (proj2 (ReceiveOp_frame s))). by destruct (s_wait s).
    + by destruct (s_wait s).
  - destruct Hph as (code & pre & -> & _). done.
Qed.

Lemma run_wait evs s n :
  Cancel ∉ evs →
  s_chunk_size s = JInt n → (0 < n)%Z →
  orderly s →
  s_wait (run evs s)
  = match s_wait s with
    | Some code => Some code
    | None => first_exit evs
    end.
Proof.
  revert s. induction evs as [|ev evs IH]; intros s Hevs Hcs Hn Hs.
  - simpl. by destruct (s_wait s).
  - rewrite run_cons. apply not_elem_of_cons in Hevs as [Hev Hevs].
    rewrite IH; [|done|by rewrite step_chunk_size|done|by eapply orderly_step].
    rewrite step_wait by done.
    destruct (s_wait s); [done|]. by destruct ev.
Qed.

(** *** The read loops end *)

Lemma ReadOp_idle r s : running (reader r s) = false → ReadOp r s = s.
Proof. unfold ReadOp. by destruct (reader r s) as [[pipe| |]|]. Qed.

Lemma ReadOp_reader_other r r' s : r ≠ r' → reader r (ReadOp r' s) = reader r s.
Proof.
  intros Hne. unfold ReadOp.
  destruct (reader r' s) as [[pipe| |]|]; try done.
  destruct (stream_read _ _) as [[[|] ?]|]; by destruct r, r'.
Qed.

Lemma ReadOp_not_running r r' s :
  running (reader r s) = false → running (reader r (ReadOp r' s)) = false.
Proof.
  intros Hr. destruct (decide (r = r')) as [<-|Hne].
  - by rewrite ReadOp_idle.
  - by rewrite ReadOp_reader_other.
Qed.

Lemma step_not_running r ev s :
  running (reader r s) = false → running (reader r (step ev s)) = false.
Proof.
  intros Hr. unfold step. destruct (s_phase s), ev as [code|r'| |]; try done;
    rewrite ?join_reader, ?conclude_reader, ?ReceiveOp_reader; try done;
    try (by apply ReadOp_not_running); try (by destruct r).
  destruct (s_wait s); by destruct r.
Qed.

Lemma run_not_running r evs s :
  running (reader r s) = false → running (reader r (run evs s)) = false.
Proof.
  revert s. induction evs as [|ev evs IH]; intros s Hr; [done|].
  rewrite run_cons. by apply IH, step_not_running.
Qed.

(** Enough rounds of a read loop bring it to its end. *)
Lemma drain r s n :
  s_chunk_size s = JInt n → (0 < n)%Z → orderly s →
  ∃ k, running (reader r (run (replicate k (Read r)) s)) = false.
Proof.
  intros Hcs Hn.
  remember (backlog (reader r s)) as m eqn:Hm.
  revert s Hcs Hm. induction m as [m IH] using lt_wf_ind. intros s Hcs Hm Hs.
  destruct (running (reader r s)) eqn:Hrun; [|by exists 0].
  assert (Hph : s_phase s = Joining).
  { destruct Hs as (_ & _ & Hph). destruct (s_phase s); [done|done|].
    destruct Hph as (? & ? & _ & _ & _ & Ho & He). destruct r; simpl in *; congruence. }
  pose proof (ReadOp_positive r s n Hcs Hn) as Hread.
  destruct (reader r s) as [[pipe| |]|] eqn:Hr; try done.
  assert (Hstep : step (Read r) s = join (ReadOp r s)) by (unfold step; by rewrite Hph).
  destruct Hread as [[Hfin _]|(b & data & rest & Hsome & Hgo)].
  - exists 1. simpl. rewrite Hstep, join_reader, Hfin. by destruct r.
  - destruct (IH (backlog (Some (Running rest)))) with (s := step (Read r) s)
      as [k Hk].
    + subst m. simpl. apply read_some_shrinks in Hsome; lia.
    + by rewrite step_chunk_size.
    + rewrite Hstep, join_reader, Hgo. by destruct r.
    + eapply orderly_step; done.
    + by exists (S k).
Qed.

Lemma read_events k r : Forall is_read (replicate k (Read r)).
Proof. induction k; by constructor. Qed.

Lemma read_events_no_cancel (reads : list event) : Forall is_read reads → Cancel ∉ reads.
Proof.
  intros H Hin. rewrite Forall_forall in H. by apply H in Hin.
Qed.

Lemma reader_sound_drained t : reader_sound t → running t = false → drained t.
Proof. by destruct t as [[pipe|[|]|]|]. Qed.

(** C3 (for the sessions that are not cancelled): in a session with a
    child and a positive chunk size, under events without a cancellation
    in which the child ends with code [c]:
    - while a read loop is still running, no exit message has been sent;
    - once both read loops are over, each has seen the end of its pipe and
      what was sent is a list without exit message followed by the one exit
      message, whose code is [c];
    - further rounds of the read loops bring the session to that end. *)
Theorem exit_once_after_both_pipes w evs p n c :
  s_process (communicate w evs) = Some p →
  s_chunk_size (communicate w evs) = JInt n → (0 < n)%Z →
  Cancel ∉ evs →
  first_exit evs = Some c →
  (running (s_out (communicate w evs)) = true
   ∨ running (s_err (communicate w evs)) = true →
     no_exit_msg (s_sent (communicate w evs)))
  ∧ (running (s_out (communicate w evs)) = false →
     running (s_err (communicate w evs)) = false →
     drained (s_out (communicate w evs))
     ∧ drained (s_err (communicate w evs))
     ∧ ∃ pre, s_sent (communicate w evs) = pre ++ [exit_msg c] ∧ no_exit_msg pre)
  ∧ ∃ reads pre,
      Forall is_read reads
      ∧ s_phase (communicate w (evs ++ reads)) = Closed
      ∧ s_sent (communicate w (evs ++ reads)) = pre ++ [exit_msg c]
      ∧ no_exit_msg pre.
Proof.
  intros Hp Hcs Hn Hevs Hexit.
  pose proof Hp as Hp'.
  apply communicate_started in Hp' as (d & rest & args & fs & cwd & Hin & Hparse & Htmp & Hstart & Hrun).
  set (chunk := from_option id (JInt 1024) (dict_get d "chunk_size")) in *.
  assert (Hchunk : chunk = JInt n).
  { rewrite Hrun, run_chunk_size in Hcs. done. }
  rewrite Hchunk in Hrun.
  assert (Hgo : ∀ evs', communicate w evs' = run evs' (started fs rest cwd (JInt n) p)).
  { intros evs'. unfold communicate. rewrite Hin. simpl.
    rewrite Hparse. fold chunk. rewrite Htmp, Hstart, Hchunk. done. }
  pose proof (orderly_started fs rest cwd (JInt n) p) as Hs0.
  assert (Horderly : ∀ evs', Cancel ∉ evs' → orderly (communicate w evs')).
  { intros evs' Hevs'. rewrite Hgo. by eapply orderly_run. }
  assert (Hwait : ∀ evs', Cancel ∉ evs' → first_exit evs' = Some c →
                          s_wait (communicate w evs') = Some c).
  { intros evs' Hevs' Hexit'. rewrite Hgo, (run_wait _ _ n) by done. done. }
  assert (Hover : ∀ evs', Cancel ∉ evs' → first_exit evs' = Some c →
    running (s_out (communicate w evs')) = false →
    running (s_err (communicate w evs')) = false →
    s_phase (communicate w evs') = Closed
    ∧ ∃ pre, s_sent (communicate w evs') = pre ++ [exit_msg c] ∧ no_exit_msg pre).
  { intros evs' Hevs' Hexit' Ho He.
    destruct (Horderly evs' Hevs') as (_ & _ & Hph).
    pose proof (Hwait evs' Hevs' Hexit') as Hw.
    destruct (s_phase (communicate w evs')); [|done|].
    - destruct Hph as [Hdone _]. unfold operations_done in Hdone.
      by rewrite Hw, Ho, He in Hdone.
    - destruct Hph as (code & pre & Hcode & Hsent & Hpre & _).
      rewrite Hw in Hcode. injection Hcode as <-. eauto. }
  split; [|split].
  - intros Hrunning. destruct (Horderly evs Hevs) as (_ & _ & Hph).
    destruct (s_phase (communicate w evs)); [by destruct Hph|done|].
    destruct Hph as (? & ? & _ & _ & _ & Ho & He).
    rewrite Ho, He in Hrunning. by destruct Hrunning.
  - intros Ho He. destruct (Horderly evs Hevs) as (Hso & Hse & _).
    split; [by apply reader_sound_drained|].
    split; [by apply reader_sound_drained|].
    by apply Hover.
  - pose proof (Horderly evs Hevs) as Hs.
    destruct (drain fd_stdout (communicate w evs) n Hcs Hn Hs) as [k1 Hk1].
    assert (Hs1 : orderly (run (replicate k1 (Read fd_stdout)) (communicate w evs))).
    { eapply orderly_run; try done.
      apply read_events_no_cancel, read_events. }
    destruct (drain fd_stderr _ n
                ltac:(by rewrite run_chunk_size) Hn Hs1) as [k2 Hk2].
    set (reads := replicate k1 (Read fd_stdout) ++ replicate k2 (Read fd_stderr)).
    assert (Hreads : Forall is_read reads)
      by (apply Forall_app; split; apply read_events).
    destruct (Hover (evs ++ reads)) as (Hclosed & pre & Hsent & Hpre).
    + apply not_elem_of_app. split; [done|by apply read_events_no_cancel].
    + unfold first_exit in *. rewrite omap_app.
      by destruct (omap _ evs).
    + rewrite Hgo. unfold reads. rewrite !run_app, <- Hgo.
      by apply (run_not_running fd_stdout).
    + rewrite Hgo. unfold reads. by rewrite !run_app, <- Hgo.
    + exists reads, pre. done.
Qed.
End SessionOrder.

(** ** Path names *)

Lemma append_nil_l s : EmptyString +:+ s = s.
Proof. reflexivity. Qed.

Lemma append_cons a s t : String a s +:+ t = String a (s +:+ t).
Proof. reflexivity. Qed.

Lemma append_empty s : s +:+ EmptyString = s.
Proof. induction s as [|a s IH]; [done|]. by rewrite append_cons, IH. Qed.

Lemma append_assoc (a b c : string) : (a +:+ b) +:+ c = a +:+ (b +:+ c).
Proof. induction a as [|x a IH]; [done|]. by rewrite !append_cons, IH. Qed.

Lemma split_sep_cons s : ∃ x xs, split_sep s = x :: xs.
Proof.
  induction s as [|a s (x & xs & IH)]; simpl; [eauto|].
  destruct (Ascii.eqb a "/"); [eauto|]. rewrite IH. eauto.
Qed.

Lemma split_sep_app_sep a b :
  split_sep (a +:+ "/" +:+ b) = split_sep a ++ split_sep b.
Proof.
  induction a as [|c a IH]; [done|].
  rewrite append_cons. simpl.
  destruct (Ascii.eqb c "/"); [by rewrite IH|].
  rewrite IH. by destruct (split_sep_cons a) as (x & xs & ->).
Qed.

Lemma split_sep_no_sep c :
  forallb (λ a, negb (Ascii.eqb a "/")) (list_ascii_of_string c) = true →
  split_sep c = [c].
Proof.
  induction c as [|a c IH]; simpl; [done|].
  intros [Ha Hc]%andb_prop. apply negb_true_iff in Ha. by rewrite Ha, IH.
Qed.

Lemma proper_name_no_sep c :
  proper_name c = true →
  forallb (λ a, negb (Ascii.eqb a "/")) (list_ascii_of_string c) = true.
Proof. by intros [_ H]%andb_prop. Qed.

Lemma proper_name_not_special c : proper_name c = true → special_name c = false.
Proof. intros [H _]%andb_prop. by apply negb_true_iff in H. Qed.

Lemma proper_name_startswith c : proper_name c = true → startswith_sep c = false.
Proof.
  intros H. apply proper_name_no_sep in H. destruct c as [|a c]; [done|].
  simpl in *. apply andb_prop in H as [Ha _]. by apply negb_true_iff in Ha.
Qed.

Lemma proper_name_nonempty c : proper_name c = true → c ≠ EmptyString.
Proof. by intros H ->. Qed.

Lemma split_sep_name c s :
  proper_name c = true → split_sep (c +:+ "/" +:+ s) = c :: split_sep s.
Proof.
  intros H. by rewrite split_sep_app_sep, split_sep_no_sep by by apply proper_name_no_sep.
Qed.

Lemma path_tail_cons c p : path_tail (c :: p) = "/" +:+ c +:+ path_tail p.
Proof. reflexivity. Qed.

Lemma split_sep_components c p :
  proper_name c = true → Forall (λ c, proper_name c = true) p →
  split_sep (c +:+ path_tail p) = c :: p.
Proof.
  intros Hc Hp. revert c Hc. induction Hp as [|c' p Hc' Hp IH]; intros c Hc.
  - simpl path_tail. rewrite append_empty.
    by apply split_sep_no_sep, proper_name_no_sep.
  - by rewrite path_tail_cons, split_sep_name, IH.
Qed.

Lemma split_sep_path_tail p :
  Forall (λ c, proper_name c = true) p → p ≠ [] →
  split_sep (path_tail p) = EmptyString :: p.
Proof.
  intros Hp Hne. destruct Hp as [|c p Hc Hp]; [done|].
  rewrite path_tail_cons.
  change ("/" +:+ c +:+ path_tail p) with (EmptyString +:+ "/" +:+ c +:+ path_tail p).
  by rewrite split_sep_app_sep, split_sep_components.
Qed.

Lemma path_tail_snoc p c : path_tail (p ++ [c]) = path_tail p +:+ "/" +:+ c.
Proof.
  induction p as [|c' p IH].
  - simpl. by rewrite append_empty.
  - change ((c' :: p) ++ [c]) with (c' :: (p ++ [c])).
    by rewrite !path_tail_cons, IH, !append_assoc.
Qed.

Lemma endswith_sep_app a b : b ≠ EmptyString → endswith_sep (a +:+ b) = endswith_sep b.
Proof.
  intros Hb. induction a as [|x a IH]; [done|].
  rewrite append_cons. simpl. rewrite IH.
  destruct (a +:+ b) eqn:Hab; [|done].
  destruct a; [by rewrite append_nil_l in Hab|by rewrite append_cons in Hab].
Qed.

Lemma endswith_sep_no_sep c :
  forallb (λ a, negb (Ascii.eqb a "/")) (list_ascii_of_string c) = true →
  endswith_sep c = false.
Proof.
  induction c as [|a c IH]; simpl; [done|].
  intros [Ha Hc]%andb_prop. apply negb_true_iff in Ha.
  destruct c; [done|]. by apply IH.
Qed.

Lemma path_tail_nonempty c p : path_tail (c :: p) ≠ EmptyString.
Proof. done. Qed.

Lemma endswith_sep_path_tail p :
  Forall (λ c, proper_name c = true) p → endswith_sep (path_tail p) = false.
Proof.
  induction 1 as [|c p Hc Hp IH]; [done|].
  rewrite path_tail_cons. destruct p as [|c' p].
  - simpl path_tail. rewrite append_empty.
    rewrite endswith_sep_app by by apply proper_name_nonempty.
    by apply endswith_sep_no_sep, proper_name_no_sep.
  - rewrite <- append_assoc. by rewrite endswith_sep_app.
Qed.

(** Joining the name of a directory and a relative name. *)
Lemma os_path_join_child p c :
  Forall (λ c, proper_name c = true) p → startswith_sep c = false →
  os_path_join (path_str p) c = path_str (p ++ [c]).
Proof.
  intros Hp Hc. unfold os_path_join. rewrite Hc.
  destruct p as [|c' p].
  - simpl. by rewrite append_empty.
  - unfold path_str. change ((c' :: p) ++ [c]) with (c' :: (p ++ [c])).
    cbv iota. rewrite endswith_sep_path_tail by done.
    change (String.eqb (path_tail (c' :: p)) EmptyString) with false. simpl orb. cbv iota.
    change (c' :: (p ++ [c])) with ((c' :: p) ++ [c]).
    by rewrite path_tail_snoc.
Qed.

Lemma split_sep_join d key :
  Forall (λ c, proper_name c = true) d → d ≠ [] → startswith_sep key = false →
  split_sep (os_path_join (path_str d) key) = (EmptyString :: d) ++ split_sep key.
Proof.
  intros Hd Hne Hkey. unfold os_path_join. rewrite Hkey.
  destruct d as [|c d]; [done|]. unfold path_str.
  rewrite endswith_sep_path_tail by done.
  change (String.eqb (path_tail (c :: d)) EmptyString) with false. simpl orb.
  cbv iota. by rewrite split_sep_app_sep, split_sep_path_tail.
Qed.

Lemma os_path_join_absolute a key : startswith_sep key = true → os_path_join a key = key.
Proof. intros H. unfold os_path_join. by rewrite H. Qed.

Lemma random_name_no_sep draw :
  forallb (λ a, negb (Ascii.eqb a "/")) (list_ascii_of_string (random_name draw)) = true.
Proof.
  unfold random_name. rewrite list_ascii_of_string_of_list_ascii.
  apply forallb_forall. intros a (i & <- & _)%in_map_iff.
  assert (Hall : Forall (λ a, negb (Ascii.eqb a "/") = true) name_characters)
    by (repeat constructor).
  rewrite Forall_forall in Hall. apply Hall, list_elem_of_In, nth_In.
  change (length name_characters) with 37. by apply Nat.mod_upper_bound.
Qed.

Lemma temp_name_proper draw : proper_name ("aiy-" +:+ random_name draw) = true.
Proof.
  unfold proper_name. apply andb_true_intro. split; [done|].
  change ("aiy-" +:+ random_name draw)
    with (String "a" (String "i" (String "y" (String "-" (random_name draw))))).
  simpl. apply random_name_no_sep.
Qed.

(** ** Path resolution *)

Lemma walk_app fs cur cs1 cs2 :
  walk fs cur (cs1 ++ cs2) = walk fs cur cs1 ≫= λ p, walk fs p cs2.
Proof.
  revert cur. induction cs1 as [|c cs1 IH]; intros cur; [done|]. simpl.
  destruct (String.eqb c EmptyString || String.eqb c "."); [apply IH|].
  destruct (String.eqb c ".."); [apply IH|].
  destruct (fs !! (cur ++ [c])) as [[|data]|]; [apply IH|done|done].
Qed.

Lemma walk_proper fs cur c cs :
  proper_name c = true →
  walk fs cur (c :: cs)
  = match fs !! (cur ++ [c]) with
    | Some Dir => walk fs (cur ++ [c]) cs
    | Some (File _) => Raise NotADirectoryError
    | None => Raise FileNotFoundError
    end.
Proof.
  intros Hc%proper_name_not_special. unfold special_name in Hc.
  apply orb_false_elim in Hc as [Hc1 Hc2]. simpl. by rewrite Hc1, Hc2.
Qed.

Lemma is_dir_root fs : is_dir fs [].
Proof. by left. Qed.

Lemma is_dir_snoc fs p c : is_dir fs (p ++ [c]) ↔ fs !! (p ++ [c]) = Some Dir.
Proof.
  split; [|by right]. intros [H|H]; [|done]. by destruct p.
Qed.

(** In a well-formed file system everything above an entry is a
    directory. *)
Lemma fs_wf_ancestor fs p q :
  fs_wf fs → q ≠ [] → is_Some (fs !! (p ++ q)) → is_dir fs p.
Proof.
  intros Hwf. induction q as [|c q IH] using rev_ind; [done|]. intros _ Hsome.
  rewrite app_assoc in Hsome. apply Hwf in Hsome.
  destruct q as [|c' q].
  - by rewrite app_nil_r in Hsome.
  - apply IH; [done|]. destruct Hsome as [Hnil | ->]; [by destruct p|done].
Qed.

Lemma fs_wf_parent fs p c : fs_wf fs → is_dir fs (p ++ [c]) → is_dir fs p.
Proof.
  intros Hwf Hd%is_dir_snoc. apply (fs_wf_ancestor fs p [c]); [done|done|].
  by rewrite Hd.
Qed.

Lemma walk_to_dir fs cur q :
  fs_wf fs → Forall (λ c, proper_name c = true) q →
  is_dir fs (cur ++ q) → walk fs cur q = Ok (cur ++ q).
Proof.
  intros Hwf Hq. revert cur. induction Hq as [|c q Hc Hq IH]; intros cur Hdir.
  - by rewrite app_nil_r.
  - rewrite walk_proper by done.
    assert (Hc' : fs !! (cur ++ [c]) = Some Dir).
    { apply is_dir_snoc. destruct q as [|c' q]; [done|].
      apply (fs_wf_ancestor fs _ (c' :: q)); [done|done|].
      rewrite <- app_assoc. simpl.
      destruct Hdir as [Hnil | ->]; [by destruct cur|done]. }
    rewrite Hc', IH; rewrite <- app_assoc; done.
Qed.

Lemma walk_proper_result fs cur q p :
  Forall (λ c, proper_name c = true) q → walk fs cur q = Ok p → p = cur ++ q.
Proof.
  intros Hq. revert cur. induction Hq as [|c q Hc Hq IH]; intros cur.
  - simpl. intros [= <-]. by rewrite app_nil_r.
  - rewrite walk_proper by done.
    destruct (fs !! (cur ++ [c])) as [[|data]|]; [|done|done].
    intros ->%IH. by rewrite <- app_assoc.
Qed.

Lemma removelast_snoc {A} (l : list A) x : removelast (l ++ [x]) = l.
Proof. apply removelast_last. Qed.

Lemma walk_is_dir fs cur cs p :
  fs_wf fs → is_dir fs cur → walk fs cur cs = Ok p → is_dir fs p.
Proof.
  intros Hwf. revert cur. induction cs as [|c cs IH]; intros cur Hcur; simpl.
  - by intros [= <-].
  - destruct (String.eqb c EmptyString || String.eqb c "."); [by apply IH|].
    destruct (String.eqb c "..").
    + apply IH. destruct cur as [|x cur _] using rev_ind; [done|].
      rewrite removelast_snoc. by eapply fs_wf_parent.
    + destruct (fs !! (cur ++ [c])) as [[|data]|] eqn:Hc; [|done|done].
      apply IH. by right.
Qed.

Lemma split_sep_path_str p c :
  Forall (λ c, proper_name c = true) p → proper_name c = true →
  split_sep (path_str (p ++ [c])) = (EmptyString :: p) ++ [c].
Proof.
  intros Hp Hc.
  assert (Hpc : Forall (λ c, proper_name c = true) (p ++ [c]))
    by (apply Forall_app; auto).
  destruct p as [|c' p]; simpl app; unfold path_str;
    by rewrite split_sep_path_tail.
Qed.

Lemma last_snoc {A} (l : list A) x y : List.last (l ++ [x]) y = x.
Proof. apply last_last. Qed.

Lemma path_str_nonempty p : String.eqb (path_str p) EmptyString = false.
Proof. by destruct p. Qed.

(** The name of an entry of a directory resolves to that directory and
    the entry. *)
Lemma resolve_parent_path fs p c :
  Forall (λ c, proper_name c = true) p → proper_name c = true →
  resolve_parent fs (path_str (p ++ [c])) = dir ← walk fs [] p; Ok (dir, c).
Proof.
  intros Hp Hc. unfold resolve_parent.
  rewrite path_str_nonempty, split_sep_path_str by done.
  by rewrite removelast_snoc, last_snoc.
Qed.

(** ** Staging the files *)

Lemma open_wb_inv fs p fs1 f :
  fs_wf fs → open_wb fs p = Ok (fs1, f) →
  ∃ dir name, f = dir ++ [name] ∧ is_dir fs dir
    ∧ fs !! f ≠ Some Dir ∧ fs1 = <[f := File []]> fs.
Proof.
  intros Hwf. unfold open_wb, resolve_parent.
  destruct (String.eqb p EmptyString); [done|]. simpl.
  destruct (walk fs [] _) as [dir|] eqn:Hwalk; [|done]. simpl.
  destruct (special_name _); [done|].
  destruct (fs !! (dir ++ _)) as [[|data]|] eqn:Hf; [done| |];
    intros [= <- <-]; exists dir, (List.last (split_sep p) EmptyString);
    (split; [done|]); (split; [by eapply walk_is_dir, Hwalk; [|apply is_dir_root]|]);
    by rewrite Hf.
Qed.

(** Writing a file keeps the file system well formed, keeps the
    directories, and keeps a directory flat that was. *)
Lemma write_wf (fs : filesystem) dir name data :
  fs_wf fs → is_dir fs dir → fs !! (dir ++ [name]) ≠ Some Dir →
  fs_wf (<[dir ++ [name] := File data]> fs).
Proof.
  intros Hwf Hdir Hf p c Hsome.
  assert (Hp : p = [] ∨ fs !! p = Some Dir).
  { destruct (decide (dir ++ [name] = p ++ [c])) as [Heq|Hne].
    - apply app_inj_tail in Heq as [<- _]. done.
    - rewrite lookup_insert_ne in Hsome by done. by apply Hwf in Hsome. }
  destruct Hp as [->|Hp]; [by left|right].
  rewrite lookup_insert_ne; [done|]. by intros <-.
Qed.

Lemma write_dir (fs : filesystem) f data d :
  fs !! f ≠ Some Dir → fs !! d = Some Dir → <[f := File data]> fs !! d = Some Dir.
Proof. intros Hf Hd. rewrite lookup_insert_ne; [done|]. by intros ->. Qed.

Lemma write_flat (fs : filesystem) d dir name data :
  flat_below fs d → is_dir fs dir → fs !! (dir ++ [name]) ≠ Some Dir →
  flat_below (<[dir ++ [name] := File data]> fs) d.
Proof.
  intros Hflat Hdir Hf q x Hq Hx.
  destruct (decide (dir ++ [name] = d ++ q)) as [Heq|Hne].
  - rewrite Heq, lookup_insert_eq in Hx. injection Hx as <-.
    destruct q as [|c q _] using rev_ind; [done|].
    rewrite app_assoc in Heq. apply app_inj_tail in Heq as [-> ->].
    destruct q as [|c' q]; [eauto|].
    destruct Hdir as [Hnil|Hdir]; [by destruct d|].
    apply Hflat in Hdir as (? & ? & _ & ?); done.
  - rewrite lookup_insert_ne in Hx by done. by apply Hflat.
Qed.

Lemma write_files_staged fs d items fs' o :
  fs_wf fs → fs !! d = Some Dir → flat_below fs d →
  write_files fs (path_str d) items = (fs', o) →
  fs_wf fs' ∧ fs' !! d = Some Dir ∧ flat_below fs' d.
Proof.
  revert fs. induction items as [|[name code] items IH]; intros fs Hwf Hd Hflat; simpl.
  - by intros [= <- <-].
  - destruct (open_wb fs _) as [[fs1 f]|e] eqn:Hopen; [|by intros [= <- <-]].
    apply open_wb_inv in Hopen as (dir & nm & -> & Hdir & Hf & ->); [|done].
    destruct (py_encode code) as [data|e].
    + rewrite insert_insert_eq. apply IH;
        [by apply write_wf|by apply write_dir|by apply write_flat].
    + intros [= <- <-].
      split; [by apply write_wf|]. split; [by apply write_dir|by apply write_flat].
Qed.




(** The directory [mkdtemp] makes is new, lies in the temporary directory
    and is empty. *)
Lemma mkdtemp_inv fs tmp draws fs1 dname :
  fs_wf fs → Forall (λ c, proper_name c = true) tmp →
  mkdtemp fs (path_str tmp) (map random_name draws) = Ok (fs1, dname) →
  ∃ name, proper_name name = true
    ∧ dname = path_str (tmp ++ [name])
    ∧ fs1 = <[tmp ++ [name] := Dir]> fs
    ∧ fs !! (tmp ++ [name]) = None
    ∧ is_dir fs tmp.
Proof.
  intros Hwf Htmp. induction draws as [|draw draws IH]; [done|].
  simpl. pose proof (temp_name_proper draw) as Hname.
  rewrite os_path_join_child by (done || by apply proper_name_startswith).
  unfold os_mkdir. rewrite resolve_parent_path by done.
  destruct (walk fs [] tmp) as [dir|e] eqn:Hwalk; [|by destruct e].
  assert (dir = tmp) as -> by by apply walk_proper_result in Hwalk.
  cbn [mbind result_bind fst snd]. rewrite proper_name_not_special by done.
  destruct (fs !! (tmp ++ _)) eqn:Hnew; [done|].
  intros [= <- <-]. eexists. repeat split; try done.
  eapply walk_is_dir, Hwalk; [done|apply is_dir_root].
Qed.

Lemma mkdtemp_staged (fs : filesystem) tmp name :
  fs_wf fs → is_dir fs tmp → fs !! (tmp ++ [name]) = None →
  fs_wf (<[tmp ++ [name] := Dir]> fs)
  ∧ <[tmp ++ [name] := Dir]> fs !! (tmp ++ [name]) = Some Dir
  ∧ flat_below (<[tmp ++ [name] := Dir]> fs) (tmp ++ [name]).
Proof.
  intros Hwf Htmp Hnew. split; [|split].
  - intros p c Hsome.
    assert (Hp : p = [] ∨ fs !! p = Some Dir).
    { destruct (decide (tmp ++ [name] = p ++ [c])) as [Heq|Hne].
      - apply app_inj_tail in Heq as [<- _]. done.
      - rewrite lookup_insert_ne in Hsome by done. by apply Hwf in Hsome. }
    destruct Hp as [->|Hp]; [by left|right].
    rewrite lookup_insert_ne; [done|]. intros <-. congruence.
  - apply lookup_insert_eq.
  - intros q x Hq Hx. rewrite lookup_insert_ne in Hx.
    + assert (Hd : is_dir fs (tmp ++ [name]))
        by (apply (fs_wf_ancestor fs _ q); rewrite ?Hx; done).
      apply is_dir_snoc in Hd. congruence.
    + intros Heq. apply (f_equal length) in Heq. rewrite !length_app in Heq.
      destruct q; [done|]. simpl in Heq. lia.
Qed.


Lemma startswith_sep_path_str p : startswith_sep (path_str p) = true.
Proof. by destruct p. Qed.

Lemma split_sep_nonempty_string p x y l : split_sep p = x :: y :: l → String.eqb p EmptyString = false.
Proof. intros H. by destruct p. Qed.

Lemma open_wb_resolved (fs : filesystem) p dir name :
  resolve_parent fs p = Ok (dir, name) →
  proper_name name = true → fs !! (dir ++ [name]) ≠ Some Dir →
  open_wb fs p = Ok (<[dir ++ [name] := File []]> fs, dir ++ [name]).
Proof.
  intros Hres Hname Hf. unfold open_wb. rewrite Hres.
  cbn [mbind result_bind fst snd].
  rewrite proper_name_not_special by done.
  by destruct (fs !! (dir ++ [name])) as [[|data]|].
Qed.

(** "../n" seen from the directory [d ++ [c]] is the entry [n] of [d]. *)
Lemma resolve_parent_dotdot (fs : filesystem) d c n :
  fs_wf fs → Forall (λ c, proper_name c = true) d → proper_name c = true →
  proper_name n = true → fs !! (d ++ [c]) = Some Dir →
  resolve_parent fs (os_path_join (path_str (d ++ [c])) ("../" +:+ n)) = Ok (d, n).
Proof.
  intros Hwf Hd Hc Hn Hdir.
  assert (Hdc : Forall (λ c, proper_name c = true) (d ++ [c]))
    by (apply Forall_app; auto).
  assert (Hsplit : split_sep (os_path_join (path_str (d ++ [c])) ("../" +:+ n))
                   = (EmptyString :: (d ++ [c]) ++ [".."]) ++ [n]).
  { rewrite split_sep_join; [|done|by destruct d|done].
    change ("../" +:+ n) with (".." +:+ "/" +:+ n).
    rewrite split_sep_app_sep, (split_sep_no_sep n) by by apply proper_name_no_sep.
    change (split_sep "..") with [".."]. simpl. by rewrite <- !app_assoc. }
  unfold resolve_parent. rewrite Hsplit, removelast_snoc, last_snoc.
  rewrite (split_sep_nonempty_string _ EmptyString (hd EmptyString ((d ++ [c]) ++ [".."; n]))
             (tl ((d ++ [c]) ++ [".."; n]))).
  2:{ rewrite Hsplit. simpl. rewrite <- !app_assoc. by destruct d. }
  change (walk fs [] (EmptyString :: (d ++ [c]) ++ [".."]))
    with (walk fs [] ((d ++ [c]) ++ [".."])).
  rewrite walk_app, (walk_to_dir fs [] (d ++ [c])); [|done|done|by right].
  change (Ok ([] ++ d ++ [c]) ≫= λ p, walk fs p [".."])
    with (Ok (removelast (d ++ [c])) : result path).
  by rewrite removelast_snoc.
Qed.

(** C2 (as the server has it): staging checks no key; it opens
    [os.path.join(d, key)] whatever the key.  With [fs1] the file system
    in which the staging directory was just made: an absolute key
    "/q1/../qk/n" is written in the directory [q] it names, wherever that
    is, and the key "../n" is written in the directory that holds the
    staging directory; only a target that is a directory is refused. *)
Theorem staging_follows_the_key fs tmp draws fs1 dname q n text :
  fs_wf fs → Forall (λ c, proper_name c = true) tmp →
  Forall (λ c, proper_name c = true) q → proper_name n = true →
  mkdtemp fs (path_str tmp) (map random_name draws) = Ok (fs1, dname) →
  (is_dir fs1 q → fs1 !! (q ++ [n]) ≠ Some Dir →
     TempDirectory fs tmp draws (JDict [(path_str (q ++ [n]), JStr text)])
     = (<[q ++ [n] := File (encode_utf8 text)]> fs1, Ok dname))
  ∧ (fs1 !! (tmp ++ [n]) ≠ Some Dir →
     TempDirectory fs tmp draws (JDict [("../" +:+ n, JStr text)])
     = (<[tmp ++ [n] := File (encode_utf8 text)]> fs1, Ok dname)).
Proof.
  intros Hwf Htmp Hq Hn Hmk. unfold TempDirectory. rewrite Hmk.
  apply mkdtemp_inv in Hmk as (nm & Hnm & -> & -> & Hnew & Hdir); [|done|done].
  destruct (mkdtemp_staged fs tmp nm Hwf Hdir Hnew) as (Hwf1 & Hd1 & _).
  set (fs1 := <[tmp ++ [nm] := Dir]> fs) in *.
  split.
  - intros Hqdir Hfree. simpl write_files.
    rewrite os_path_join_absolute by apply startswith_sep_path_str.
    rewrite (open_wb_resolved fs1 _ q n); [|
      rewrite resolve_parent_path by done;
      by rewrite (walk_to_dir fs1 [] q) by done|done|done].
    simpl py_encode. cbv iota beta. by rewrite insert_insert_eq.
  - intros Hfree. simpl write_files.
    rewrite (open_wb_resolved fs1 _ tmp n);
      [|by apply resolve_parent_dotdot|done|done].
    simpl py_encode. cbv iota beta. by rewrite insert_insert_eq.
Qed.

(** * The theorems at work

    Each theorem above that has premises is applied here to the worlds of
    the examples; and where the server does not do what one could expect of
    it, a session shows what it does. *)

Lemma example_fs_wf : fs_wf example_fs.
Proof.
  intros p c [x Hx]. left. unfold example_fs in Hx.
  apply lookup_insert_Some in Hx as [[Heq _]|[_ Hx]].
  - by destruct p as [|? [|? ?]].
  - apply lookup_insert_Some in Hx as [[Heq _]|[_ Hx]]; [|done].
    by destruct p as [|? [|? ?]].
Defined.

Lemma no_cancel_in (evs : list event) :
  forallb (λ ev, match ev with Cancel => false | _ => true end) evs = true →
  Cancel ∉ evs.
Proof.
  intros H Hin. apply list_elem_of_In in Hin.
  rewrite forallb_forall in H. by apply H in Hin.
Defined.

(** C9 at the shortest run message. *)
Lemma parse_run_msg_defaults_minimal :
  ∃ chunk_size stdout stderr env files,
    parse_run_msg no_validation minimal_run
      = Ok (Some (JList [JStr "/bin/true"], chunk_size, stdout, stderr, env, files))
    ∧ got_or_default [("type", JStr "run"); ("args", JList [JStr "/bin/true"])]
        "chunk_size" (JInt 1024) chunk_size
    ∧ got_or_default [("type", JStr "run"); ("args", JList [JStr "/bin/true"])]
        "stdout" (JStr "pipe") stdout
    ∧ got_or_default [("type", JStr "run"); ("args", JList [JStr "/bin/true"])]
        "stderr" (JStr "pipe") stderr
    ∧ got_or_default [("type", JStr "run"); ("args", JList [JStr "/bin/true"])]
        "env" (JDict []) env
    ∧ got_or_default [("type", JStr "run"); ("args", JList [JStr "/bin/true"])]
        "files" (JDict []) files.
Proof.
  apply (parse_run_msg_defaults no_validation
           [("type", JStr "run"); ("args", JList [JStr "/bin/true"])]
           (JList [JStr "/bin/true"])); reflexivity.
Defined.

(** C1: the executable is missing; nothing is sent, so no exit message
    with code 127 either. *)
Lemma spawn_failure_no_exit_message :
  w_exec missing_world = Some FileNotFoundError
  ∧ s_process (spawn no_validation b64decode_rfc4648 missing_world [Exit 127]) = None
  ∧ s_raised (spawn no_validation b64decode_rfc4648 missing_world [Exit 127])
    = Some FileNotFoundError
  ∧ exit_msg 127 ∉ s_sent (spawn no_validation b64decode_rfc4648 missing_world [Exit 127]).
Proof.
  repeat split; try by vm_compute.
  assert (s_sent (spawn no_validation b64decode_rfc4648 missing_world [Exit 127]) = [])
    as -> by by vm_compute.
  apply not_elem_of_nil.
Qed.

Lemma pair_of_second {A B} (r : A * B) (b : B) : r.2 = b → r = (r.1, b).
Proof. destruct r. simpl. by intros ->. Defined.

Lemma spawn_failure_sends_nothing_missing :
  spawn no_validation b64decode_rfc4648 missing_world [Exit 127]
  = log_warning FileNotFoundError
      (over (TempDirectory_exit
               (TempDirectory (w_fs missing_world) (w_tmp missing_world)
                  (w_draws missing_world) (JDict [("main.py", JStr "print(1)")])).1
               "/tmp/aiy-bcdefghi")
            [] (Some FileNotFoundError))
  ∧ s_sent (spawn no_validation b64decode_rfc4648 missing_world [Exit 127]) = []
  ∧ s_log (spawn no_validation b64decode_rfc4648 missing_world [Exit 127])
    = [FileNotFoundError]
  ∧ client_run b64decode_rfc4648
      (s_sent (spawn no_validation b64decode_rfc4648 missing_world [Exit 127]))
    = Ok (JInt 127).
Proof.
  apply (spawn_failure_sends_nothing no_validation b64decode_rfc4648
           missing_world [Exit 127] example_run []
           (JList [JStr "/usr/bin/env"; JStr "python3"; JStr "main.py"])
           (JInt 2) (JStr "pipe") (JStr "pipe")
           (JDict [("PYTHONUNBUFFERED", JStr "1")])
           (JDict [("main.py", JStr "print(1)")])
           (TempDirectory (w_fs missing_world) (w_tmp missing_world)
              (w_draws missing_world) (JDict [("main.py", JStr "print(1)")])).1
           "/tmp/aiy-bcdefghi" FileNotFoundError).
  - reflexivity.
  - reflexivity.
  - apply pair_of_second. vm_compute. reflexivity.
  - reflexivity.
Defined.

(** C2: an absolute key and a key with ".." are written outside the
    staging directory, and stay when the directory is removed. *)
Lemma staging_escapes_the_directory :
  (TempDirectory example_fs ["tmp"] example_draws
     (JDict [("/etc/passwd", JStr "x"); ("../escaped", JStr "y")])).2
  = Ok "/tmp/aiy-bcdefghi"
  ∧ example_fs !! ["etc"; "passwd"] = None
  ∧ example_fs !! ["tmp"; "escaped"] = None
  ∧ (TempDirectory example_fs ["tmp"] example_draws
       (JDict [("/etc/passwd", JStr "x"); ("../escaped", JStr "y")])).1
    !! ["etc"; "passwd"] = Some (File (encode_utf8 "x"))
  ∧ (TempDirectory example_fs ["tmp"] example_draws
       (JDict [("/etc/passwd", JStr "x"); ("../escaped", JStr "y")])).1
    !! ["tmp"; "escaped"] = Some (File (encode_utf8 "y"))
  ∧ TempDirectory_exit
      (TempDirectory example_fs ["tmp"] example_draws
         (JDict [("/etc/passwd", JStr "x"); ("../escaped", JStr "y")])).1
      "/tmp/aiy-bcdefghi"
    !! ["etc"; "passwd"] = Some (File (encode_utf8 "x")).
Proof. repeat split; by vm_compute. Qed.

Lemma proper_names (l : list string) :
  forallb proper_name l = true → Forall (λ c, proper_name c = true) l.
Proof.
  intros H. apply Forall_forall. intros c Hc%list_elem_of_In.
  rewrite forallb_forall in H. by apply H.
Defined.

Lemma example_staged_made :
  mkdtemp example_fs (path_str ["tmp"]) (map random_name example_draws)
  = Ok (example_staged, "/tmp/aiy-bcdefghi").
Proof.
  vm_cast_no_check
    (@eq_refl _ (mkdtemp example_fs (path_str ["tmp"]) (map random_name example_draws))).
Defined.

Lemma staging_follows_the_key_example :
  TempDirectory example_fs ["tmp"] example_draws (JDict [("/etc/passwd", JStr "x")])
  = (<[ ["etc"] ++ ["passwd"] := File (encode_utf8 "x") ]> example_staged,
     Ok "/tmp/aiy-bcdefghi")
  ∧ TempDirectory example_fs ["tmp"] example_draws (JDict [("../" +:+ "passwd", JStr "x")])
    = (<[ ["tmp"] ++ ["passwd"] := File (encode_utf8 "x") ]> example_staged,
       Ok "/tmp/aiy-bcdefghi").
Proof.
  destruct (staging_follows_the_key example_fs ["tmp"] example_draws
              example_staged "/tmp/aiy-bcdefghi" ["etc"] "passwd" "x"
              example_fs_wf (proper_names ["tmp"] eq_refl)
              (proper_names ["etc"] eq_refl) eq_refl example_staged_made)
    as [Habs Hup].
  split.
  - apply Habs.
    + right. vm_compute. reflexivity.
    + vm_compute. discriminate.
  - apply Hup. vm_compute. discriminate.
Defined.

(** C3: the child has ended by itself with code 0 and its output is still
    in the pipes when the session is cancelled: the exit message is sent
    although no read loop has seen the end of its pipe.  And with a chunk
    size of 0 each read loop leaves at its first round, so the exit
    message follows the end of the child with all the output unread. *)
Lemma cancelled_session_exit_before_end_of_pipe :
  (first_exit [Exit 0; Cancel] = Some 0%Z
   ∧ (kill ∉ s_calls (communicate no_validation b64decode_rfc4648 running_world
                        [Exit 0; Cancel]))
   ∧ s_sent (communicate no_validation b64decode_rfc4648 running_world [Exit 0; Cancel])
     = [exit_msg 0]
   ∧ ¬ drained (s_out (communicate no_validation b64decode_rfc4648 running_world
                         [Exit 0; Cancel]))
   ∧ ¬ drained (s_err (communicate no_validation b64decode_rfc4648 running_world
                         [Exit 0; Cancel])))
  ∧ (s_sent (communicate no_validation b64decode_rfc4648 zero_chunk_world
               [Read fd_stdout; Read fd_stderr; Exit 0])
     = [exit_msg 0]
     ∧ ¬ drained (s_out (communicate no_validation b64decode_rfc4648 zero_chunk_world
                           [Read fd_stdout; Read fd_stderr; Exit 0]))).
Proof.
  split; [split; [done|split; [|split; [by vm_compute|split]]]|split].
  - assert (s_calls (communicate no_validation b64decode_rfc4648 running_world
                       [Exit 0; Cancel]) = []) as -> by by vm_compute.
    apply not_elem_of_nil.
  - assert (s_out (communicate no_validation b64decode_rfc4648 running_world
                     [Exit 0; Cancel]) = Some (Running [encode_utf8 "abc"]))
      as -> by by vm_compute.
    by intros [].
  - assert (s_err (communicate no_validation b64decode_rfc4648 running_world
                     [Exit 0; Cancel]) = Some (Running [encode_utf8 "E"]))
      as -> by by vm_compute.
    by intros [].
  - by vm_compute.
  - assert (s_out (communicate no_validation b64decode_rfc4648 zero_chunk_world
                     [Read fd_stdout; Read fd_stderr; Exit 0])
            = Some (Finished [encode_utf8 "abc"])) as -> by by vm_compute.
    by intros [].
Qed.

Lemma exit_once_after_both_pipes_example :
  (running (s_out (communicate no_validation b64decode_rfc4648 running_world
                     [Read fd_stdout; Exit 7])) = true
   ∨ running (s_err (communicate no_validation b64decode_rfc4648 running_world
                       [Read fd_stdout; Exit 7])) = true →
   no_exit_msg (s_sent (communicate no_validation b64decode_rfc4648 running_world
                          [Read fd_stdout; Exit 7])))
  ∧ (running (s_out (communicate no_validation b64decode_rfc4648 running_world
                       [Read fd_stdout; Exit 7])) = false →
     running (s_err (communicate no_validation b64decode_rfc4648 running_world
                       [Read fd_stdout; Exit 7])) = false →
     drained (s_out (communicate no_validation b64decode_rfc4648 running_world
                       [Read fd_stdout; Exit 7]))
     ∧ drained (s_err (communicate no_validation b64decode_rfc4648 running_world
                         [Read fd_stdout; Exit 7]))
     ∧ ∃ pre, s_sent (communicate no_validation b64decode_rfc4648 running_world
                        [Read fd_stdout; Exit 7]) = pre ++ [exit_msg 7]
              ∧ no_exit_msg pre)
  ∧ ∃ reads pre,
      Forall is_read reads
      ∧ s_phase (communicate no_validation b64decode_rfc4648 running_world
                   ([Read fd_stdout; Exit 7] ++ reads)) = Closed
      ∧ s_sent (communicate no_validation b64decode_rfc4648 running_world
                  ([Read fd_stdout; Exit 7] ++ reads)) = pre ++ [exit_msg 7]
      ∧ no_exit_msg pre.
Proof.
  eapply (exit_once_after_both_pipes no_validation b64decode_rfc4648 running_world
            [Read fd_stdout; Exit 7] _ 2 7).
  - vm_compute. reflexivity.
  - vm_compute. reflexivity.
  - lia.
  - by apply no_cancel_in.
  - reflexivity.
Defined.

Example complete_session :
  s_sent (communicate no_validation b64decode_rfc4648 running_world
            [Read fd_stdout; Exit 7; Read fd_stderr; Read fd_stdout;
             Read fd_stderr; Read fd_stdout])
  = [stream_msg (encode_utf8 "ab") "stdout"; stream_msg (encode_utf8 "E") "stderr";
     stream_msg (encode_utf8 "c") "stdout"; exit_msg 7].
Proof. by vm_compute. Qed.

(** C4: the stdin message that comes first ends the session; the run
    message behind it is never received and no child is started. *)
Lemma stdin_first_closes_session :
  s_phase (spawn no_validation b64decode_rfc4648 stdin_first_world [Receive; Exit 0])
  = Closed
  ∧ s_process (spawn no_validation b64decode_rfc4648 stdin_first_world [Receive; Exit 0])
    = None
  ∧ s_inbox (spawn no_validation b64decode_rfc4648 stdin_first_world [Receive; Exit 0])
    = [WsText (Some example_run)]
  ∧ s_sent (spawn no_validation b64decode_rfc4648 stdin_first_world [Receive; Exit 0])
    = [].
Proof. repeat split; by vm_compute. Qed.

Lemma first_message_not_run_example :
  spawn no_validation b64decode_rfc4648 stdin_first_world [Receive; Exit 0]
  = over example_fs [WsText (Some example_run)] None.
Proof.
  apply (first_message_not_run_ends_session no_validation b64decode_rfc4648
           stdin_first_world [Receive; Exit 0]
           [("type", JStr "stdin"); ("data", JStr (b64encode (encode_utf8 "hi")))]
           [WsText (Some example_run)] "stdin").
  - reflexivity.
  - reflexivity.
  - reflexivity.
  - by left.
Defined.

(** C5 at the second run message of [example_session]. *)
Lemma later_run_ignored_example :
  s_process (step no_validation b64decode_rfc4648 Receive example_session)
  = s_process example_session
  ∧ s_calls (step no_validation b64decode_rfc4648 Receive example_session)
    = s_calls example_session
  ∧ s_sent (step no_validation b64decode_rfc4648 Receive example_session)
    = s_sent example_session
  ∧ s_phase (step no_validation b64decode_rfc4648 Receive example_session)
    = s_phase example_session
  ∧ s_wait (step no_validation b64decode_rfc4648 Receive example_session)
    = s_wait example_session
  ∧ s_out (step no_validation b64decode_rfc4648 Receive example_session)
    = s_out example_session
  ∧ s_err (step no_validation b64decode_rfc4648 Receive example_session)
    = s_err example_session.
Proof.
  apply (later_run_ignored no_validation b64decode_rfc4648 example_session
           [("type", JStr "run"); ("args", JList [JStr "/bin/true"])]
           [WsText (Some (make_stdin_msg (encode_utf8 "hi")))]).
  - by vm_compute.
  - reflexivity.
Defined.

(** C6 in the session of the reference client: PYTHONUNBUFFERED is in the
    run message and in [os.environ]. *)
Lemma child_environment_example :
  ∃ p, s_process (communicate no_validation b64decode_rfc4648 running_world [])
       = Some p
    ∧ ∃ overlay,
        got_or_default
          [("type", JStr "run");
           ("args", JList [JStr "/usr/bin/env"; JStr "python3"; JStr "main.py"]);
           ("stdout", JStr "pipe"); ("stderr", JStr "pipe");
           ("chunk_size", JInt 2);
           ("env", JDict [("PYTHONUNBUFFERED", JStr "1")]);
           ("files", JDict [("main.py", JStr "print(1)")])]
          "env" (JDict []) (JDict overlay)
        ∧ ∀ name,
            ChainMap_getitem (p_env p) name
            = match dict_get overlay name with
              | Some v => Some v
              | None => JStr <$> environ_get (w_environ running_world) name
              end
            ∧ dict_get (ChainMap_items (p_env p)) name
              = ChainMap_getitem (p_env p) name.
Proof.
  eexists. split; [by vm_compute|].
  eapply (child_environment no_validation b64decode_rfc4648 running_world []).
  - reflexivity.
  - by vm_compute.
Defined.

Example child_environment_values :
  ∃ p, s_process (communicate no_validation b64decode_rfc4648 running_world [])
       = Some p
    ∧ dict_get (ChainMap_items (p_env p)) "PYTHONUNBUFFERED" = Some (JStr "1")
    ∧ dict_get (ChainMap_items (p_env p)) "PATH" = Some (JStr "/usr/bin:/bin")
    ∧ dict_get (ChainMap_items (p_env p)) "HOME" = None.
Proof. eexists. repeat split; by vm_compute. Qed.

(** C7 at the stdin message of [example_session]. *)
Lemma stdin_msg_applied_example :
  parse_stdin_msg no_validation b64decode_rfc4648
    (make_stdin_msg (encode_utf8 "hi")) = Ok (Some (encode_utf8 "hi"))
  ∧ s_calls (step no_validation b64decode_rfc4648 Receive example_session_2)
    = s_calls example_session_2 ++ [stdin_write (encode_utf8 "hi")].
Proof.
  apply (stdin_msg_applied no_validation b64decode_rfc4648 example_session_2
           [("type", JStr "stdin"); ("data", JStr (b64encode (encode_utf8 "hi")))]
           [] (b64encode (encode_utf8 "hi")) (encode_utf8 "hi"));
    by vm_compute.
Defined.

Example stdin_closed_on_empty_payload :
  s_calls (ReceiveOp_body no_validation b64decode_rfc4648
             (WsText (Some (make_stdin_msg []))) example_session)
  = [stdin_close].
Proof. by vm_compute. Qed.

(** C8 in a session with stderr "stdout". *)
Lemma stderr_merged_example :
  s_err (communicate no_validation b64decode_rfc4648 merged_world
           [Read fd_stdout; Read fd_stderr; Read fd_stdout]) = None
  ∧ Forall (λ m, is_stream_msg "stdout" m ∨ is_exit_msg m)
      (s_sent (communicate no_validation b64decode_rfc4648 merged_world
                 [Read fd_stdout; Read fd_stderr; Read fd_stdout]))
  ∧ (∀ m, m ∈ s_sent (communicate no_validation b64decode_rfc4648 merged_world
                        [Read fd_stdout; Read fd_stderr; Read fd_stdout]) →
          py_get m "type" ≠ Ok (Some (JStr "stderr")))
  ∧ (∀ p, s_process (communicate no_validation b64decode_rfc4648 merged_world
                       [Read fd_stdout; Read fd_stderr; Read fd_stdout]) = Some p →
       p_stderr p = None
       ∧ ∀ pipe, p_stdout p = Some pipe → pipe = (w_writes merged_world).*2).
Proof.
  apply (stderr_merged_into_stdout no_validation b64decode_rfc4648 merged_world
           [Read fd_stdout; Read fd_stderr; Read fd_stdout]
           [("type", JStr "run"); ("args", JList [JStr "/bin/sh"]);
            ("stderr", JStr "stdout")] []).
  - reflexivity.
  - reflexivity.
Defined.

Example stderr_merged_sent :
  s_sent (communicate no_validation b64decode_rfc4648 merged_world
            [Read fd_stdout; Read fd_stderr; Read fd_stdout; Exit 0; Read fd_stdout])
  = [stream_msg (encode_utf8 "abc") "stdout"; stream_msg (encode_utf8 "E") "stdout";
     exit_msg 0].
Proof. by vm_compute. Qed.


Example nested_key_not_found :
  (TempDirectory example_fs ["tmp"] example_draws
     (JDict [("main.py", JStr "print(1)"); ("sub/main.py", JStr "print(2)")])).2
  = Raise FileNotFoundError.
Proof. by vm_compute. Qed.

Example flat_key_staged :
  (TempDirectory example_fs ["tmp"] example_draws (JDict [("main.py", JStr "print(1)")])).2
  = Ok "/tmp/aiy-bcdefghi"
  ∧ (TempDirectory example_fs ["tmp"] example_draws
       (JDict [("main.py", JStr "print(1)")])).1
    !! ["tmp"; "aiy-bcdefghi"; "main.py"] = Some (File (encode_utf8 "print(1)")).
Proof. split; vm_compute; reflexivity. Qed.

(** * Further properties *)

(** ** Base64: what is encoded decodes to itself *)

Lemma b64_value_char k : (k < 64)%N → b64_value (b64_char k) = Some k.
Proof.
  intros Hk. rewrite <- (N2Nat.id k) at 2. rewrite <- (N2Nat.id k) at 1.
  assert (Hi : N.to_nat k < 64) by lia. revert Hi. generalize (N.to_nat k) as i.
  intros i Hi. do 64 (destruct i as [|i]; [reflexivity|]). lia.
Qed.

Lemma land_63_bound n : (N.land n 63 < 64)%N.
Proof.
  change 63%N with (N.ones 6). rewrite N.land_ones.
  apply N.mod_upper_bound. done.
Qed.

Lemma byte_of_to_N a : byte_of (Byte.to_N a) = a.
Proof. by destruct a. Qed.

Lemma byte_bound a : (Byte.to_N a < 256)%N.
Proof. pose proof (Byte.to_N_bounded a). lia. Qed.

Lemma Z_of_byte (a : N) : (a < 256)%N → Z.of_N a = Z.land (Z.of_N a) (Z.ones 8).
Proof. intros H. rewrite Z.land_ones by lia. rewrite Z.mod_small; lia. Qed.

Ltac N_to_Z_bits :=
  apply N2Z.inj;
  repeat first [rewrite N2Z.inj_lor | rewrite N2Z.inj_land | rewrite N2Z.inj_shiftl
               | rewrite N2Z.inj_shiftr];
  change (Z.of_N 63) with (Z.ones 6); change (Z.of_N 255) with (Z.ones 8);
  change (Z.of_N 18) with 18%Z; change (Z.of_N 16) with 16%Z;
  change (Z.of_N 12) with 12%Z; change (Z.of_N 8) with 8%Z;
  change (Z.of_N 6) with 6%Z; change (Z.of_N 0) with 0%Z.

(** The four sextets of three bytes give the three bytes back. *)
Lemma sextets_of_three (a b c : N) :
  (a < 256)%N → (b < 256)%N → (c < 256)%N →
  let n := N.lor (N.lor (N.shiftl a 16) (N.shiftl b 8)) c in
  let n' := N.lor (N.lor (N.shiftl (N.land (N.shiftr n 18) 63) 18)
                         (N.shiftl (N.land (N.shiftr n 12) 63) 12))
                  (N.lor (N.shiftl (N.land (N.shiftr n 6) 63) 6)
                         (N.land (N.shiftr n 0) 63)) in
  N.land (N.shiftr n' 16) 255 = a
  ∧ N.land (N.shiftr n' 8) 255 = b
  ∧ N.land n' 255 = c.
Proof.
  intros Ha Hb Hc n n'. subst n n'.
  repeat split; N_to_Z_bits;
    rewrite (Z_of_byte a Ha), (Z_of_byte b Hb), (Z_of_byte c Hc);
    prove_Zeq_bitwise.
Qed.

Lemma sextets_of_two (a b : N) :
  (a < 256)%N → (b < 256)%N →
  let n := N.lor (N.shiftl a 16) (N.shiftl b 8) in
  let n' := N.lor (N.lor (N.shiftl (N.land (N.shiftr n 18) 63) 18)
                         (N.shiftl (N.land (N.shiftr n 12) 63) 12))
                  (N.shiftl (N.land (N.shiftr n 6) 63) 6) in
  N.land (N.shiftr n' 16) 255 = a ∧ N.land (N.shiftr n' 8) 255 = b.
Proof.
  intros Ha Hb n n'. subst n n'.
  repeat split; N_to_Z_bits;
    rewrite (Z_of_byte a Ha), (Z_of_byte b Hb);
    prove_Zeq_bitwise.
Qed.

Lemma sextets_of_one (a : N) :
  (a < 256)%N →
  let n := N.shiftl a 16 in
  let hi := N.lor (N.shiftl (N.land (N.shiftr n 18) 63) 18)
                  (N.shiftl (N.land (N.shiftr n 12) 63) 12) in
  N.land (N.shiftr hi 16) 255 = a.
Proof.
  intros Ha n hi. subst n hi. N_to_Z_bits. rewrite (Z_of_byte a Ha).
  prove_Zeq_bitwise.
Qed.

Lemma byte_of_land n a : N.land n 255 = Byte.to_N a → byte_of n = a.
Proof. unfold byte_of. intros ->. by destruct a. Qed.

Lemma list_ascii_of_string_app s t :
  list_ascii_of_string (s +:+ t) = list_ascii_of_string s ++ list_ascii_of_string t.
Proof.
  induction s as [|a s IH]; [done|].
  rewrite append_cons. simpl. by rewrite IH.
Qed.

Lemma b64decode_canonical_quad x y z w rest :
  (x < 64)%N → (y < 64)%N → (z < 64)%N → (w < 64)%N →
  b64decode_canonical (b64_char x :: b64_char y :: b64_char z :: b64_char w :: rest)
  = tl ← b64decode_canonical rest;
    Ok (byte_of (N.shiftr (N.lor (N.lor (N.shiftl x 18) (N.shiftl y 12))
                                 (N.lor (N.shiftl z 6) w)) 16)
        :: byte_of (N.shiftr (N.lor (N.lor (N.shiftl x 18) (N.shiftl y 12))
                                    (N.lor (N.shiftl z 6) w)) 8)
        :: byte_of (N.lor (N.lor (N.shiftl x 18) (N.shiftl y 12))
                          (N.lor (N.shiftl z 6) w))
        :: tl).
Proof.
  intros Hx Hy Hz Hw. cbn [b64decode_canonical].
  by rewrite !b64_value_char.
Qed.

Lemma b64decode_canonical_encode data :
  b64decode_canonical (list_ascii_of_string (b64encode data)) = Ok data.
Proof.
  remember (length data) as m eqn:Hm. revert data Hm.
  induction m as [m IH] using lt_wf_ind. intros data Hm.
  destruct data as [|a [|b [|c rest]]].
  - done.
  - pose proof (sextets_of_one (Byte.to_N a) (byte_bound a)) as H1.
    cbv zeta in H1. apply byte_of_land in H1.
    unfold b64encode, b64_quad. simpl list_ascii_of_string.
    cbn [b64decode_canonical].
    rewrite !b64_value_char by apply land_63_bound.
    change (b64_value "="%char) with (@None N). simpl. by rewrite H1.
  - pose proof (sextets_of_two (Byte.to_N a) (Byte.to_N b) (byte_bound a) (byte_bound b))
      as [H1 H2].
    apply byte_of_land in H1, H2.
    unfold b64encode, b64_quad. simpl list_ascii_of_string.
    cbn [b64decode_canonical].
    rewrite !b64_value_char by apply land_63_bound.
    change (b64_value "="%char) with (@None N). simpl. by rewrite H1, H2.
  - pose proof (sextets_of_three (Byte.to_N a) (Byte.to_N b) (Byte.to_N c)
                  (byte_bound a) (byte_bound b) (byte_bound c)) as (H1 & H2 & H3).
    apply byte_of_land in H1, H2, H3.
    change (b64encode (a :: b :: c :: rest))
      with (b64_quad (N.lor (N.lor (N.shiftl (Byte.to_N a) 16) (N.shiftl (Byte.to_N b) 8))
                            (Byte.to_N c)) 0 +:+ b64encode rest).
    rewrite list_ascii_of_string_app. unfold b64_quad. simpl list_ascii_of_string.
    simpl app.
    rewrite b64decode_canonical_quad by apply land_63_bound.
    rewrite (IH (length rest)) by (subst m; simpl; lia || done).
    cbn [mbind result_bind]. by rewrite H1, H2, H3.
Qed.

Lemma decode_encode_utf8 s : decode_utf8 (encode_utf8 s) = s.
Proof. apply String.string_of_list_byte_of_string. Qed.

Lemma b64decode_rfc4648_encode data :
  b64decode_rfc4648 (encode_utf8 (b64encode data)) = Ok data.
Proof.
  unfold b64decode_rfc4648. rewrite decode_encode_utf8.
  apply b64decode_canonical_encode.
Qed.

(** ** The client's messages, as the server reads them *)

(** X1: the client's [decode] undoes its [encode], for every byte string. *)
Theorem client_decode_encode data :
  client_decode b64decode_rfc4648 (client_encode data) = Ok data.
Proof. apply b64decode_rfc4648_encode. Qed.

(** The six values the client puts into [make_run_msg] are the six values
    [parse_run_msg] returns, whatever they are, under every validator that
    lets the message through. *)
Lemma parse_make_run_msg valid args stdout stderr chunk_size env files :
  valid (make_run_msg args stdout stderr chunk_size env files) = true →
  parse_run_msg valid (make_run_msg args stdout stderr chunk_size env files)
  = Ok (Some (args, chunk_size, stdout, stderr, env, files)).
Proof.
  intros Hv. unfold parse_run_msg, validate_msg. by rewrite Hv.
Qed.

Section ClientToServer.
Context (valid : json → bool).

Local Abbreviation step := (step valid b64decode_rfc4648).

(** X3: a stdin message made by the client's [make_stdin_msg] from the
    bytes [data] makes the receive loop write exactly [data] to the child's
    stdin, or close the stdin when [data] is empty; nothing is logged. *)
Theorem client_stdin_reaches_child s data rest :
  s_phase s = Joining →
  s_receiving s = true →
  s_inbox s = WsText (Some (make_stdin_msg data)) :: rest →
  valid (make_stdin_msg data) = true →
  s_calls (step Receive s)
  = s_calls s ++ [match data with [] => stdin_close | _ => stdin_write data end]
  ∧ s_log (step Receive s) = s_log s
  ∧ s_inbox (step Receive s) = rest.
Proof.
  intros Hph Hrc Hin Hv.
  assert (Hparse : parse_stdin_msg valid b64decode_rfc4648 (make_stdin_msg data)
                   = Ok (Some data)).
  { apply (parse_stdin_msg_stdin _ _ _ (b64encode data)); try done.
    apply b64decode_rfc4648_encode. }
  unfold step, ReceiveOp. rewrite Hph, Hrc, Hin.
  unfold ReceiveOp_body. cbn [json_loads].
  unfold make_stdin_msg in *.
  rewrite (parse_signal_msg_other _ _ "stdin"), Hv, Hparse by done.
  by destruct data.
Qed.

End ClientToServer.

(** ** What every session keeps, cancelled or not *)

Lemma read_some_conserves n pipe :
  (read_some n pipe).1 ++ concat (read_some n pipe).2 = concat pipe.
Proof.
  induction pipe as [|[|b piece] pipe IH]; [done|done|].
  cbn [read_some fst snd]. cbn [concat].
  rewrite <- (take_drop n (b :: piece)) at 3.
  destruct (drop n (b :: piece)) as [|x more].
  - by rewrite app_nil_r.
  - cbn [concat]. by rewrite !app_assoc.
Qed.

Lemma read_some_bound n pipe : length (read_some n pipe).1 ≤ n.
Proof.
  induction pipe as [|[|b piece] pipe IH]; simpl; [lia|done|].
  destruct n; simpl; [lia|]. rewrite length_take. lia.
Qed.

Lemma stream_read_conserves n pipe data rest :
  stream_read n pipe = Ok (data, rest) → data ++ concat rest = concat pipe.
Proof.
  unfold stream_read.
  destruct (as_int n) as [z|].
  - destruct (z =? 0)%Z; [by intros [= <- <-]|].
    destruct (z <? 0)%Z; [intros [= <- <-]; apply app_nil_r|].
    intros [= Hread].
    pose proof (read_some_conserves (Z.to_nat z) pipe) as H.
    by rewrite Hread in H.
  - destruct n; try done.
    destruct (PrimFloat.eqb f 0); [by intros [= <- <-]|].
    destruct (PrimFloat.ltb f 0); [intros [= <- <-]; apply app_nil_r|done].
Qed.

Lemma piece_stream_msg tag data tag' :
  piece tag (stream_msg data tag') = if String.eqb tag' tag then data else [].
Proof.
  unfold piece, stream_msg. destruct (String.eqb tag' tag); [|done].
  by rewrite b64decode_rfc4648_encode.
Qed.

Lemma piece_exit_msg tag code : piece tag (exit_msg code) = [].
Proof. done. Qed.

Lemma forwarded_snoc tag sent m :
  forwarded tag (sent ++ [m]) = forwarded tag sent ++ piece tag m.
Proof.
  unfold forwarded. rewrite fmap_app, concat_app. simpl. by rewrite app_nil_r.
Qed.

Lemma kind_eqb r r' : String.eqb (kind r) (kind r') = bool_decide (r = r').
Proof. by destruct r, r'. Qed.

Lemma filter_is_kill_snoc calls c :
  length (List.filter is_kill (calls ++ [c]))
  = length (List.filter is_kill calls) + (if is_kill c then 1 else 0).
Proof.
  rewrite List.filter_app, length_app. simpl. by destruct (is_kill c).
Qed.

Section SessionInvariants.
Context (valid : json → bool) (b64decode : bytes → result bytes).

Ltac readers :=
  intros;
  repeat match goal with r : fd |- _ => destruct r end;
  simpl in *; (done || congruence).

Ltac session_steps :=
  unfold step, join, conclude, wait_process, operations_done,
    ReceiveOp, ReceiveOp_body, ReadOp, signal_process;
  simpl;
  repeat (case_match; simplify_eq/=).

Lemma exit_last_step ev s : exit_last s → exit_last (step valid b64decode ev s).
Proof.
  destruct s as [ph pr cwd cs wt o e rc ib snt cl lg rs fs].
  unfold exit_last, no_exit_msg. intros H. session_steps; try done.
  all: try (by left).
  all: try (right; eexists _, _; split; [done|]; split; [|done]; try done).
  all: try (apply Forall_app; split; [done|]; constructor; [apply stream_msg_not_exit|done]).
Qed.

Lemma child_accounted_step ev s :
  child_accounted s → child_accounted (step valid b64decode ev s).
Proof.
  destruct s as [ph pr cwd cs wt o e rc ib snt cl lg rs fs].
  unfold child_accounted, kills. intros H. session_steps;
    rewrite ?filter_is_kill_snoc; simpl; try done; try lia; eauto.
  all: try (split; [lia|]; eauto).
  all: try (destruct H as [-> ?]; split; [lia|]; eauto).
Qed.

Lemma run_invariant (P : session → Prop) evs s :
  (∀ ev s, P s → P (step valid b64decode ev s)) →
  P s → P (run valid b64decode evs s).
Proof.
  intros Hstep. revert s. induction evs as [|ev evs IH]; intros s Hs; [done|].
  apply IH, Hstep, Hs.
Qed.

(** What one round of a read loop does. *)
Lemma ReadOp_effect r s :
  ReadOp r s = s
  ∨ (∃ pipe t,
       reader r s = Some (Running pipe)
       ∧ ReadOp r s = set_reader r (Some t) s
       ∧ ((∃ e, t = Failed e)
          ∨ ∃ rest, t = Finished rest
                    ∧ stream_read (s_chunk_size s) pipe = Ok ([], rest)))
  ∨ (∃ pipe b data rest,
       reader r s = Some (Running pipe)
       ∧ stream_read (s_chunk_size s) pipe = Ok (b :: data, rest)
       ∧ ReadOp r s = send_json (stream_msg (b :: data) (kind r))
                        (set_reader r (Some (Running rest)) s)).
Proof.
  unfold ReadOp. destruct (reader r s) as [[pipe| |]|]; auto.
  destruct (stream_read _ _) as [[[|b data] rest]|e] eqn:Hread.
  - right; left. eauto 10.
  - right; right. eauto 10.
  - right; left. eauto 10.
Qed.

Lemma conclude_effect s :
  (∃ code, s_wait s = Some code
     ∧ conclude s
       = leave None (send_json (exit_msg code) (set_receive false (s_inbox s) s)))
  ∨ (s_wait s = None
     ∧ conclude s
       = set_phase Reaping (call_process kill (set_receive false (s_inbox s) s))).
Proof.
  unfold conclude, wait_process. simpl.
  destruct (s_wait s) eqn:Hw; simpl; rewrite ?Hw; eauto.
Qed.

Lemma join_effect s :
  join s = s
  ∨ ∃ code, s_wait s = Some code
      ∧ join s
        = leave None (send_json (exit_msg code) (set_receive false (s_inbox s) s)).
Proof.
  unfold join, operations_done.
  destruct (s_wait s) as [code|] eqn:Hw; [|by left].
  destruct (_ && _); [|by left]. right. exists code. split; [done|].
  destruct (conclude_effect s) as [(c & Hc & ->)|[Hc _]]; congruence.
Qed.

(** What a step does to the read loops and to what was sent: apart from
    the exit message, only a round of a running read loop changes them. *)
Lemma step_streams ev s :
  (∃ tail,
     s_sent (step valid b64decode ev s) = s_sent s ++ tail
     ∧ (tail = [] ∨ ∃ code, tail = [exit_msg code])
     ∧ ((s_out (step valid b64decode ev s) = s_out s
         ∧ s_err (step valid b64decode ev s) = s_err s)
        ∨ ∃ r pipe t,
            reader r s = Some (Running pipe)
            ∧ reader r (step valid b64decode ev s) = Some t
            ∧ (∀ r', r' ≠ r → reader r' (step valid b64decode ev s) = reader r' s)
            ∧ ((∃ e, t = Failed e)
               ∨ ∃ rest, t = Finished rest
                         ∧ stream_read (s_chunk_size s) pipe = Ok ([], rest))))
  ∨ (∃ r pipe b data rest,
       reader r s = Some (Running pipe)
       ∧ stream_read (s_chunk_size s) pipe = Ok (b :: data, rest)
       ∧ reader r (step valid b64decode ev s) = Some (Running rest)
       ∧ (∀ r', r' ≠ r → reader r' (step valid b64decode ev s) = reader r' s)
       ∧ s_sent (step valid b64decode ev s)
         = s_sent s ++ [stream_msg (b :: data) (kind r)]).
Proof.
  assert (Hsame : ∀ s', s_sent s' = s_sent s → s_out s' = s_out s → s_err s' = s_err s →
    ∃ tail, s_sent s' = s_sent s ++ tail
      ∧ (tail = [] ∨ ∃ code, tail = [exit_msg code])
      ∧ ((s_out s' = s_out s ∧ s_err s' = s_err s)
         ∨ ∃ r pipe t,
             reader r s = Some (Running pipe)
             ∧ reader r s' = Some t
             ∧ (∀ r', r' ≠ r → reader r' s' = reader r' s)
             ∧ ((∃ e, t = Failed e)
                ∨ ∃ rest, t = Finished rest
                          ∧ stream_read (s_chunk_size s) pipe = Ok ([], rest)))).
  { intros s' -> -> ->. exists []. rewrite app_nil_r. auto. }
  assert (Hexit : ∀ s' code, s_sent s' = s_sent s ++ [exit_msg code] →
    s_out s' = s_out s → s_err s' = s_err s →
    ∃ tail, s_sent s' = s_sent s ++ tail
      ∧ (tail = [] ∨ ∃ code, tail = [exit_msg code])
      ∧ ((s_out s' = s_out s ∧ s_err s' = s_err s)
         ∨ ∃ r pipe t,
             reader r s = Some (Running pipe)
             ∧ reader r s' = Some t
             ∧ (∀ r', r' ≠ r → reader r' s' = reader r' s)
             ∧ ((∃ e, t = Failed e)
                ∨ ∃ rest, t = Finished rest
                          ∧ stream_read (s_chunk_size s) pipe = Ok ([], rest)))).
  { intros s' code -> -> ->. exists [exit_msg code]. eauto 10. }
  assert (Hread : ∀ r, s_phase s ≠ Closed →
    (∃ tail,
       s_sent (join (ReadOp r s)) = s_sent s ++ tail
       ∧ (tail = [] ∨ ∃ code, tail = [exit_msg code])
       ∧ ((s_out (join (ReadOp r s)) = s_out s ∧ s_err (join (ReadOp r s)) = s_err s)
          ∨ ∃ r0 pipe t,
              reader r0 s = Some (Running pipe)
              ∧ reader r0 (join (ReadOp r s)) = Some t
              ∧ (∀ r', r' ≠ r0 → reader r' (join (ReadOp r s)) = reader r' s)
              ∧ ((∃ e, t = Failed e)
                 ∨ ∃ rest, t = Finished rest
                           ∧ stream_read (s_chunk_size s) pipe = Ok ([], rest))))
    ∨ (∃ r0 pipe b data rest,
         reader r0 s = Some (Running pipe)
         ∧ stream_read (s_chunk_size s) pipe = Ok (b :: data, rest)
         ∧ reader r0 (join (ReadOp r s)) = Some (Running rest)
         ∧ (∀ r', r' ≠ r0 → reader r' (join (ReadOp r s)) = reader r' s)
         ∧ s_sent (join (ReadOp r s))
           = s_sent s ++ [stream_msg (b :: data) (kind r0)])).
  { intros r _.
    destruct (ReadOp_effect r s)
      as [Hid|[(pipe & t & Hr & Hop & Ht)|(pipe & b & data & rest & Hr & Hrd & Hop)]].
    - left. rewrite Hid.
      destruct (join_effect s) as [->|(code & _ & ->)];
        [by apply Hsame|by apply (Hexit _ code)].
    - left. rewrite Hop.
      destruct (join_effect (set_reader r (Some t) s)) as [->|(code & _ & ->)].
      + exists []. rewrite app_nil_r. split; [done|]. split; [by left|].
        right. exists r, pipe, t. repeat split; try done; readers.
      + exists [exit_msg code]. split; [done|]. split; [eauto|].
        right. exists r, pipe, t. repeat split; try done; readers.
    - right. rewrite Hop. exists r, pipe, b, data, rest.
      assert (Hj : join (send_json (stream_msg (b :: data) (kind r))
                           (set_reader r (Some (Running rest)) s))
                   = send_json (stream_msg (b :: data) (kind r))
                       (set_reader r (Some (Running rest)) s)).
      { unfold join, operations_done. simpl.
        destruct (s_wait s); [|done]. by destruct r; simpl; rewrite ?andb_false_r. }
      rewrite Hj. repeat split; try done; readers. }
  unfold step. destruct (s_phase s) eqn:Hph.
  - destruct ev as [code|r| |].
    + left. destruct (s_wait s) eqn:Hw.
      * destruct (join_effect s) as [->|(c & _ & ->)];
          [by apply Hsame|by apply (Hexit _ c)].
      * destruct (join_effect (set_wait code s)) as [->|(c & _ & ->)];
          [by apply Hsame|by apply (Hexit _ c)].
    + by apply Hread.
    + left. destruct (ReceiveOp_frame valid b64decode s) as (_ & _ & ? & ? & ? & _).
      by apply Hsame.
    + left. destruct (conclude_effect s) as [(c & _ & ->)|[_ ->]];
        [by apply (Hexit _ c)|by apply Hsame].
  - destruct ev as [code|r| |].
    + left. by apply (Hexit _ code).
    + destruct (ReadOp_effect r s)
        as [Hid|[(pipe & t & Hr & Hop & Ht)|(pipe & b & data & rest & Hr & Hrd & Hop)]].
      * left. rewrite Hid. by apply Hsame.
      * left. rewrite Hop. exists []. rewrite app_nil_r. split; [done|].
        split; [by left|]. right. exists r, pipe, t.
        repeat split; try done; readers.
      * right. rewrite Hop. exists r, pipe, b, data, rest.
        repeat split; try done; readers.
    + left. by apply Hsame.
    + left. by apply Hsame.
  - left. by apply Hsame.
Qed.

Lemma sized_step n ev s :
  s_chunk_size s = JInt n → (0 < n)%Z →
  Forall (sized n) (s_sent s) → Forall (sized n) (s_sent (step valid b64decode ev s)).
Proof.
  intros Hcs Hn H.
  destruct (step_streams ev s)
    as [(tail & -> & Htail & _)|(r & pipe & b & data & rest & _ & Hread & _ & _ & ->)];
    apply Forall_app; (split; [done|]).
  - destruct Htail as [->|[code ->]]; [done|].
    constructor; [|done]. left. by eexists.
  - constructor; [|done]. right. exists (b :: data), r. split; [done|].
    rewrite Hcs, stream_read_positive in Hread by done. injection Hread as Hread.
    pose proof (read_some_bound (Z.to_nat n) pipe) as Hbound.
    rewrite Hread in Hbound. simpl in *. lia.
Qed.

Lemma forwarded_tail tag sent tail :
  tail = [] ∨ (∃ code, tail = [exit_msg code]) →
  forwarded tag (sent ++ tail) = forwarded tag sent.
Proof.
  intros [->|[code ->]]; [by rewrite app_nil_r|].
  by rewrite forwarded_snoc, piece_exit_msg, app_nil_r.
Qed.

Lemma conserved_step r pipe ev s :
  conserved r pipe s → conserved r pipe (step valid b64decode ev s).
Proof.
  unfold conserved. intros H.
  destruct (step_streams ev s)
    as [(tail & Hsent & Htail & Hreaders)
       |(r0 & pipe0 & b & data & rest & Hr0 & Hread & Hr0' & Hother & Hsent)];
    rewrite Hsent.
  - rewrite forwarded_tail by done.
    destruct Hreaders as [[Ho He]|(r0 & pipe0 & t & Hr0 & Hr0' & Hother & Ht)].
    + by replace (reader r (step valid b64decode ev s)) with (reader r s)
        by (destruct r; simpl; congruence).
    + destruct (decide (r = r0)) as [->|Hne].
      * rewrite Hr0'. rewrite Hr0 in H.
        destruct Ht as [[e ->]|(rest & -> & Hread)]; [eauto|].
        apply stream_read_conserves in Hread. simpl in Hread. by rewrite Hread.
      * by rewrite Hother.
  - rewrite forwarded_snoc, piece_stream_msg, kind_eqb.
    destruct (decide (r = r0)) as [->|Hne].
    + rewrite bool_decide_true by done. rewrite Hr0'. rewrite Hr0 in H.
      apply stream_read_conserves in Hread. by rewrite <- H, <- Hread, app_assoc.
    + rewrite bool_decide_false by done. rewrite app_nil_r. by rewrite Hother.
Qed.
End SessionInvariants.

Lemma kills_elem s : kills s ≠ 0 ↔ kill ∈ s_calls s.
Proof.
  unfold kills. induction (s_calls s) as [|c calls IH]; simpl.
  - split; [done|]. by intros ?%elem_of_nil.
  - rewrite elem_of_cons. destruct c; simpl; try (rewrite IH; naive_solver).
    split; [auto|lia].
Qed.

Section SessionTheorems.
Context (valid : json → bool) (b64decode : bytes → result bytes).

Lemma communicate_invariant (P : session → Prop) w evs :
  (∀ fs inbox e, P (over fs inbox e)) →
  (∀ fs inbox cwd chunk_size p, P (started fs inbox cwd chunk_size p)) →
  (∀ ev s, P s → P (step valid b64decode ev s)) →
  P (communicate valid b64decode w evs).
Proof.
  intros Hover Hstarted Hstep. unfold communicate.
  destruct (receive_json (w_inbox w)) as [first inbox].
  destruct (first ≫= parse_run_msg valid) as [[[[[[[args chunk] out] err] env] files]|]|];
    try apply Hover.
  destruct (TempDirectory _ _ _ _) as [fs [cwd|]]; try apply Hover.
  destruct (start_process _ _ _ _ _ _) as [p|]; try apply Hover.
  apply run_invariant; [done|apply Hstarted].
Qed.


(** X6: the child is never left behind.  [process.kill()] is called at
    most once in a session; while [wait_process] awaits the child after a
    cancellation, the child has been killed; and when communicate is over
    with a child started, the child has ended or has been killed. *)
Theorem child_never_left_behind w evs :
  kills (communicate valid b64decode w evs) ≤ 1
  ∧ (s_phase (communicate valid b64decode w evs) = Reaping →
     kill ∈ s_calls (communicate valid b64decode w evs))
  ∧ (s_phase (communicate valid b64decode w evs) = Closed →
     s_process (communicate valid b64decode w evs) ≠ None →
     is_Some (s_wait (communicate valid b64decode w evs))
     ∨ kill ∈ s_calls (communicate valid b64decode w evs)).
Proof.
  assert (H : child_accounted (communicate valid b64decode w evs)).
  { apply communicate_invariant.
    - intros. unfold child_accounted, kills. simpl. split; [lia|by left].
    - done.
    - apply child_accounted_step. }
  unfold child_accounted in H. rewrite <- !kills_elem.
  destruct (s_phase (communicate valid b64decode w evs)).
  - repeat split; try done. lia.
  - destruct H as [H1 H2]. repeat split; try done; lia.
  - destruct H as [H1 H2]. repeat split; try done.
    intros _ Hp. destruct H2 as [?|[?|?]]; [done|by left|right; lia].
Qed.

Lemma run_closed evs s : s_phase s = Closed → run valid b64decode evs s = s.
Proof.
  intros Hph. induction evs as [|ev evs IH]; [done|].
  rewrite run_cons. unfold step. by rewrite Hph.
Qed.

Lemma step_joining ev s :
  s_phase s = Joining → kills s = 0 → ev ≠ Cancel →
  kills (step valid b64decode ev s) = 0
  ∧ (s_phase (step valid b64decode ev s) = Joining
     ∨ s_phase (step valid b64decode ev s) = Closed)
  ∧ s_wait (step valid b64decode ev s)
    = match s_wait s with
      | Some code => Some code
      | None => match ev with Exit code => Some code | _ => None end
      end.
Proof.
  destruct s as [ph pr cwd cs wt o e rc ib snt cl lg rs fs].
  unfold kills. simpl. intros -> Hk Hev.
  unfold step, join, conclude, wait_process, operations_done,
    ReceiveOp, ReceiveOp_body, ReadOp, signal_process; simpl.
  repeat (case_match; simplify_eq/=);
    rewrite ?filter_is_kill_snoc; simpl; rewrite ?Hk; auto.
Qed.

Lemma step_cancel_after_exit s code :
  s_phase s = Joining → s_wait s = Some code →
  s_phase (step valid b64decode Cancel s) = Closed
  ∧ kills (step valid b64decode Cancel s) = kills s.
Proof.
  intros Hph Hw. unfold step. rewrite Hph.
  destruct (conclude_effect s) as [(c & _ & ->)|[? _]]; [done|congruence].
Qed.

Lemma run_kill_history evs s :
  s_phase s = Joining → kills s = 0 →
  kills (run valid b64decode evs s) ≠ 0 →
  ∃ pre post, evs = pre ++ Cancel :: post ∧ (Cancel ∉ pre)
    ∧ s_wait s = None ∧ first_exit pre = None.
Proof.
  revert s. induction evs as [|ev evs IH]; intros s Hph Hk Hkill; [done|].
  rewrite run_cons in Hkill.
  assert (ev = Cancel ∨ ev ≠ Cancel) as [->|Hev]
    by (destruct ev; ((by left) || (by right))).
  - destruct (s_wait s) as [code|] eqn:Hw.
    + destruct (step_cancel_after_exit s code Hph Hw) as [Hclosed Hsame].
      rewrite run_closed in Hkill by done. congruence.
    + exists [], evs. repeat split; try done. apply not_elem_of_nil.
  - destruct (step_joining ev s Hph Hk Hev) as (Hk' & [Hph'|Hph'] & Hw').
    + destruct (IH _ Hph' Hk' Hkill) as (pre & post & -> & Hpre & Hnone & Hfirst).
      rewrite Hnone in Hw'.
      exists (ev :: pre), post. repeat split.
      * by apply not_elem_of_cons.
      * by destruct (s_wait s).
      * destruct (s_wait s); [done|]. by destruct ev.
    + rewrite run_closed in Hkill by done. congruence.
Qed.

(** X7: the child is killed only by a cancellation that comes before the
    child has ended: when [process.kill()] was called, the events hold a
    cancellation with no end of the child and no other cancellation before
    it. *)
Theorem kill_only_when_cancelled_before_exit w evs :
  kill ∈ s_calls (communicate valid b64decode w evs) →
  ∃ pre post, evs = pre ++ Cancel :: post ∧ (Cancel ∉ pre) ∧ first_exit pre = None.
Proof.
  intros Hkill. apply kills_elem in Hkill.
  destruct (communicate_cases valid b64decode w evs) as [(fs & inbox & e & Heq)|[p Hp]].
  { by rewrite Heq in Hkill. }
  apply communicate_started in Hp as (d & rest & args & fs & cwd & _ & _ & _ & _ & Hrun).
  rewrite Hrun in Hkill.
  apply run_kill_history in Hkill as (pre & post & ? & ? & _ & ?); eauto.
Qed.

(** *** What is forwarded *)

Lemma conserved_started fs inbox cwd chunk_size p r pipe :
  process_pipe r p = Some pipe →
  conserved r pipe (started fs inbox cwd chunk_size p).
Proof. unfold conserved. destruct r; simpl; by intros ->. Qed.

(** X8: nothing of a pipe of the child is lost, repeated or reordered on
    its way to the client.  At every point of a session, cancelled or not
    and whatever the chunk size, the pipe has its read loop, and the bytes
    of the pieces sent under the tag of the pipe, followed by what the read
    loop has not read yet, are the bytes the pipe carries; of a read loop
    that failed, what was sent is the beginning of them. *)
Theorem pipe_conserved w evs p r pipe :
  s_process (communicate valid b64decode w evs) = Some p →
  process_pipe r p = Some pipe →
  conserved r pipe (communicate valid b64decode w evs).
Proof.
  intros Hp Hpipe. pose proof Hp as Hp'.
  apply communicate_started in Hp' as (d & rest & args & fs & cwd & _ & _ & _ & _ & Hrun).
  rewrite Hrun. apply run_invariant; [apply conserved_step|].
  by apply conserved_started.
Qed.

(** X9: with a positive chunk size [n], every message a session sends is
    the exit message or a piece of at least one and at most [n] bytes. *)
Theorem pieces_within_chunk_size w evs p n :
  s_process (communicate valid b64decode w evs) = Some p →
  s_chunk_size (communicate valid b64decode w evs) = JInt n → (0 < n)%Z →
  Forall (sized n) (s_sent (communicate valid b64decode w evs)).
Proof.
  intros Hp Hcs Hn. pose proof Hp as Hp'.
  apply communicate_started in Hp' as (d & rest & args & fs & cwd & _ & _ & _ & _ & Hrun).
  rewrite Hrun in Hcs |- *. rewrite run_chunk_size in Hcs. simpl in Hcs.
  revert Hcs. generalize (from_option id (JInt 1024) (dict_get d "chunk_size")).
  intros chunk ->.
  apply (run_invariant valid b64decode
           (λ s, s_chunk_size s = JInt n ∧ Forall (sized n) (s_sent s))).
  - intros ev s [Hc Hs]. split; [by rewrite step_chunk_size|by apply sized_step].
  - split; [done|constructor].
Qed.
End SessionTheorems.

(** ** The client's loop over what a session sends *)

Lemma client_loop_stream r data rest out err :
  client_loop b64decode_rfc4648 (stream_msg data (kind r) :: rest) out err
  = match r with
    | fd_stdout => client_loop b64decode_rfc4648 rest (out ++ data) err
    | fd_stderr => client_loop b64decode_rfc4648 rest out (err ++ data)
    end.
Proof.
  destruct r; cbn [client_loop stream_msg kind py_getitem dict_get];
    simpl; by rewrite b64decode_rfc4648_encode.
Qed.

Lemma client_loop_pieces pre tail out err :
  Forall (λ m, ∃ data r, m = stream_msg data (kind r)) pre →
  client_loop b64decode_rfc4648 (pre ++ tail) out err
  = client_loop b64decode_rfc4648 tail
      (out ++ forwarded "stdout" pre) (err ++ forwarded "stderr" pre).
Proof.
  intros Hpre. revert out err.
  induction Hpre as [|m pre (data & r & ->) Hpre IH]; intros out err.
  - unfold forwarded. simpl. by rewrite !app_nil_r.
  - rewrite <- app_comm_cons, client_loop_stream.
    unfold forwarded. rewrite !fmap_cons, !piece_stream_msg. cbn [concat].
    fold (forwarded "stdout" pre). fold (forwarded "stderr" pre).
    destruct r; rewrite IH; simpl; by rewrite ?app_assoc.
Qed.

Lemma forwarded_app tag sent more :
  forwarded tag (sent ++ more) = forwarded tag sent ++ forwarded tag more.
Proof. unfold forwarded. by rewrite fmap_app, concat_app. Qed.

Lemma pieces_without_exit sent :
  Forall piece_or_exit sent → no_exit_msg sent →
  Forall (λ m, ∃ data r, m = stream_msg data (kind r)) sent.
Proof.
  intros Hs Hn. apply Forall_forall. intros m Hm.
  rewrite Forall_forall in Hs. unfold no_exit_msg in Hn. rewrite Forall_forall in Hn.
  destruct (Hs m Hm) as [Hexit|Hpiece]; [by destruct (Hn m Hm)|done].
Qed.

Section ClientAndSession.
Context (valid : json → bool) (b64decode : bytes → result bytes).

Lemma piece_or_exit_step ev s :
  Forall piece_or_exit (s_sent s) →
  Forall piece_or_exit (s_sent (step valid b64decode ev s)).
Proof.
  intros H.
  destruct (step_streams valid b64decode ev s)
    as [(tail & -> & Htail & _)|(r & pipe & b & data & rest & _ & _ & _ & _ & ->)];
    apply Forall_app; (split; [done|]).
  - destruct Htail as [->|[code ->]]; [done|].
    constructor; [|done]. left. by eexists.
  - constructor; [|done]. right. by exists (b :: data), r.
Qed.

Lemma absent_step r ev s :
  absent r s → absent r (step valid b64decode ev s).
Proof.
  unfold absent. intros [Hr Hf].
  destruct (step_streams valid b64decode ev s)
    as [(tail & Hsent & Htail & Hreaders)
       |(r0 & pipe0 & b & data & rest & Hr0 & Hread & Hr0' & Hother & Hsent)];
    rewrite Hsent.
  - rewrite forwarded_tail by done. split; [|done].
    destruct Hreaders as [[Ho He]|(r0 & pipe0 & t & Hr0 & Hr0' & Hother & Ht)].
    + destruct r; simpl in *; congruence.
    + rewrite Hother; [done|]. intros ->. congruence.
  - assert (Hne : r ≠ r0) by (intros ->; congruence).
    rewrite Hother by done. split; [done|].
    rewrite forwarded_snoc, piece_stream_msg, kind_eqb.
    rewrite bool_decide_false by done. by rewrite Hf.
Qed.

(** What a session with a child keeps for each of the two descriptors. *)
Lemma pipe_account w evs p r :
  s_process (communicate valid b64decode w evs) = Some p →
  match process_pipe r p with
  | Some pipe => conserved r pipe (communicate valid b64decode w evs)
  | None => absent r (communicate valid b64decode w evs)
  end.
Proof.
  intros Hp. pose proof Hp as Hp'.
  apply communicate_started in Hp' as (d & rest & args & fs & cwd & _ & _ & _ & _ & Hrun).
  rewrite Hrun. destruct (process_pipe r p) as [pipe|] eqn:Hpipe.
  - apply run_invariant; [apply conserved_step|]. by apply conserved_started.
  - apply run_invariant; [apply absent_step|].
    unfold absent. destruct r; simpl in *; by rewrite Hpipe.
Qed.

Lemma forwarded_within w evs p r :
  s_process (communicate valid b64decode w evs) = Some p →
  forwarded (kind r) (s_sent (communicate valid b64decode w evs))
    `prefix_of` concat (default [] (process_pipe r p)).
Proof.
  intros Hp. pose proof (pipe_account w evs p r Hp) as H.
  destruct (process_pipe r p) as [pipe|]; simpl.
  - unfold conserved in H.
    destruct (reader r _) as [[rest|rest|e]|];
      [by eexists|by eexists|by destruct H as [x ?]; exists x|done].
  - destruct H as [_ ->]. by exists [].
Qed.

Lemma sent_pieces_or_exit w evs :
  Forall piece_or_exit (s_sent (communicate valid b64decode w evs)).
Proof.
  apply (communicate_invariant valid b64decode
           (λ s, Forall piece_or_exit (s_sent s))).
  - constructor.
  - constructor.
  - apply piece_or_exit_step.
Qed.

Lemma sent_exit_last w evs :
  no_exit_msg (s_sent (communicate valid b64decode w evs))
  ∨ ∃ code pre,
      s_sent (communicate valid b64decode w evs) = pre ++ [exit_msg code]
      ∧ no_exit_msg pre
      ∧ s_wait (communicate valid b64decode w evs) = Some code.
Proof.
  assert (H : exit_last (communicate valid b64decode w evs)).
  { apply communicate_invariant.
    - intros. left. constructor.
    - intros. constructor.
    - apply exit_last_step. }
  unfold exit_last in H.
  destruct (s_phase (communicate valid b64decode w evs)); auto.
Qed.

(** X10: the client never shows what the child did not write.  Whatever
    the session, cancelled or not, and however many of the messages the
    server sent have reached the client, the client's loop does not raise;
    what it has written to its standard output and to its standard error
    are beginnings of what the child's stdout pipe and stderr pipe carry;
    and it returns 127 when no exit message has come, the code the wait for
    the child returned otherwise. *)
Theorem client_shows_only_child_output w evs p received :
  s_process (communicate valid b64decode w evs) = Some p →
  received `prefix_of` s_sent (communicate valid b64decode w evs) →
  ∃ out err res,
    client_loop b64decode_rfc4648 received [] [] = (out, err, res)
    ∧ out `prefix_of` concat (default [] (p_stdout p))
    ∧ err `prefix_of` concat (default [] (p_stderr p))
    ∧ ((no_exit_msg received ∧ res = Ok (JInt 127))
       ∨ ∃ code,
           received = s_sent (communicate valid b64decode w evs)
           ∧ s_wait (communicate valid b64decode w evs) = Some code
           ∧ res = Ok (JInt code)).
Proof.
  intros Hp [more Hmore].
  pose proof (forwarded_within w evs p fd_stdout Hp) as Hout.
  pose proof (forwarded_within w evs p fd_stderr Hp) as Herr.
  pose proof (sent_pieces_or_exit w evs) as Hall.
  cbn [kind process_pipe] in Hout, Herr.
  assert (Hquiet : ∀ l l', s_sent (communicate valid b64decode w evs) = l ++ l' →
            no_exit_msg l →
            client_loop b64decode_rfc4648 l [] []
            = (forwarded "stdout" l, forwarded "stderr" l, Ok (JInt 127))
            ∧ forwarded "stdout" l `prefix_of` concat (default [] (p_stdout p))
            ∧ forwarded "stderr" l `prefix_of` concat (default [] (p_stderr p))).
  { intros l l' Hl Hno. rewrite Hl in Hall, Hout, Herr.
    apply Forall_app in Hall as [Hall _].
    rewrite forwarded_app in Hout, Herr.
    split; [|split; by eapply prefix_app_l].
    rewrite <- (app_nil_r l) at 1.
    by rewrite client_loop_pieces by by apply pieces_without_exit. }
  destruct (sent_exit_last w evs) as [Hno|(code & pre & Hsent & Hpre & Hw)].
  - assert (Hno' : no_exit_msg received).
    { rewrite Hmore in Hno. by apply Forall_app in Hno as [? _]. }
    destruct (Hquiet received more Hmore Hno') as (Hloop & Ho & He).
    eexists _, _, _. split; [exact Hloop|]. split; [done|]. split; [done|].
    by left.
  - destruct more as [|m more _] using rev_ind.
    + rewrite app_nil_r in Hmore. subst received.
      destruct (Hquiet pre [exit_msg code] Hsent Hpre) as (_ & Ho & He).
      exists (forwarded "stdout" pre), (forwarded "stderr" pre), (Ok (JInt code)).
      split; [|split; [done|split; [done|]]].
      * rewrite Hsent, client_loop_pieces
          by (apply pieces_without_exit; [|done];
              rewrite Hsent in Hall; by apply Forall_app in Hall as [? _]).
        done.
      * right. by exists code.
    + rewrite Hsent, app_assoc in Hmore. apply app_inj_tail in Hmore as [-> _].
      assert (Hno' : no_exit_msg received) by by apply Forall_app in Hpre as [? _].
      destruct (Hquiet received (more ++ [exit_msg code])) as (Hloop & Ho & He);
        [by rewrite Hsent, app_assoc|done|].
      eexists _, _, _. split; [exact Hloop|]. split; [done|]. split; [done|].
      by left.
Qed.

(** X11: a session that is not cancelled shows the client all of the
    child's output.  With a positive chunk size, when the child has ended
    with code [c] and both read loops are over, the client's loop over what
    the server sent has written exactly the bytes of the stdout pipe to its
    standard output and those of the stderr pipe to its standard error, and
    it returns [c]. *)
Theorem client_sees_all_of_the_child w evs p n c :
  s_process (communicate valid b64decode w evs) = Some p →
  s_chunk_size (communicate valid b64decode w evs) = JInt n → (0 < n)%Z →
  Cancel ∉ evs →
  first_exit evs = Some c →
  running (s_out (communicate valid b64decode w evs)) = false →
  running (s_err (communicate valid b64decode w evs)) = false →
  client_loop b64decode_rfc4648 (s_sent (communicate valid b64decode w evs)) [] []
  = (concat (default [] (p_stdout p)), concat (default [] (p_stderr p)),
     Ok (JInt c)).
Proof.
  intros Hp Hcs Hn Hevs Hexit Ho He.
  pose proof (pipe_account w evs p fd_stdout Hp) as Hout.
  pose proof (pipe_account w evs p fd_stderr Hp) as Herr.
  pose proof (sent_pieces_or_exit w evs) as Hall.
  pose proof Hp as Hp'.
  apply communicate_started in Hp' as (d & rest & args & fs & cwd & _ & _ & _ & _ & Hrun).
  assert (Hchunk : from_option id (JInt 1024) (dict_get d "chunk_size") = JInt n).
  { rewrite Hrun, run_chunk_size in Hcs. done. }
  rewrite Hchunk in Hrun.
  assert (Hs : orderly (communicate valid b64decode w evs)).
  { rewrite Hrun. eapply orderly_run; try done. apply orderly_started. }
  assert (Hw : s_wait (communicate valid b64decode w evs) = Some c).
  { rewrite Hrun, (run_wait _ _ _ _ n) by (done || apply orderly_started). done. }
  destruct Hs as (Hso & Hse & Hph).
  assert (Hdo : drained (s_out (communicate valid b64decode w evs)))
    by by apply reader_sound_drained.
  assert (Hde : drained (s_err (communicate valid b64decode w evs)))
    by by apply reader_sound_drained.
  destruct (s_phase (communicate valid b64decode w evs)); [|done|].
  { destruct Hph as [Hdone _]. unfold operations_done in Hdone.
    by rewrite Hw, Ho, He in Hdone. }
  destruct Hph as (code & pre & Hcode & Hsent & Hpre & _).
  rewrite Hw in Hcode. injection Hcode as <-.
  assert (Hfo : forwarded "stdout" pre = concat (default [] (p_stdout p))).
  { cbn [process_pipe] in Hout. unfold conserved, absent in Hout.
    cbn [reader kind] in Hout. rewrite Hsent, forwarded_snoc, piece_exit_msg, app_nil_r in Hout.
    destruct (p_stdout p) as [pipe|]; simpl.
    - destruct (s_out _) as [[?|[|]|?]|]; try done. by rewrite app_nil_r in Hout.
    - by destruct Hout. }
  assert (Hfe : forwarded "stderr" pre = concat (default [] (p_stderr p))).
  { cbn [process_pipe] in Herr. unfold conserved, absent in Herr.
    cbn [reader kind] in Herr. rewrite Hsent, forwarded_snoc, piece_exit_msg, app_nil_r in Herr.
    destruct (p_stderr p) as [pipe|]; simpl.
    - destruct (s_err _) as [[?|[|]|?]|]; try done. by rewrite app_nil_r in Herr.
    - by destruct Herr. }
  rewrite Hsent in Hall |- *. apply Forall_app in Hall as [Hall _].
  rewrite client_loop_pieces by by apply pieces_without_exit.
  simpl. by rewrite Hfo, Hfe.
Qed.
End ClientAndSession.

(** ** The staging directory, made and removed *)

Lemma walk_root_sep fs comps : walk fs [] (EmptyString :: comps) = walk fs [] comps.
Proof. reflexivity. Qed.

Lemma walk_path_str (fs : filesystem) d :
  fs_wf fs → Forall (λ c, proper_name c = true) d → is_dir fs d →
  walk fs [] (split_sep (path_str d)) = Ok d.
Proof.
  intros Hwf Hd Hdir. destruct d as [|c d _] using rev_ind; [done|].
  apply Forall_app in Hd as [Hd Hc]. rewrite Forall_singleton in Hc.
  rewrite split_sep_path_str, <- app_comm_cons, walk_root_sep by done.
  apply (walk_to_dir fs [] (d ++ [c])); [done|by apply Forall_app; auto|done].
Qed.

(** [shutil.rmtree] of a directory takes the directory and all below it,
    and nothing else. *)
Lemma rmtree_lookup (fs : filesystem) d q :
  fs_wf fs → Forall (λ c, proper_name c = true) d → is_dir fs d →
  rmtree fs (path_str d) !! q = if decide (d `prefix_of` q) then None else fs !! q.
Proof.
  intros Hwf Hd Hdir. unfold rmtree. rewrite walk_path_str by done.
  destruct (decide (d `prefix_of` q)) as [Hpre|Hpre].
  - apply map_lookup_filter_None. right. intros x _ Hno. by apply Hno.
  - destruct (fs !! q) as [x|] eqn:Hq.
    + apply map_lookup_filter_Some. done.
    + apply map_lookup_filter_None. by left.
Qed.

(** Nothing lies below a name that is free. *)
Lemma free_below (fs : filesystem) d c q :
  fs_wf fs → fs !! (d ++ [c]) = None → (d ++ [c]) `prefix_of` q → fs !! q = None.
Proof.
  intros Hwf Hfree [k ->]. destruct k as [|x k]; [by rewrite app_nil_r|].
  destruct (fs !! ((d ++ [c]) ++ x :: k)) as [y|] eqn:Hy; [|done].
  assert (Hdir : is_dir fs (d ++ [c]))
    by (apply (fs_wf_ancestor fs _ (x :: k)); rewrite ?Hy; done).
  apply is_dir_snoc in Hdir. congruence.
Qed.

Lemma open_wb_child (fs : filesystem) d name :
  fs_wf fs → Forall (λ c, proper_name c = true) d →
  fs !! d = Some Dir → flat_below fs d → proper_name name = true →
  open_wb fs (os_path_join (path_str d) name)
  = Ok (<[d ++ [name] := File []]> fs, d ++ [name]).
Proof.
  intros Hwf Hd Hdir Hflat Hname.
  rewrite os_path_join_child by (done || by apply proper_name_startswith).
  apply open_wb_resolved; [|done|].
  - rewrite resolve_parent_path by done.
    by rewrite (walk_to_dir fs [] d) by (done || by right).
  - intros Hsub. apply Hflat in Hsub as (? & ? & _ & ?); done.
Qed.

(** Staging a map whose keys are proper names: only the entries of the
    keys, directly in the directory, are touched; and when the values are
    strings and no key comes twice, each file holds its text. *)
Lemma write_files_proper (fs : filesystem) d items :
  fs_wf fs → Forall (λ c, proper_name c = true) d →
  fs !! d = Some Dir → flat_below fs d →
  Forall (λ kv, proper_name kv.1 = true) items →
  ∃ fs' o, write_files fs (path_str d) items = (fs', o)
    ∧ (∀ q, (∀ name, name ∈ items.*1 → q ≠ d ++ [name]) → fs' !! q = fs !! q)
    ∧ (Forall (λ kv, ∃ text, kv.2 = JStr text) items → NoDup items.*1 →
       o = None
       ∧ ∀ name text, (name, JStr text) ∈ items →
           fs' !! (d ++ [name]) = Some (File (encode_utf8 text))).
Proof.
  intros Hwf Hd. revert fs Hwf.
  induction items as [|[name code] items IH]; intros fs Hwf Hdir Hflat Hkeys.
  - exists fs, None. split; [done|]. split; [done|]. intros _ _. split; [done|].
    intros ? ? Hin. by apply elem_of_nil in Hin.
  - apply Forall_cons in Hkeys as [Hname Hkeys]. simpl in Hname.
    cbn [write_files]. rewrite open_wb_child by done.
    assert (Hfree : fs !! (d ++ [name]) ≠ Some Dir).
    { intros Hsub. apply Hflat in Hsub as (? & ? & _ & ?); done. }
    destruct code as [| | | |text| |];
      try (eexists _, _; split; [done|]; split;
           [intros q Hq; rewrite lookup_insert_ne; [done|];
            intros <-; apply (Hq name); [rewrite fmap_cons; left|done]
           |intros Hstr; apply Forall_cons in Hstr as [[? ?] _]; done]).
    cbn [py_encode]. rewrite insert_insert_eq.
    destruct (IH (<[d ++ [name] := File (encode_utf8 text)]> fs))
      as (fs' & o & Hw & Hframe & Hfiles);
      [by apply write_wf; [|right|]|by apply write_dir
      |by apply write_flat; [|right|]|done|].
    exists fs', o. split; [done|]. split.
    + intros q Hq. rewrite Hframe.
      * rewrite lookup_insert_ne; [done|].
        intros <-. apply (Hq name); [rewrite fmap_cons; left|done].
      * intros nm Hnm. apply Hq. rewrite fmap_cons. by right.
    + intros Hstr Hnodup. apply Forall_cons in Hstr as [_ Hstr].
      rewrite fmap_cons in Hnodup. apply NoDup_cons in Hnodup as [Hnew Hnodup].
      destruct (Hfiles Hstr Hnodup) as [-> Hall]. split; [done|].
      intros nm txt Hin. apply elem_of_cons in Hin as [[= -> ->]|Hin].
      * rewrite Hframe; [apply lookup_insert_eq|].
        intros nm' Hnm' Heq. apply app_inj_tail in Heq as [_ ->]. done.
      * by apply Hall.
Qed.


(** X13: with keys that are proper names, staging leaves no trace.
    Whatever the values, and whether staging returns or raises, once the
    [with] block is left the file system is what it was before. *)
Theorem proper_keys_leave_no_trace fs tmp draws items :
  fs_wf fs → Forall (λ c, proper_name c = true) tmp →
  Forall (λ kv, proper_name kv.1 = true) items →
  match TempDirectory fs tmp draws (JDict items) with
  | (fs', Ok dname) => TempDirectory_exit fs' dname = fs
  | (fs', Raise _) => fs' = fs
  end.
Proof.
  intros Hwf Htmp Hitems. unfold TempDirectory, TempDirectory_exit.
  destruct (mkdtemp fs _ _) as [[fs1 dname]|e] eqn:Hmk; [|done].
  apply mkdtemp_inv in Hmk as (nm & Hnm & -> & -> & Hnew & Hdir); [|done|done].
  destruct (mkdtemp_staged fs tmp nm Hwf Hdir Hnew) as (Hwf1 & Hd1 & Hflat1).
  assert (Hproper : Forall (λ c, proper_name c = true) (tmp ++ [nm]))
    by (apply Forall_app; auto).
  destruct (write_files_proper (<[tmp ++ [nm] := Dir]> fs) (tmp ++ [nm]) items)
    as (fs' & o & Hw & Hframe & _); try done.
  rewrite Hw.
  apply write_files_staged in Hw as (Hwf' & Hd' & _); try done.
  assert (Hback : rmtree fs' (path_str (tmp ++ [nm])) = fs).
  { apply map_eq. intros q. rewrite rmtree_lookup by (done || by right).
    destruct (decide _) as [Hpre|Hpre].
    - symmetry. by apply (free_below fs tmp nm).
    - rewrite Hframe.
      + rewrite lookup_insert_ne; [done|]. by intros <-.
      + intros name _ ->. apply Hpre. by eexists. }
  by destruct o.
Qed.

Section SessionFiles.
Context (valid : json → bool) (b64decode : bytes → result bytes).

(** Until communicate is over the file system is as staging left it;
    then the staging directory is removed. *)
Lemma step_fs fs0 cwd ev s :
  s_cwd s = Some cwd
  ∧ s_fs s = match s_phase s with
             | Closed => TempDirectory_exit fs0 cwd
             | _ => fs0
             end →
  s_cwd (step valid b64decode ev s) = Some cwd
  ∧ s_fs (step valid b64decode ev s)
    = match s_phase (step valid b64decode ev s) with
      | Closed => TempDirectory_exit fs0 cwd
      | _ => fs0
      end.
Proof.
  destruct s as [ph pr cw cs wt o e rc ib snt cl lg rs fs]. simpl. intros [-> ->].
  unfold step, join, conclude, wait_process, operations_done,
    ReceiveOp, ReceiveOp_body, ReadOp, signal_process; simpl.
  repeat (case_match; simplify_eq/=); done.
Qed.

(** X14: nothing is left of the staging directory.  Whatever the run
    message and its files map, and however the session ends (the first
    message refused, staging or the start of the child failing, the child
    ended, the session cancelled), when communicate is over the file system
    has nothing at or below the directory [mkdtemp] made. *)
Theorem staging_directory_removed w evs fs1 dname :
  fs_wf (w_fs w) → Forall (λ c, proper_name c = true) (w_tmp w) →
  mkdtemp (w_fs w) (path_str (w_tmp w)) (map random_name (w_draws w))
    = Ok (fs1, dname) →
  s_phase (communicate valid b64decode w evs) = Closed →
  ∃ d, dname = path_str d
    ∧ ∀ q, d `prefix_of` q → s_fs (communicate valid b64decode w evs) !! q = None.
Proof.
  intros Hwf Htmp Hmk.
  pose proof Hmk as Hmk'.
  apply mkdtemp_inv in Hmk' as (nm & Hnm & -> & -> & Hnew & Hdir); [|done|done].
  destruct (mkdtemp_staged (w_fs w) (w_tmp w) nm Hwf Hdir Hnew) as (Hwf1 & Hd1 & Hflat1).
  assert (Hproper : Forall (λ c, proper_name c = true) (w_tmp w ++ [nm]))
    by (apply Forall_app; auto).
  intros Hclosed. exists (w_tmp w ++ [nm]). split; [done|]. intros q Hq.
  assert (Hgone : ∀ fs2 : filesystem, fs_wf fs2 → fs2 !! (w_tmp w ++ [nm]) = Some Dir →
            rmtree fs2 (path_str (w_tmp w ++ [nm])) !! q = None).
  { intros fs2 Hwf2 Hd2. rewrite rmtree_lookup by (done || by right).
    by rewrite decide_True by done. }
  revert Hclosed. unfold communicate.
  destruct (receive_json (w_inbox w)) as [first inbox].
  destruct (first ≫= parse_run_msg valid) as [[[[[[[args chunk] out] err] env] files]|]|];
    try (intros _; simpl; by apply (free_below (w_fs w) (w_tmp w) nm)).
  unfold TempDirectory. rewrite Hmk.
  destruct files as [| | | | |?|items]; try (intros _; simpl; by apply Hgone).
  destruct (write_files _ _ items) as [fs2 [e|]] eqn:Hw;
    apply write_files_staged in Hw as (Hwf2 & Hd2 & _); try done.
  { intros _. simpl. by apply Hgone. }
  destruct (start_process _ _ _ _ _ _) as [p|].
  2:{ intros _. simpl. by apply Hgone. }
  intros Hclosed.
  pose proof (run_invariant valid b64decode
    (λ s, s_cwd s = Some (path_str (w_tmp w ++ [nm]))
          ∧ s_fs s = match s_phase s with
                     | Closed => TempDirectory_exit fs2 (path_str (w_tmp w ++ [nm]))
                     | _ => fs2
                     end) evs
    (started fs2 inbox (path_str (w_tmp w ++ [nm])) chunk p)) as Hinv.
  destruct Hinv as [_ Hfs]; [intros ev s; apply step_fs|done|].
  rewrite Hfs, Hclosed. by apply Hgone.
Qed.
End SessionFiles.

(** ** The client's commands, in order *)

Section Commands.
Context (valid : json → bool).







End Commands.

(** ** A pipe that was not asked for *)

Lemma stream_msg_kind data data' r r' :
  stream_msg data (kind r) = stream_msg data' (kind r') → r = r'.
Proof. by destruct r, r'. Qed.

Section NullPipe.
Context (valid : json → bool) (b64decode : bytes → result bytes).

Lemma quiet_step r ev s :
  reader r s = None ∧ Forall (λ m, ¬ is_stream_msg (kind r) m) (s_sent s) →
  reader r (step valid b64decode ev s) = None
  ∧ Forall (λ m, ¬ is_stream_msg (kind r) m) (s_sent (step valid b64decode ev s)).
Proof.
  intros [Hr Hs].
  destruct (step_streams valid b64decode ev s)
    as [(tail & Hsent & Htail & Hreaders)
       |(r0 & pipe0 & b & data & rest & Hr0 & Hread & Hr0' & Hother & Hsent)];
    rewrite Hsent.
  - split.
    + destruct Hreaders as [[Ho He]|(r0 & pipe0 & t & Hr0 & Hr0' & Hother & Ht)].
      * destruct r; simpl in *; congruence.
      * rewrite Hother; [done|]. intros ->. congruence.
    + apply Forall_app. split; [done|].
      destruct Htail as [->|[code ->]]; [done|].
      constructor; [|done]. by intros [data H].
  - assert (Hne : r ≠ r0) by (intros ->; congruence).
    split; [by rewrite Hother|].
    apply Forall_app. split; [done|]. constructor; [|done].
    intros [data' H]. by apply stream_msg_kind in H.
Qed.

(** X16: a pipe the run message sets to "null" is never read: in no
    session, whatever the child writes, is a message of that kind sent. *)
Theorem null_pipe_sends_nothing w evs d rest r :
  w_inbox w = WsText (Some (JDict d)) :: rest →
  dict_get d (kind r) = Some (JStr "null") →
  Forall (λ m, ¬ is_stream_msg (kind r) m)
    (s_sent (communicate valid b64decode w evs)).
Proof.
  intros Hin Hnull.
  destruct (communicate_cases valid b64decode w evs) as [(fs & inbox & e & ->)|[p Hp]];
    [constructor|].
  apply communicate_started in Hp
    as (d' & rest' & args & fs & cwd & Hin' & _ & _ & Hstart & ->).
  rewrite Hin in Hin'. injection Hin' as <- <-.
  apply (run_invariant valid b64decode
           (λ s, reader r s = None
                 ∧ Forall (λ m, ¬ is_stream_msg (kind r) m) (s_sent s))).
  - apply quiet_step.
  - split; [|constructor].
    unfold start_process in Hstart.
    destruct r; cbn [kind] in Hnull; rewrite Hnull in Hstart; cbn in Hstart.
    + destruct (CONVERT _) as [err|]; [|done]. cbn in Hstart.
      destruct (from_option id (JDict []) (dict_get d "env")); try done.
      cbn in Hstart. destruct (w_exec w); [done|].
      injection Hstart as <-. done.
    + destruct (CONVERT _) as [out|]; [|done]. cbn in Hstart.
      destruct (from_option id (JDict []) (dict_get d "env")); try done.
      cbn in Hstart. destruct (w_exec w); [done|].
      injection Hstart as <-. done.
Qed.
End NullPipe.

(** ** The schemas of schema.py *)

Lemma strings_valid (l : list string) :
  forallb (is_valid (typed "string")) (JStr <$> l) = true.
Proof. induction l as [|x l IH]; [done|]. by rewrite fmap_cons. Qed.

(** X17: every message a session sends, in every session, is valid
    against schema.CLIENT_MESSAGES. *)
Theorem server_messages_conform valid b64decode w evs :
  Forall (λ m, is_valid CLIENT_MESSAGES m = true)
    (s_sent (communicate valid b64decode w evs)).
Proof.
  eapply Forall_impl; [apply sent_pieces_or_exit|].
  intros m [[code ->]|(data & r & ->)]; [done|by destruct r].
Qed.

(** X18: the validator of [enable_validation] accepts what the reference
    client sends: a stdin message for every byte string, a signal message
    for every signal number from 1 to 32, and a run message whose arguments
    are strings, whose chunk size is not negative, whose stdout is "null"
    or "pipe", whose stderr is "null", "pipe" or "stdout" and whose
    environment and files are objects. *)
Theorem client_messages_accepted :
  (∀ data, enabled_validation (make_stdin_msg data) = true)
  ∧ (∀ signum, (1 ≤ signum ≤ 32)%Z →
       enabled_validation (make_signal_msg signum) = true)
  ∧ (∀ args stdout stderr chunk_size env files,
       stdout ∈ ["null"; "pipe"] → stderr ∈ ["null"; "pipe"; "stdout"] →
       (0 ≤ chunk_size)%Z →
       enabled_validation
         (make_run_msg (JList (JStr <$> args)) (JStr stdout) (JStr stderr)
            (JInt chunk_size) (JDict env) (JDict files)) = true).
Proof.
  split; [done|]. split.
  - intros signum [Hlo Hhi]. unfold enabled_validation. cbn.
    by rewrite (proj2 (Z.ltb_ge signum 1)), (proj2 (Z.ltb_ge 32 signum)) by lia.
  - intros args stdout stderr chunk env files Hout Herr Hchunk.
    unfold enabled_validation. cbn.
    rewrite strings_valid, (proj2 (Z.ltb_ge chunk 0)) by lia.
    assert (stdout = "null" ∨ stdout = "pipe") as [->| ->] by set_solver.
    all: assert (stderr = "null" ∨ stderr = "pipe" ∨ stderr = "stdout")
      as [->|[->| ->]] by set_solver.
    all: reflexivity.
Qed.

(** *** What the validator lets through *)

Lemma is_type_string v : is_type v "string" = true → ∃ text, v = JStr text.
Proof. destruct v; try done. by eexists. Qed.


Lemma is_valid_one_of values v :
  is_valid (one_of values) v = true ↔ ∃ s, v = JStr s ∧ s ∈ values.
Proof.
  unfold one_of. cbn [is_valid forallb]. rewrite !andb_true_r. split.
  - intros [[_ Hin]%andb_prop _]%andb_prop. destruct v; try done. simpl in Hin.
    apply existsb_exists in Hin as (x & Hx%list_elem_of_In & ->%String.eqb_eq).
    by eexists.
  - intros (s & -> & Hs). simpl. rewrite andb_true_r.
    apply existsb_exists. exists s. split; [by apply list_elem_of_In|].
    apply String.eqb_refl.
Qed.

Lemma is_valid_typed t v : is_valid (typed t) v = is_type v t.
Proof.
  unfold typed. cbn [is_valid forallb]. rewrite !andb_true_r.
  destruct v; simpl; by rewrite ?andb_true_r.
Qed.

Lemma is_valid_number lo hi v :
  is_valid (number (Some lo) (Some hi)) v = true
  ↔ is_type v "number" = true ∧ below v lo = false ∧ above v hi = false.
Proof.
  unfold number. cbn [is_valid forallb]. rewrite !andb_true_r.
  rewrite !andb_true_iff, !negb_true_iff.
  destruct v; simpl; naive_solver.
Qed.

Lemma is_valid_object properties required d :
  is_valid (object properties required) (JDict d) = true
  ↔ Forall (λ kv, ∀ x, dict_get d kv.1 = Some x → is_valid kv.2 x = true) properties
    ∧ Forall (λ name, is_Some (dict_get d name)) required.
Proof.
  unfold object. cbn [is_valid is_type forallb]. rewrite !andb_true_r.
  change (String.eqb "object" "object") with true. rewrite andb_true_l.
  rewrite andb_true_iff, !forallb_forall, !Forall_forall.
  split; intros [Hp Hr]; (split; [intros [name sub] Hin|intros name Hin]).
  - intros x Hx. apply list_elem_of_In, Hp in Hin. simpl in *. by rewrite Hx in Hin.
  - apply list_elem_of_In, Hr in Hin. by destruct (dict_get d name).
  - destruct (dict_get d name) as [x|] eqn:Hx; [|done].
    apply (Hp (name, sub)); [by apply list_elem_of_In|done].
  - apply list_elem_of_In, Hr in Hin as [x ->]. done.
Qed.

Lemma is_valid_object_other properties required v :
  is_valid (object properties required) v = true → ∃ d, v = JDict d.
Proof.
  unfold object. cbn [is_valid]. destruct v; try done. by eexists.
Qed.

Lemma enabled_validation_inv msg :
  enabled_validation msg = true →
  ∃ d, msg = JDict d
    ∧ ((dict_get d "type" = Some (JStr "run")
        ∧ is_valid run_command (JDict d) = true)
       ∨ (dict_get d "type" = Some (JStr "signal")
          ∧ ∃ v, dict_get d "signum" = Some v
              ∧ is_type v "number" = true
              ∧ below v 1 = false ∧ above v 32 = false)
       ∨ (dict_get d "type" = Some (JStr "stdin")
          ∧ ∃ text, dict_get d "data" = Some (JStr text))).
Proof.
  unfold enabled_validation, SERVER_COMMANDS.
  cbn [is_valid forallb existsb]. rewrite !andb_true_r, !orb_false_r.
  intros Hany. repeat (apply andb_prop in Hany as [_ Hany]).
  apply orb_prop in Hany as [H|Hany]; [|apply orb_prop in Hany as [H|H]];
    pose proof H as [d ->]%is_valid_object_other; exists d; (split; [done|]);
    pose proof H as Hcommand;
    apply is_valid_object in H as [Hp Hr].
  all: rewrite Forall_forall in Hp.
  all: rewrite Forall_forall in Hr.
  all: destruct (Hr "type" ltac:(repeat constructor)) as [t Ht].
  - left.
    pose proof (Hp ("type", one_of ["run"]) ltac:(repeat constructor) t Ht) as Hv.
    apply is_valid_one_of in Hv as (s & -> & Hs).
    by apply list_elem_of_singleton in Hs as ->.
  - right. left. clear Hcommand.
    pose proof (Hp ("type", one_of ["signal"]) ltac:(repeat constructor) t Ht) as Hv.
    apply is_valid_one_of in Hv as (s & -> & Hs).
    apply list_elem_of_singleton in Hs as ->. split; [done|].
    destruct (Hr "signum" ltac:(repeat constructor)) as [v Hv]. exists v.
    split; [done|].
    by apply is_valid_number,
      (Hp ("signum", number (Some 1%Z) (Some 32%Z)) ltac:(repeat constructor)).
  - right. right.
    pose proof (Hp ("type", one_of ["stdin"]) ltac:(repeat constructor) t Ht) as Hv.
    apply is_valid_one_of in Hv as (s & -> & Hs).
    apply list_elem_of_singleton in Hs as ->. split; [done|].
    destruct (Hr "data" ltac:(repeat constructor)) as [v Hv].
    pose proof (Hp ("data", typed "string") ltac:(repeat constructor) v Hv) as Hstr.
    change (is_valid (typed "string") v = true) in Hstr.
    rewrite is_valid_typed in Hstr. apply is_type_string in Hstr as [text ->].
    by exists text.
Qed.



Lemma start_process_handle w args stdout stderr env cwd p :
  start_process w args stdout stderr env cwd = Ok p →
  p_args p = args ∧ p_cwd p = cwd.
Proof.
  unfold start_process.
  destruct (CONVERT stdout) as [out|]; [|done].
  destruct (CONVERT stderr) as [err|]; [|done].
  destruct env; try done. cbn [mbind result_bind].
  destruct (w_exec w); [done|]. by intros [= <-].
Qed.

(** X2: what the client puts into its run message is what the session
    works with.  When the first frame is the client's
    [make_run_msg(args, stdout, stderr, chunk_size, env, files)] and a
    child was started, then [files] was staged, the child was started by
    [start_process] with [args], [stdout], [stderr] and [env] in the staging
    directory, and the read loops use [chunk_size]. *)
Theorem client_run_message_starts_child valid b64decode w evs
    args stdout stderr chunk_size env files rest p :
  w_inbox w
  = WsText (Some (make_run_msg args stdout stderr chunk_size env files)) :: rest →
  s_process (communicate valid b64decode w evs) = Some p →
  (∃ fs, TempDirectory (w_fs w) (w_tmp w) (w_draws w) files = (fs, Ok (p_cwd p)))
  ∧ start_process w args stdout stderr env (p_cwd p) = Ok p
  ∧ p_args p = args
  ∧ s_chunk_size (communicate valid b64decode w evs) = chunk_size.
Proof.
  intros Hin Hp.
  apply communicate_started in Hp
    as (d & rest' & args' & fs & cwd & Hin' & Hparse & Htmp & Hstart & Hrun).
  rewrite Hin in Hin'. unfold make_run_msg in Hin'. injection Hin' as <- <-.
  unfold parse_run_msg, validate_msg in Hparse.
  destruct (valid _); [|done]. cbn in Hparse. injection Hparse as <-.
  cbn in Htmp, Hstart, Hrun.
  destruct (start_process_handle _ _ _ _ _ _ _ Hstart) as [Hargs Hcwd].
  rewrite Hcwd. split; [by exists fs|]. split; [done|]. split; [done|].
  by rewrite Hrun, run_chunk_size.
Qed.

Lemma enabled_validation_run d :
  dict_get d "type" = Some (JStr "run") →
  is_valid run_command (JDict d) = true →
  enabled_validation (JDict d) = true.
Proof.
  intros Ht Hrun. unfold enabled_validation, SERVER_COMMANDS.
  cbn [is_valid forallb existsb]. rewrite Hrun, Ht. reflexivity.
Qed.

Lemma dict_get_without d key name :
  dict_get (List.filter (λ kv, negb (String.eqb kv.1 key)) d) name
  = if String.eqb name key then None else dict_get d name.
Proof.
  induction d as [|[k v] d IH]; simpl.
  - by destruct (String.eqb name key).
  - destruct (String.eqb k key) eqn:Hk; simpl.
    + apply String.eqb_eq in Hk as ->. rewrite IH.
      rewrite (String.eqb_sym key name).
      by destruct (String.eqb name key).
    + rewrite IH. destruct (String.eqb k name) eqn:Hn; [|done].
      apply String.eqb_eq in Hn as ->. by rewrite Hk.
Qed.

(** X20: validation does not ask a run message for its arguments.
    Dropping 'args' from any run message the validator lets through gives
    a message it still lets through, on which [parse_run_msg] raises
    KeyError('args'). *)
Theorem validated_run_may_lack_args d :
  enabled_validation (JDict d) = true →
  dict_get d "type" = Some (JStr "run") →
  enabled_validation
    (JDict (List.filter (λ kv, negb (String.eqb kv.1 "args")) d)) = true
  ∧ parse_run_msg enabled_validation
      (JDict (List.filter (λ kv, negb (String.eqb kv.1 "args")) d))
    = Raise (KeyError (JStr "args")).
Proof.
  intros Hv Ht.
  apply enabled_validation_inv in Hv
    as (d' & [= <-] & [[_ Hrun]|[[Ht' _]|[Ht' _]]]); [|congruence..].
  assert (Hv' : enabled_validation
            (JDict (List.filter (λ kv, negb (String.eqb kv.1 "args")) d)) = true).
  { apply enabled_validation_run; [by rewrite dict_get_without|].
    apply is_valid_object in Hrun as [Hp Hr]. apply is_valid_object.
    split.
    - eapply Forall_impl; [exact Hp|]. simpl.
      intros [name sub] H x. rewrite dict_get_without. simpl.
      destruct (String.eqb name "args"); [done|apply H].
    - repeat constructor. by rewrite dict_get_without, Ht. }
  split; [done|].
  unfold parse_run_msg, validate_msg. rewrite Hv'. simpl.
  rewrite !dict_get_without, Ht. simpl. done.
Qed.

(** ** Edges of the read loops and of cancellation *)

Section Edges.
Context (valid : json → bool) (b64decode : bytes → result bytes).

(** X22: a chunk size of 0 silences the child.  [stream.read(0)] returns
    no data, which ends each read loop at its first round: in a session
    whose chunk size is 0 nothing but the exit message is ever sent,
    whatever the child writes. *)
Theorem zero_chunk_size_sends_no_output w evs :
  s_chunk_size (communicate valid b64decode w evs) = JInt 0 →
  Forall is_exit_msg (s_sent (communicate valid b64decode w evs)).
Proof.
  intros Hcs.
  destruct (communicate_cases valid b64decode w evs) as [(fs & inbox & e & Heq)|[p Hp]].
  { by rewrite Heq. }
  apply communicate_started in Hp as (d & rest & args & fs & cwd & _ & _ & _ & _ & Hrun).
  rewrite Hrun in Hcs |- *. rewrite run_chunk_size in Hcs. simpl in Hcs.
  rewrite Hcs.
  apply (run_invariant valid b64decode
           (λ s, s_chunk_size s = JInt 0 ∧ Forall is_exit_msg (s_sent s)));
    [|by split].
  intros ev s [Hc Hs]. split; [by rewrite step_chunk_size|].
  destruct (step_streams valid b64decode ev s)
    as [(tail & -> & Htail & _)|(r & pipe & b & data & rest' & _ & Hread & _)].
  - apply Forall_app. split; [done|].
    destruct Htail as [->|[code ->]]; [done|]. constructor; [by eexists|done].
  - by rewrite Hc in Hread.
Qed.







End Edges.

Section WholePipe.
Context (valid : json → bool) (b64decode : bytes → result bytes).

Lemma stream_read_negative n pipe data rest :
  (n < 0)%Z → stream_read (JInt n) pipe = Ok (data, rest) →
  data = concat pipe ∧ rest = [].
Proof.
  intros Hn. unfold stream_read. simpl.
  rewrite (proj2 (Z.eqb_neq n 0)), (proj2 (Z.ltb_lt n 0)) by lia.
  by intros [= <- <-].
Qed.

(** X25: a negative chunk size sends each pipe in one piece.
    [stream.read(n)] with [n < 0] reads up to the end of the stream: in a
    session whose chunk size is negative, every message sent is the exit
    message or carries everything one of the child's pipes carries. *)
Theorem negative_chunk_size_sends_whole_pipes w evs p n :
  s_process (communicate valid b64decode w evs) = Some p →
  s_chunk_size (communicate valid b64decode w evs) = JInt n → (n < 0)%Z →
  Forall (λ m, is_exit_msg m
               ∨ ∃ r pipe, process_pipe r p = Some pipe
                   ∧ m = stream_msg (concat pipe) (kind r))
    (s_sent (communicate valid b64decode w evs)).
Proof.
  intros Hp Hcs Hn. pose proof Hp as Hp'.
  apply communicate_started in Hp' as (d & rest & args & fs & cwd & _ & _ & _ & _ & Hrun).
  rewrite Hrun in Hcs |- *. rewrite run_chunk_size in Hcs. simpl in Hcs.
  rewrite Hcs.
  apply (run_invariant valid b64decode
    (λ s, (s_chunk_size s = JInt n
           ∧ ∀ r rest, reader r s = Some (Running rest) →
               process_pipe r p = Some rest ∨ rest = [])
          ∧ Forall (λ m, is_exit_msg m
                         ∨ ∃ r pipe, process_pipe r p = Some pipe
                             ∧ m = stream_msg (concat pipe) (kind r))
              (s_sent s))).
  - intros ev s [[Hc Hreaders] Hsent].
    destruct (step_streams valid b64decode ev s)
      as [(tail & Htail & Hkind & Hrs)
         |(r0 & pipe0 & b & data & rest0 & Hr0 & Hread & Hr0' & Hother & Hnew)].
    + split; [split|].
      * by rewrite step_chunk_size.
      * intros r rest' Hr.
        destruct Hrs as [[Ho He]|(r0 & pipe0 & t & Hr0 & Hr0' & Hother & Ht)].
        -- apply Hreaders. destruct r; simpl in *; congruence.
        -- destruct (decide (r = r0)) as [->|Hne].
           ++ rewrite Hr0' in Hr. injection Hr as ->.
              destruct Ht as [[e Ht]|(? & Ht & _)]; done.
           ++ apply Hreaders. by rewrite <- Hother.
      * rewrite Htail. apply Forall_app. split; [done|].
        destruct Hkind as [->|[code ->]]; [done|].
        constructor; [|done]. left. by eexists.
    + rewrite Hc in Hread.
      apply stream_read_negative in Hread as [Hdata ->]; [|done].
      split; [split|].
      * by rewrite step_chunk_size.
      * intros r rest' Hr. destruct (decide (r = r0)) as [->|Hne].
        -- rewrite Hr0' in Hr. injection Hr as <-. by right.
        -- apply Hreaders. by rewrite <- Hother.
      * rewrite Hnew. apply Forall_app. split; [done|].
        constructor; [|done]. right. exists r0, pipe0. split; [|by rewrite Hdata].
        destruct (Hreaders r0 pipe0 Hr0) as [?| ->]; [done|]. done.
  - split; [split; [done|]|constructor].
    intros r rest'. destruct r; simpl; destruct (p_stdout p), (p_stderr p);
      simpl; intros [= <-]; by left.
Qed.
End WholePipe.

(** * The further properties at work *)

(** X3 at the first command of [command_world]. *)
Lemma client_stdin_reaches_child_example :
  s_calls (step no_validation b64decode_rfc4648 Receive
             (communicate no_validation b64decode_rfc4648 command_world []))
  = s_calls (communicate no_validation b64decode_rfc4648 command_world [])
    ++ [stdin_write (encode_utf8 "hi")]
  ∧ s_log (step no_validation b64decode_rfc4648 Receive
             (communicate no_validation b64decode_rfc4648 command_world []))
    = s_log (communicate no_validation b64decode_rfc4648 command_world [])
  ∧ s_inbox (step no_validation b64decode_rfc4648 Receive
               (communicate no_validation b64decode_rfc4648 command_world []))
    = frames [Signal 2; Stdin []].
Proof.
  apply (client_stdin_reaches_child no_validation
           (communicate no_validation b64decode_rfc4648 command_world [])
           (encode_utf8 "hi") (frames [Signal 2; Stdin []]));
    vm_compute; reflexivity.
Defined.


(** X7 in a session cancelled while the child runs. *)
Lemma kill_only_when_cancelled_example :
  ∃ pre post,
    [Read fd_stdout; Cancel; Exit (-9)] = pre ++ Cancel :: post
    ∧ (Cancel ∉ pre) ∧ first_exit pre = None.
Proof.
  apply (kill_only_when_cancelled_before_exit no_validation b64decode_rfc4648
           running_world [Read fd_stdout; Cancel; Exit (-9)]).
  vm_compute. constructor.
Defined.

(** X8 after one round of the read loop of stdout: "ab" was sent, "c" is
    still to be read. *)
Lemma pipe_conserved_example :
  conserved fd_stdout [encode_utf8 "abc"]
    (communicate no_validation b64decode_rfc4648 running_world [Read fd_stdout]).
Proof.
  eapply (pipe_conserved no_validation b64decode_rfc4648 running_world
            [Read fd_stdout] _ fd_stdout [encode_utf8 "abc"]).
  - vm_compute. reflexivity.
  - vm_compute. reflexivity.
Defined.

(** X9 in the session of the reference client, whose chunk size is 2. *)
Lemma pieces_within_chunk_size_example :
  Forall (sized 2)
    (s_sent (communicate no_validation b64decode_rfc4648 running_world
               [Read fd_stdout; Read fd_stderr; Read fd_stdout])).
Proof.
  eapply (pieces_within_chunk_size no_validation b64decode_rfc4648 running_world
            [Read fd_stdout; Read fd_stderr; Read fd_stdout] _ 2).
  - vm_compute. reflexivity.
  - vm_compute. reflexivity.
  - lia.
Defined.

(** X10 in a cancelled session, of which the client got the first
    message only. *)
Lemma client_shows_only_child_output_example :
  ∃ out err res,
    client_loop b64decode_rfc4648 [stream_msg (encode_utf8 "ab") "stdout"] [] []
    = (out, err, res)
    ∧ out `prefix_of` concat (default [] (Some [encode_utf8 "abc"]))
    ∧ err `prefix_of` concat (default [] (Some [encode_utf8 "E"]))
    ∧ ((no_exit_msg [stream_msg (encode_utf8 "ab") "stdout"] ∧ res = Ok (JInt 127))
       ∨ ∃ code,
           [stream_msg (encode_utf8 "ab") "stdout"]
           = s_sent (communicate no_validation b64decode_rfc4648 running_world
                       [Read fd_stdout; Read fd_stderr; Cancel])
           ∧ s_wait (communicate no_validation b64decode_rfc4648 running_world
                       [Read fd_stdout; Read fd_stderr; Cancel]) = Some code
           ∧ res = Ok (JInt code)).
Proof.
  eapply (client_shows_only_child_output no_validation b64decode_rfc4648
            running_world [Read fd_stdout; Read fd_stderr; Cancel]
            {| p_stdout := Some [encode_utf8 "abc"];
               p_stderr := Some [encode_utf8 "E"];
               p_args := _; p_env := _; p_cwd := _ |}
            [stream_msg (encode_utf8 "ab") "stdout"]).
  - vm_compute. reflexivity.
  - exists [stream_msg (encode_utf8 "E") "stderr"]. vm_compute. reflexivity.
Defined.

(** X11 in a complete session of the reference client. *)
Lemma client_sees_all_of_the_child_example :
  client_loop b64decode_rfc4648
    (s_sent (communicate no_validation b64decode_rfc4648 running_world
               [Read fd_stdout; Exit 7; Read fd_stderr; Read fd_stdout;
                Read fd_stderr; Read fd_stdout])) [] []
  = (concat (default [] (Some [encode_utf8 "abc"])),
     concat (default [] (Some [encode_utf8 "E"])), Ok (JInt 7)).
Proof.
  eapply (client_sees_all_of_the_child no_validation b64decode_rfc4648
            running_world
            [Read fd_stdout; Exit 7; Read fd_stderr; Read fd_stdout;
             Read fd_stderr; Read fd_stdout]
            {| p_stdout := Some [encode_utf8 "abc"];
               p_stderr := Some [encode_utf8 "E"];
               p_args := _; p_env := _; p_cwd := _ |} 2 7).
  - vm_compute. reflexivity.
  - vm_compute. reflexivity.
  - lia.
  - by apply no_cancel_in.
  - reflexivity.
  - vm_compute. reflexivity.
  - vm_compute. reflexivity.
Defined.


(** X13 at a files map whose second value is not a string: staging
    raises, and the file system is as before. *)
Lemma proper_keys_leave_no_trace_example :
  match TempDirectory example_fs ["tmp"] example_draws
          (JDict [("main.py", JStr "print(1)"); ("n", JInt 1)]) with
  | (fs', Ok dname) => TempDirectory_exit fs' dname = example_fs
  | (fs', Raise _) => fs' = example_fs
  end.
Proof.
  apply (proper_keys_leave_no_trace example_fs ["tmp"] example_draws
           [("main.py", JStr "print(1)"); ("n", JInt 1)]).
  - exact example_fs_wf.
  - exact (proper_names ["tmp"] eq_refl).
  - repeat constructor.
Defined.

(** X14 in a session cancelled while the child runs. *)
Lemma staging_directory_removed_example :
  ∃ d, "/tmp/aiy-bcdefghi" = path_str d
    ∧ ∀ q, d `prefix_of` q →
        s_fs (communicate no_validation b64decode_rfc4648 running_world
                [Read fd_stdout; Cancel; Exit (-9)]) !! q = None.
Proof.
  apply (staging_directory_removed no_validation b64decode_rfc4648 running_world
           [Read fd_stdout; Cancel; Exit (-9)] example_staged "/tmp/aiy-bcdefghi").
  - exact example_fs_wf.
  - exact (proper_names ["tmp"] eq_refl).
  - exact example_staged_made.
  - vm_compute. reflexivity.
Defined.


(** X16 in a session whose run message sets stdout to "null". *)
Lemma null_pipe_sends_nothing_example :
  Forall (λ m, ¬ is_stream_msg (kind fd_stdout) m)
    (s_sent (communicate no_validation b64decode_rfc4648 null_world
               [Read fd_stdout; Read fd_stderr; Exit 0; Read fd_stderr])).
Proof.
  apply (null_pipe_sends_nothing no_validation b64decode_rfc4648 null_world
           [Read fd_stdout; Read fd_stderr; Exit 0; Read fd_stderr]
           [("type", JStr "run"); ("args", JList [JStr "/bin/ls"]);
            ("stdout", JStr "null")] [] fd_stdout);
    reflexivity.
Defined.

(** X18 at the messages of the reference client: its run message, and
    SIGKILL, which it sends on Ctrl-T. *)
Lemma client_messages_accepted_example :
  enabled_validation (make_signal_msg 9) = true
  ∧ enabled_validation
      (make_run_msg (JList (JStr <$> ["/usr/bin/env"; "python3"; "main.py"]))
         (JStr "pipe") (JStr "pipe") (JInt 2)
         (JDict [("PYTHONUNBUFFERED", JStr "1")])
         (JDict [("main.py", JStr "print(1)")])) = true.
Proof.
  split.
  - apply (proj1 (proj2 client_messages_accepted) 9%Z). lia.
  - apply (proj2 (proj2 client_messages_accepted)
             ["/usr/bin/env"; "python3"; "main.py"] "pipe" "pipe" 2%Z
             [("PYTHONUNBUFFERED", JStr "1")] [("main.py", JStr "print(1)")]).
    + repeat constructor.
    + repeat constructor.
    + lia.
Defined.



(** X2 in the session of the reference client. *)
Lemma client_run_message_starts_child_example :
  ∃ p,
    s_process (communicate no_validation b64decode_rfc4648 running_world
                 [Read fd_stdout]) = Some p
    ∧ (∃ fs, TempDirectory (w_fs running_world) (w_tmp running_world)
               (w_draws running_world) (JDict [("main.py", JStr "print(1)")])
             = (fs, Ok (p_cwd p)))
    ∧ start_process running_world
        (JList [JStr "/usr/bin/env"; JStr "python3"; JStr "main.py"])
        (JStr "pipe") (JStr "pipe") (JDict [("PYTHONUNBUFFERED", JStr "1")])
        (p_cwd p) = Ok p
    ∧ p_args p = JList [JStr "/usr/bin/env"; JStr "python3"; JStr "main.py"]
    ∧ s_chunk_size (communicate no_validation b64decode_rfc4648 running_world
                      [Read fd_stdout]) = JInt 2.
Proof.
  eexists. split; [vm_compute; reflexivity|].
  eapply (client_run_message_starts_child no_validation b64decode_rfc4648
            running_world [Read fd_stdout]
            (JList [JStr "/usr/bin/env"; JStr "python3"; JStr "main.py"])
            (JStr "pipe") (JStr "pipe") (JInt 2)
            (JDict [("PYTHONUNBUFFERED", JStr "1")])
            (JDict [("main.py", JStr "print(1)")]) []).
  - reflexivity.
  - vm_compute. reflexivity.
Defined.

(** X20 at the run message of the reference client. *)
Lemma validated_run_may_lack_args_example :
  enabled_validation
    (JDict (List.filter (λ kv, negb (String.eqb kv.1 "args"))
              [("type", JStr "run"); ("args", JList [JStr "/bin/true"]);
               ("chunk_size", JInt 16)])) = true
  ∧ parse_run_msg enabled_validation
      (JDict (List.filter (λ kv, negb (String.eqb kv.1 "args"))
                [("type", JStr "run"); ("args", JList [JStr "/bin/true"]);
                 ("chunk_size", JInt 16)]))
    = Raise (KeyError (JStr "args")).
Proof.
  apply (validated_run_may_lack_args
           [("type", JStr "run"); ("args", JList [JStr "/bin/true"]);
            ("chunk_size", JInt 16)]); reflexivity.
Defined.

(** X22 in a session whose run message asks for chunks of 0 bytes. *)
Lemma zero_chunk_size_sends_no_output_example :
  Forall is_exit_msg
    (s_sent (communicate no_validation b64decode_rfc4648 zero_chunk_world
               [Read fd_stdout; Read fd_stderr; Exit 0])).
Proof.
  apply (zero_chunk_size_sends_no_output no_validation b64decode_rfc4648
           zero_chunk_world [Read fd_stdout; Read fd_stderr; Exit 0]).
  vm_compute. reflexivity.
Defined.



(** X25 in a session whose run message asks for chunks of -1 bytes. *)
Lemma negative_chunk_size_sends_whole_pipes_example :
  Forall (λ m, is_exit_msg m
               ∨ ∃ r pipe,
                   process_pipe r
                     {| p_args := JList [JStr "/bin/ls"];
                        p_stdout := Some [encode_utf8 "abc"];
                        p_stderr := Some [encode_utf8 "E"];
                        p_env := {| maps := [[]; environ_dict
                                               (w_environ negative_chunk_world)] |};
                        p_cwd := "/tmp/aiy-bcdefghi" |} = Some pipe
                   ∧ m = stream_msg (concat pipe) (kind r))
    (s_sent (communicate no_validation b64decode_rfc4648 negative_chunk_world
               [Read fd_stdout; Read fd_stderr; Read fd_stdout])).
Proof.
  apply (negative_chunk_size_sends_whole_pipes no_validation b64decode_rfc4648
           negative_chunk_world [Read fd_stdout; Read fd_stderr; Read fd_stdout]
           _ (-1)).
  - vm_compute. reflexivity.
  - vm_compute. reflexivity.
  - lia.
Defined.
